(** * Deploying FLAN-T5 XXL on Amazon SageMaker: a model of the notebook

    The repository is one Jupyter notebook, [sagemaker-notebook.ipynb].  Its
    code cells are glue over the sagemaker, boto3, huggingface_hub and
    transformers libraries and over the Python standard library.  Two pieces
    of code are written by the notebook itself:

    - [code/inference.py], the handler run inside the endpoint, with
      [model_fn] and [predict_fn] (module [Inference] below);
    - the helper [compress] and the cells that call the SDKs in sequence
      (module [Notebook] below).

    The libraries are not part of the repository.  They appear here as
    parameters: a record of functions for the transformers objects, and an
    arbitrary handler answering the calls the notebook makes.  Where a claim
    is about the file system, the calls of [os] and [tarfile] are answered by
    a small model of a directory tree that follows the documented behaviour
    of these modules. *)

From Stdlib Require Import Ascii String.
From stdpp Require Import gmap strings list fin_maps.

#[local] Open Scope string_scope.
#[local] Set Warnings "-register-all,-clear-no-such-hyp".

(** ** Python exceptions and results *)

(** An exception is known by its class and the classes it inherits from:
    [except C] catches an exception when [C] is one of them. *)
Record exn := Exn { exn_type : string; exn_bases : list string }.

Definition isinstance (e : exn) (cls : string) : bool :=
  bool_decide (cls ∈ exn_type e :: exn_bases e).

Definition TypeError : exn := Exn "TypeError" ["Exception"; "BaseException"].
Definition IndexError : exn :=
  Exn "IndexError" ["LookupError"; "Exception"; "BaseException"].
Definition KeyError : exn :=
  Exn "KeyError" ["LookupError"; "Exception"; "BaseException"].
Definition ValueError : exn := Exn "ValueError" ["Exception"; "BaseException"].
Definition AttributeError : exn :=
  Exn "AttributeError" ["Exception"; "BaseException"].

Inductive result (A : Type) : Type :=
  | Ok (a : A)
  | Raise (e : exn).
Arguments Ok {A} a.
Arguments Raise {A} e.

Definition is_ok {A} (r : result A) : bool :=
  match r with Ok _ => true | Raise _ => false end.

(** ** Python values *)

(** The values a deserialised JSON request is made of.  A dictionary that the
    code mutates lives in the heap and is named by a reference [VRef]; the
    dictionaries and lists nested inside a request are never mutated by the
    handler and are kept by value. *)
Definition loc := positive.

Inductive value : Type :=
  | VNone
  | VBool (b : bool)
  | VInt (n : Z)
  | VFloat (mantissa exponent : Z)
  | VStr (s : string)
  | VList (l : list value)
  | VDict (d : gmap string value)
  | VRef (l : loc).

Abbreviation kwargs := (gmap string value).
Abbreviation heap := (gmap loc (gmap string value)).

(** What a callee sees when it is handed [v]: the current contents of the
    object a reference points to. *)
Definition deref (h : heap) (v : value) : option value :=
  match v with
  | VRef l => VDict <$> h !! l
  | _ => Some v
  end.

(** A batch of token-id sequences. *)
Abbreviation tensor := (list (list Z)).

Module Inference.

(** ** The transformers objects *)

(** [tok_call] is [tokenizer(text, **kw).input_ids]; it receives the heap
    because its argument may be a reference.  [tok_decode] is
    [tokenizer.decode] and [mdl_generate] is [model.generate].  The library
    reads its arguments and does not write to the heap. *)
Record Tokenizer := {
  tok_call : heap → value → kwargs → result tensor;
  tok_decode : list Z → kwargs → result string
}.

Record Model := {
  mdl_generate : tensor → kwargs → result tensor
}.

Record Transformers := {
  AutoModelForSeq2SeqLM_from_pretrained : string → kwargs → result Model;
  AutoTokenizer_from_pretrained : string → kwargs → result Tokenizer
}.

(** The calls into the library, in the order they are made. *)
Inductive lib_call : Type :=
  | CLoadModel (path : string) (kw : kwargs)
  | CLoadTokenizer (path : string) (kw : kwargs)
  | CTokenizer (arg : value) (kw : kwargs) (h : heap)
  | CGenerate (input_ids : tensor) (kw : kwargs)
  | CDecode (seq : list Z) (kw : kwargs).

(** ** The handler's monad: heap, call log, exceptions *)

Record pstate := PState { st_heap : heap; st_calls : list lib_call }.

Definition M (A : Type) : Type := pstate → result A * pstate.

#[export] Instance M_ret : MRet M := λ A a σ, (Ok a, σ).
#[export] Instance M_bind : MBind M := λ A B f m σ,
  match m σ with
  | (Ok a, σ') => f a σ'
  | (Raise e, σ') => (Raise e, σ')
  end.

Definition lift {A} (r : result A) : M A := λ σ, (r, σ).

Definition get_heap : M heap := λ σ, (Ok (st_heap σ), σ).

(** [d.pop(key, default)] on the dictionary object at [d]. *)
Definition dict_pop (d : loc) (key : string) (default : value) : M value :=
  λ σ,
    match st_heap σ !! d with
    | None => (Raise AttributeError, σ)
    | Some m =>
        match m !! key with
        | Some v => (Ok v, PState (<[d := delete key m]> (st_heap σ)) (st_calls σ))
        | None => (Ok default, σ)
        end
    end.

(** [f(x, **v)]: the keyword arguments unpacked from [v], which has to be a
    mapping: a dictionary kept by value, or a reference to a dictionary of
    the heap, unpacked as it is at the call. *)
Definition unpack_kwargs (h : heap) (v : value) : result kwargs :=
  match deref h v with
  | Some (VDict kw) => Ok kw
  | _ => Raise TypeError
  end.

(** [xs[0]] *)
Definition first_row (xs : tensor) : result (list Z) :=
  match xs with
  | x :: _ => Ok x
  | [] => Raise IndexError
  end.

(** ** Calling the library *)

(** A call into the library is one step: the function of the library is
    applied to the arguments, and the call is entered in the log with these
    arguments, whether it returns or raises.  The tokenizer is applied on
    the heap as it is at the call. *)
Definition load_model (transformers : Transformers) (path : string)
    (kw : kwargs) : M Model :=
  λ σ, (AutoModelForSeq2SeqLM_from_pretrained transformers path kw,
        PState (st_heap σ) (st_calls σ ++ [CLoadModel path kw])).

Definition load_tokenizer (transformers : Transformers) (path : string)
    (kw : kwargs) : M Tokenizer :=
  λ σ, (AutoTokenizer_from_pretrained transformers path kw,
        PState (st_heap σ) (st_calls σ ++ [CLoadTokenizer path kw])).

Definition tokenize (tokenizer : Tokenizer) (arg : value) (kw : kwargs)
  : M tensor :=
  λ σ, (tok_call tokenizer (st_heap σ) arg kw,
        PState (st_heap σ) (st_calls σ ++ [CTokenizer arg kw (st_heap σ)])).

Definition generate (model : Model) (input_ids : tensor) (kw : kwargs)
  : M tensor :=
  λ σ, (mdl_generate model input_ids kw,
        PState (st_heap σ) (st_calls σ ++ [CGenerate input_ids kw])).

Definition decode (tokenizer : Tokenizer) (seq : list Z) (kw : kwargs)
  : M string :=
  λ σ, (tok_decode tokenizer seq kw,
        PState (st_heap σ) (st_calls σ ++ [CDecode seq kw])).

(** ** code/inference.py *)

Section Handler.
Context (transformers : Transformers).

Definition model_fn (model_dir : string) : M (Model * Tokenizer) :=
  let kw : kwargs := <["device_map" := VStr "auto"]> {["load_in_8bit" := VBool true]} in
  model ← load_model transformers model_dir kw;
  tokenizer ← load_tokenizer transformers model_dir ∅;
  mret (model, tokenizer).

Definition predict_fn (data : loc) (model_and_tokenizer : Model * Tokenizer)
  : M value :=
  let '(model, tokenizer) := model_and_tokenizer in
  inputs ← dict_pop data "inputs" (VRef data);
  parameters ← dict_pop data "parameters" VNone;
  let kw_tok : kwargs := {["return_tensors" := VStr "pt"]} in
  input_ids ← tokenize tokenizer inputs kw_tok;
  outputs ←
    match parameters with
    | VNone => generate model input_ids ∅
    | _ =>
        h ← get_heap;
        kw ← lift (unpack_kwargs h parameters);
        generate model input_ids kw
    end;
  seq ← lift (first_row outputs);
  let kw_dec : kwargs := {["skip_special_tokens" := VBool true]} in
  prediction ← decode tokenizer seq kw_dec;
  mret (VList [VDict {["generated_text" := VStr prediction]}]).
End Handler.

(** What [predict_fn] hands to [model.generate] as keyword arguments, for a
    request whose [parameters] entry is absent, [None] or a mapping kept in
    the request. *)
Definition passed_kwargs (d : gmap string value) : option kwargs :=
  match d !! "parameters" with
  | None | Some VNone => Some ∅
  | Some (VDict kw) => Some kw
  | Some _ => None
  end.

(** The request dictionary once [inputs] and [parameters] are popped. *)
Definition popped (d : gmap string value) : gmap string value :=
  delete "parameters" (delete "inputs" d).

Definition kw_tokenize : kwargs := {["return_tensors" := VStr "pt"]}.
Definition kw_decode : kwargs := {["skip_special_tokens" := VBool true]}.
Definition kw_load : kwargs :=
  <["device_map" := VStr "auto"]> {["load_in_8bit" := VBool true]}.

Definition generate_calls (cs : list lib_call) : list (tensor * kwargs) :=
  omap (λ c, match c with CGenerate ids kw => Some (ids, kw) | _ => None end) cs.

(** The keyword arguments of the generation on the heap [h], for any
    request: none when [parameters] is absent or [None]; the entries of the
    mapping when it is one, kept by value or found in the heap; and [None]
    here when [parameters] is anything else, which cannot be unpacked. *)
Definition generate_kwargs (h : heap) (d : gmap string value)
  : option kwargs :=
  match d !! "parameters" with
  | None | Some VNone => Some ∅
  | Some v =>
      match deref h v with
      | Some (VDict kw) => Some kw
      | _ => None
      end
  end.

(** The answer made of what the generation gave: its first sequence,
    decoded, in a list of one dictionary. *)
Definition respond (tokenizer : Tokenizer) (outputs : result tensor)
  : result value :=
  match outputs with
  | Raise e => Raise e
  | Ok [] => Raise IndexError
  | Ok (seq :: _) =>
      match tok_decode tokenizer seq kw_decode with
      | Raise e => Raise e
      | Ok text => Ok (VList [VDict {["generated_text" := VStr text]}])
      end
  end.

(** Tokenizing [inputs] on the heap [h], generating from the token ids with
    the keyword arguments [kw], and answering with the result. *)
Definition pipeline (tokenizer : Tokenizer) (model : Model) (h : heap)
    (inputs : value) (kw : kwargs) : result value :=
  match tok_call tokenizer h inputs kw_tokenize with
  | Raise e => Raise e
  | Ok ids => respond tokenizer (mdl_generate model ids kw)
  end.

(** ** Stand-ins for the library, to run the handler on examples *)

(** A tokenizer that gives one sequence, the length of the text when its
    argument is a string; a model that returns its input; a decoder with a
    fixed answer. *)
Definition toy_tokenizer : Tokenizer := {|
  tok_call := λ h v kw,
    match deref h v with
    | Some (VStr s) => Ok [[Z.of_nat (String.length s); 1%Z]]
    | Some _ => Ok [[0%Z; 1%Z]]
    | None => Raise ValueError
    end;
  tok_decode := λ seq kw, Ok "Peter stayed with Elizabeth at the hospital for 3 days."
|}.

Definition toy_model : Model := {| mdl_generate := λ ids kw, Ok ids |}.

Definition toy_transformers : Transformers := {|
  AutoModelForSeq2SeqLM_from_pretrained := λ path kw, Ok toy_model;
  AutoTokenizer_from_pretrained := λ path kw, Ok toy_tokenizer
|}.

(** A request with both keys, and one without [inputs]. *)
Definition request_full : gmap string value :=
  <["inputs" := VStr "Summarize the following text"]>
  (<["parameters" := VDict (<["max_new_tokens" := VInt 50]> ∅)]> ∅).

Definition request_no_inputs : gmap string value :=
  <["text" := VStr "hi"]>
  (<["parameters" := VDict (<["max_new_tokens" := VInt 5]> ∅)]> ∅).

Definition state_with (d : gmap string value) : pstate :=
  PState {[1%positive := d]} [].

(** A request whose [parameters] entry is a number, and one whose
    [parameters] entry is the request object itself (at location 1). *)
Definition request_bad_parameters : gmap string value :=
  <["inputs" := VStr "hi"]> (<["parameters" := VInt 5]> ∅).

Definition request_self_parameters : gmap string value :=
  <["inputs" := VStr "hi"]>
  (<["parameters" := VRef 1%positive]> (<["max_new_tokens" := VInt 5]> ∅)).

Definition OutOfMemoryError : exn :=
  Exn "OutOfMemoryError" ["RuntimeError"; "Exception"; "BaseException"].

(** A tokenizer that raises; a model whose generation raises, and one that
    generates nothing; a library that cannot load the model. *)
Definition raising_tokenizer : Tokenizer := {|
  tok_call := λ h v kw, Raise ValueError;
  tok_decode := λ seq kw, Raise ValueError
|}.

Definition raising_model : Model :=
  {| mdl_generate := λ ids kw, Raise OutOfMemoryError |}.

Definition empty_model : Model := {| mdl_generate := λ ids kw, Ok [] |}.

Definition no_weights : Transformers := {|
  AutoModelForSeq2SeqLM_from_pretrained := λ path kw, Raise OutOfMemoryError;
  AutoTokenizer_from_pretrained := λ path kw, Ok toy_tokenizer
|}.

End Inference.

Module Notebook.

(** ** Strings and paths *)

(** [s.split(sep)] for a one-character separator. *)
Fixpoint split_on (sep : Ascii.ascii) (s : string) : list string :=
  match s with
  | EmptyString => [EmptyString]
  | String c s' =>
      if bool_decide (c = sep) then EmptyString :: split_on sep s'
      else match split_on sep s' with
           | w :: ws => String c w :: ws
           | [] => [String c EmptyString]
           end
  end.

(** [xs[-1]] *)
Definition last_item (xs : list string) : result string :=
  match last xs with
  | Some x => Ok x
  | None => Raise IndexError
  end.

Definition starts_with_sep (s : string) : bool :=
  match s with
  | String c _ => bool_decide (c = "/"%char)
  | EmptyString => false
  end.

Fixpoint ends_with_sep (s : string) : bool :=
  match s with
  | EmptyString => false
  | String c EmptyString => bool_decide (c = "/"%char)
  | String _ s' => ends_with_sep s'
  end.

(** [os.path.join(a, b)] of posixpath. *)
Definition path_join (a b : string) : string :=
  if starts_with_sep b then b
  else if bool_decide (a = "") || ends_with_sep a then a ++ b
  else a ++ "/" ++ b.

(** ** The calls the notebook makes *)

(** Objects of the SDKs (sessions, clients, models, predictors, open
    archives) are opaque handles.  A call is named after the function or
    method it stands for.  [Shell] is a [!command] line, which gives an exit
    status and does not raise when the command fails; [WriteFile] is a
    [%%writefile] cell.  [TemporaryDirectory] enters the context manager and
    [TemporaryDirectoryCleanup] leaves it.  [TarClose] is what leaving
    [with tarfile.open(...)] does when the body returned, [TarAbort] what it
    does when the body raised.  The path of [OsChdir] is optional because
    [compress] can be called without a directory, and then passes [None]. *)
Definition handle := positive.

Inductive call : Type → Type :=
  (* IPython *)
  | Shell (argv : list string) : call Z
  | WriteFile (path content : string) : call unit
  | Print (args : list value) : call unit
  (* sagemaker, boto3 *)
  | SagemakerSession (default_bucket : option string) : call handle
  | SessionDefaultBucket (sess : handle) : call string
  | SessionBotoRegionName (sess : handle) : call string
  | GetExecutionRole : call string
  | Boto3Client (service : string) : call handle
  | IamGetRole (iam : handle) (RoleName : string) : call value
  (* pathlib, tempfile, huggingface_hub, distutils *)
  | PathMkdir (path : string) : call unit
  | TemporaryDirectory : call string
  | TemporaryDirectoryCleanup (name : string) : call unit
  | SnapshotDownload (repo_id cache_dir : string) : call string
  | CopyTree (src dst : string) : call (list string)
  (* os, tarfile *)
  | OsGetcwd : call string
  | OsChdir (path : option string) : call unit
  | OsListdir (path : string) : call (list string)
  | TarfileOpen (name mode : string) : call handle
  | TarAdd (tar : handle) (name arcname : string) : call unit
  | TarClose (tar : handle) : call unit
  | TarAbort (tar : handle) : call unit
  (* sagemaker *)
  | S3Upload (local_path desired_s3_uri : string) : call string
  | HuggingFaceModel (model_data : string) (role : value)
      (transformers_version pytorch_version py_version : string) : call handle
  | ModelDeploy (model : handle) (initial_instance_count : Z)
      (instance_type : string) : call handle
  | PredictorPredict (predictor : handle) (data : value) : call value
  | PredictorDeleteModel (predictor : handle) : call unit
  | PredictorDeleteEndpoint (predictor : handle) : call unit.

(** ** Programs over these calls *)

(** A program returns, raises, or makes a call and goes on with its answer,
    which is a value or an exception. *)
Inductive prog (A : Type) : Type :=
  | Ret (a : A)
  | Throw (e : exn)
  | Vis {R : Type} (c : call R) (k : result R → prog A).
Arguments Ret {A} a.
Arguments Throw {A} e.
Arguments Vis {A R} c k.

Fixpoint bind {A B} (p : prog A) (f : A → prog B) : prog B :=
  match p with
  | Ret a => f a
  | Throw e => Throw e
  | Vis c k => Vis c (λ r, bind (k r) f)
  end.

#[export] Instance prog_ret : MRet prog := λ A a, Ret a.
#[export] Instance prog_bind : MBind prog := λ A B f p, bind p f.

(** A call whose exception, if any, is raised at the calling statement. *)
Definition do {R} (c : call R) : prog R :=
  Vis c (λ r, match r with Ok x => Ret x | Raise e => Throw e end).

Definition lift {A} (r : result A) : prog A :=
  match r with Ok a => Ret a | Raise e => Throw e end.

(** [try: body / except cls: handler] *)
Fixpoint try_except {A} (body : prog A) (cls : string) (handler : prog A)
  : prog A :=
  match body with
  | Ret a => Ret a
  | Throw e => if isinstance e cls then handler else Throw e
  | Vis c k => Vis c (λ r, try_except (k r) cls handler)
  end.

(** [with ... : body], for a context manager whose [__exit__] does not
    swallow the exception: [on_return] runs when the body returns, [on_raise]
    when it raises, and the exception is raised again. *)
Fixpoint with_exit {A} (body : prog A) (on_return on_raise : prog unit)
  : prog A :=
  match body with
  | Ret a => bind on_return (λ _, Ret a)
  | Throw e => bind on_raise (λ _, Throw e)
  | Vis c k => Vis c (λ r, with_exit (k r) on_return on_raise)
  end.

(** [for x in xs: body x] *)
Fixpoint for_each {A} (xs : list A) (body : A → prog unit) : prog unit :=
  match xs with
  | [] => Ret tt
  | x :: xs' => bind (body x) (λ _, for_each xs' body)
  end.

(** [v[key]] on a dictionary. *)
Definition subscript (v : value) (key : string) : prog value :=
  match v with
  | VDict d =>
      match d !! key with
      | Some x => Ret x
      | None => Throw KeyError
      end
  | _ => Throw TypeError
  end.

(** ** Running a program *)

Inductive event : Type :=
  | Ev {R : Type} (c : call R) (r : result R).

Definition handler (S : Type) : Type := ∀ R, call R → S → result R * S.

Fixpoint exec {S A} (h : handler S) (p : prog A) (s : S)
  : result A * S * list event :=
  match p with
  | Ret a => (Ok a, s, [])
  | Throw e => (Raise e, s, [])
  | Vis c k =>
      let '(r, s1) := h _ c s in
      let '(res, s2, tr) := exec h (k r) s1 in
      (res, s2, Ev c r :: tr)
  end.

Definition outcome {S A} (x : result A * S * list event) : result A := x.1.1.
Definition final {S A} (x : result A * S * list event) : S := x.1.2.
Definition trace {S A} (x : result A * S * list event) : list event := x.2.

(** ** The helper [compress] *)

(** [compress(tar_dir=None, output_file="model.tar.gz")] *)

Definition compress (tar_dir : option string) (output_file : string)
  : prog unit :=
  parent_dir ← do OsGetcwd;
  _ ← do (OsChdir tar_dir);
  tar ← do (TarfileOpen (path_join parent_dir output_file) "w:gz");
  _ ← with_exit
        (items ← do (OsListdir ".");
         for_each items (λ item,
           _ ← do (Print [VStr item]);
           do (TarAdd tar item item)))
        (do (TarClose tar))
        (do (TarAbort tar));
  do (OsChdir (Some parent_dir)).

(** ** The cells *)

Definition newline : string := String "010"%char EmptyString.

(** The lines of a text, joined by newlines. *)
Definition unlines (ls : list string) : string := String.concat newline ls.

(** The handler source is kept with a backquote wherever the file has a
    double quote; [with_quotes] puts the double quotes back. *)
Fixpoint with_quotes (s : string) : string :=
  match s with
  | EmptyString => EmptyString
  | String c s' =>
      String (if bool_decide (c = "`"%char) then "034"%char else c)
             (with_quotes s')
  end.

(** [!pip install ...] *)
Definition cell_install : prog Z :=
  do (Shell ["pip"; "install"; "sagemaker==2.116.0"; "huggingface_hub==0.12.0";
             "--upgrade"; "--quiet"]).

(** The session, its bucket and the execution role. *)
Definition cell_credentials : prog (handle * value) :=
  sess ← do (SagemakerSession None);
  (* sagemaker_session_bucket is None here, and sess is an object *)
  sagemaker_session_bucket ← do (SessionDefaultBucket sess);
  role ← try_except
           (r ← do GetExecutionRole; mret (VStr r))
           "ValueError"
           (iam ← do (Boto3Client "iam");
            resp ← do (IamGetRole iam "sagemaker_execution_role");
            r ← subscript resp "Role";
            subscript r "Arn");
  sess ← do (SagemakerSession (Some sagemaker_session_bucket));
  _ ← do (Print [VStr "sagemaker role arn: "; role]);
  bucket ← do (SessionDefaultBucket sess);
  _ ← do (Print [VStr "sagemaker bucket: "; VStr bucket]);
  region ← do (SessionBotoRegionName sess);
  _ ← do (Print [VStr "sagemaker session region: "; VStr region]);
  mret (sess, role).

(** [!mkdir code] *)
Definition cell_mkdir_code : prog Z := do (Shell ["mkdir"; "code"]).

(** [%%writefile code/requirements.txt] *)
Definition requirements_txt : string :=
  unlines [
    "accelerate==0.16.0";
    "transformers==4.26.0";
    "bitsandbytes==0.37.0"
  ].

(** The entries of a dependency manifest: its lines that are not empty, each
    read as [name==version]. *)
Definition manifest_lines (text : string) : list string :=
  filter (λ l, l ≠ "") (split_on "010" text).

Fixpoint parse_pin (line : string) : option (string * string) :=
  match line with
  | EmptyString => None
  | String c rest =>
      match rest with
      | String c' version =>
          if bool_decide (c = "="%char) && bool_decide (c' = "="%char)
          then Some ("", version)
          else match parse_pin rest with
               | Some (name, version) => Some (String c name, version)
               | None => None
               end
      | EmptyString => None
      end
  end.

Definition cell_requirements : prog unit :=
  do (WriteFile "code/requirements.txt" requirements_txt).

(** [%%writefile code/inference.py] *)
Definition inference_py : string :=
  with_quotes (unlines [
    "from typing import Dict, List, Any";
    "from transformers import AutoModelForSeq2SeqLM, AutoTokenizer";
    "import torch";
    "";
    "";
    "def model_fn(model_dir):";
    "    # load model and processor from model_dir";
    "    model =  AutoModelForSeq2SeqLM.from_pretrained(model_dir, device_map=`auto`, load_in_8bit=True)";
    "    tokenizer = AutoTokenizer.from_pretrained(model_dir)";
    "";
    "    return model, tokenizer";
    "";
    "";
    "def predict_fn(data, model_and_tokenizer):";
    "    # unpack model and tokenizer";
    "    model, tokenizer = model_and_tokenizer";
    "";
    "    # process input";
    "    inputs = data.pop(`inputs`, data)";
    "    parameters = data.pop(`parameters`, None)";
    "";
    "    # preprocess";
    "    input_ids = tokenizer(inputs, return_tensors=`pt`).input_ids";
    "";
    "    # pass inputs with all kwargs in data";
    "    if parameters is not None:";
    "        outputs = model.generate(input_ids, **parameters)";
    "    else:";
    "        outputs = model.generate(input_ids)";
    "";
    "    # postprocess the prediction";
    "    prediction = tokenizer.decode(outputs[0], skip_special_tokens=True)";
    "";
    "    return [{`generated_text`: prediction}]";
    ""
  ]).

Definition cell_inference : prog unit :=
  do (WriteFile "code/inference.py" inference_py).

(** Download of the weights into the model directory. *)
Definition HF_MODEL_ID : string := "philschmid/flan-t5-xxl-sharded-fp16".

Definition cell_download : prog string :=
  model_tar_dir ← lift (last_item (split_on "/" HF_MODEL_ID));
  _ ← do (PathMkdir model_tar_dir);
  tmpdir ← do TemporaryDirectory;
  _ ← with_exit
        (snapshot_dir ← do (SnapshotDownload HF_MODEL_ID tmpdir);
         do (CopyTree snapshot_dir model_tar_dir))
        (do (TemporaryDirectoryCleanup tmpdir))
        (do (TemporaryDirectoryCleanup tmpdir));
  mret model_tar_dir.

(** [copy_tree] of [code/] into the model directory. *)
Definition cell_copy_code (model_tar_dir : string) : prog (list string) :=
  do (CopyTree "code/" (path_join model_tar_dir "code")).

(** [compress(str(model_tar_dir))] *)
Definition cell_compress (model_tar_dir : string) : prog unit :=
  compress (Some model_tar_dir) "model.tar.gz".

(** Upload of the archive to the session bucket. *)
Definition cell_upload (sess : handle) : prog string :=
  bucket ← do (SessionDefaultBucket sess);
  s3_model_uri ← do (S3Upload "model.tar.gz" ("s3://" ++ bucket ++ "/flan-t5-xxl"));
  _ ← do (Print [VStr "model uploaded to: "; VStr s3_model_uri]);
  mret s3_model_uri.

(** The model object and its endpoint. *)
Definition cell_deploy (s3_model_uri : string) (role : value) : prog handle :=
  huggingface_model ← do (HuggingFaceModel s3_model_uri role "4.17" "1.10" "py38");
  do (ModelDeploy huggingface_model 1 "ml.g5.xlarge").

(** The two sample requests. *)
Definition payload_summarize : string :=
  unlines [
    "Summarize the following text: ";
    "Peter and Elizabeth took a taxi to attend the night party in the city. While in the party, Elizabeth collapsed and was rushed to the hospital.";
    "Since she was diagnosed with a brain injury, the doctor told Peter to stay besides her until she gets well. ";
    "Therefore, Peter stayed with her at the hospital for 3 days without leaving.";
    ""
  ].

Definition parameters_summarize : kwargs :=
  <["early_stopping" := VBool true]>
  (<["length_penalty" := VFloat 2 0]>
  (<["max_new_tokens" := VInt 50]>
  (<["temperature" := VInt 0]>
  (<["min_length" := VInt 10]>
  (<["no_repeat_ngram_size" := VInt 3]> ∅))))).

Definition cell_predict_summarize (predictor : handle) : prog value :=
  do (PredictorPredict predictor
        (VDict (<["inputs" := VStr payload_summarize]>
               (<["parameters" := VDict parameters_summarize]> ∅)))).

Definition payload_math : string :=
  unlines [
    "Answer the following question step by step:";
    "Roger has 5 tennis balls. He buys 2 more cans of tennis balls. ";
    "Each can has 3 tennis balls. How many tennis balls does he have now?";
    ""
  ].

Definition parameters_math : kwargs :=
  <["early_stopping" := VBool true]>
  (<["length_penalty" := VFloat 2 0]>
  (<["max_new_tokens" := VInt 50]>
  (<["temperature" := VInt 0]> ∅))).

Definition cell_predict_math (predictor : handle) : prog value :=
  do (PredictorPredict predictor
        (VDict (<["inputs" := VStr payload_math]>
               (<["parameters" := VDict parameters_math]> ∅)))).

(** Clean up. *)
Definition cell_delete (predictor : handle) : prog unit :=
  _ ← do (PredictorDeleteModel predictor);
  do (PredictorDeleteEndpoint predictor).

(** The notebook, its cells run from top to bottom. *)
Definition notebook : prog unit :=
  _ ← cell_install;
  '(sess, role) ← cell_credentials;
  _ ← cell_mkdir_code;
  _ ← cell_requirements;
  _ ← cell_inference;
  model_tar_dir ← cell_download;
  _ ← cell_copy_code model_tar_dir;
  _ ← cell_compress model_tar_dir;
  s3_model_uri ← cell_upload sess;
  predictor ← cell_deploy s3_model_uri role;
  _ ← cell_predict_summarize predictor;
  _ ← cell_predict_math predictor;
  cell_delete predictor.

(** ** A model of the file system, for [os] and [tarfile] *)

(** The model has directories and regular files and no symbolic links.
    A file holds bytes or an archive, given by its compression and its
    members in the order they were added, or it is a file the process may
    not read.  A member is a name with the contents of the file it records,
    or [None] for a directory. *)
Inductive compression : Type := Uncompressed | Gzip | Bzip2 | Xz.

Inductive content : Type :=
  | Bytes (s : string)
  | TarArchive (c : compression) (members : list (string * option content))
  | Unreadable.

Abbreviation member := (string * option content)%type.

Inductive node : Type :=
  | File (c : content)
  | Dir (children : list (string * node)).

Fixpoint assoc {A} (name : string) (l : list (string * A)) : option A :=
  match l with
  | [] => None
  | (k, v) :: l' => if bool_decide (k = name) then Some v else assoc name l'
  end.

Fixpoint assoc_set {A} (name : string) (x : A) (l : list (string * A))
  : list (string * A) :=
  match l with
  | [] => [(name, x)]
  | (k, v) :: l' =>
      if bool_decide (k = name) then (k, x) :: l'
      else (k, v) :: assoc_set name x l'
  end.

Fixpoint lookup_node (n : node) (p : list string) : option node :=
  match p with
  | [] => Some n
  | name :: rest =>
      match n with
      | Dir ch =>
          match assoc name ch with
          | Some sub => lookup_node sub rest
          | None => None
          end
      | File _ => None
      end
  end.

(** Create or replace the regular file at [p]; its directory has to exist
    and [p] must not be a directory. *)
Fixpoint put_file (p : list string) (c : content) (n : node) : option node :=
  match p, n with
  | [], _ => None
  | _, File _ => None
  | [name], Dir ch =>
      match assoc name ch with
      | Some (Dir _) => None
      | _ => Some (Dir (assoc_set name (File c) ch))
      end
  | name :: rest, Dir ch =>
      match assoc name ch with
      | Some sub =>
          match put_file rest c sub with
          | Some sub' => Some (Dir (assoc_set name sub' ch))
          | None => None
          end
      | None => None
      end
  end.

(** Lexical resolution of the path [p] from the directory [cwd], as
    [os.path.abspath] does it: [..] cancels the component before it, whether
    or not that component is there. *)
Definition step_component (acc : list string) (c : string) : list string :=
  if bool_decide (c = "") || bool_decide (c = ".") then acc
  else if bool_decide (c = "..") then removelast acc
  else acc ++ [c].

Definition resolve (cwd : list string) (p : string) : list string :=
  foldl step_component (if starts_with_sep p then [] else cwd)
        (split_on "/" p).

(** The walk the operating system makes along the path [p] when a file or a
    directory is opened: each component, also an empty one, [.] or [..], is
    taken from a place that has to be a directory of the tree.  The walk
    fails on [missing/..], on [file/..] and on [file/]; where it succeeds,
    it ends where the lexical resolution ends, there being no links.  The
    place it ends at need not be there. *)
Definition walk_step (root : node) (acc : option (list string)) (c : string)
  : option (list string) :=
  match acc with
  | Some at_ =>
      match lookup_node root at_ with
      | Some (Dir _) => Some (step_component at_ c)
      | _ => None
      end
  | None => None
  end.

Definition walk (root : node) (cwd : list string) (p : string)
  : option (list string) :=
  foldl (walk_step root) (Some (if starts_with_sep p then [] else cwd))
        (split_on "/" p).

(** The absolute path of a directory, as [os.getcwd] returns it. *)
Definition abs_string (p : list string) : string :=
  "/" ++ String.concat "/" p.

(** File names: not empty, not [.] or [..], and without a separator. *)
Fixpoint no_sep (s : string) : bool :=
  match s with
  | EmptyString => true
  | String c s' => negb (bool_decide (c = "/"%char)) && no_sep s'
  end.

Definition valid_name (s : string) : bool :=
  negb (bool_decide (s = "")) && negb (bool_decide (s = "."))
  && negb (bool_decide (s = "..")) && no_sep s.

Fixpoint wf_node (n : node) : bool :=
  match n with
  | File _ => true
  | Dir ch =>
      (fix go (ch : list (string * node)) : bool :=
         match ch with
         | [] => true
         | (f, c) :: ch' => valid_name f && wf_node c && go ch'
         end) ch
  end.

(** [sorted(...)] on the names of a directory. *)
Fixpoint insert_by_name {A} (x : string * A) (l : list (string * A))
  : list (string * A) :=
  match l with
  | [] => [x]
  | y :: l' =>
      if String.leb x.1 y.1 then x :: l else y :: insert_by_name x l'
  end.

Definition sort_by_name {A} (l : list (string * A)) : list (string * A) :=
  foldr insert_by_name [] l.

(** [arcname.lstrip("/")] *)
Fixpoint lstrip_sep (s : string) : string :=
  match s with
  | String c s' => if bool_decide (c = "/"%char) then lstrip_sep s' else s
  | EmptyString => EmptyString
  end.

(** [TarFile.add(name, arcname)] with its default [recursive=True], on the
    node [n] found at the absolute path [abs]: the archive itself (at [self])
    is skipped; a file gives one member; a directory gives its own member and
    then, in the order of their names, what its entries give under
    [os.path.join(arcname, f)]. *)
Fixpoint add_node (self abs : list string) (arcname : string) (n : node)
  : list member :=
  if bool_decide (abs = self) then []
  else
    match n with
    | File c => [(lstrip_sep arcname, Some c)]
    | Dir ch =>
        (lstrip_sep arcname, None) ::
        concat (map snd (sort_by_name
          ((fix go (ch : list (string * node)) : list (string * list member) :=
              match ch with
              | [] => []
              | (f, c) :: ch' =>
                  (f, add_node self (abs ++ [f]) (path_join arcname f) c) :: go ch'
              end) ch)))
    end.

Record open_tar := OpenTar {
  tar_path : list string;
  tar_compression : compression;
  tar_members : list member
}.

Record fs := Fs {
  fs_root : node;
  fs_cwd : list string;
  fs_tars : gmap handle open_tar;
  fs_next : handle;
  fs_stdout : list (list value)
}.

Definition wf_fs (σ : fs) : bool :=
  wf_node (fs_root σ) && forallb valid_name (fs_cwd σ).

Definition FileNotFoundError : exn :=
  Exn "FileNotFoundError" ["OSError"; "Exception"; "BaseException"].
Definition NotADirectoryError : exn :=
  Exn "NotADirectoryError" ["OSError"; "Exception"; "BaseException"].
Definition NotImplementedError : exn :=
  Exn "NotImplementedError" ["RuntimeError"; "Exception"; "BaseException"].
Definition PermissionError : exn :=
  Exn "PermissionError" ["OSError"; "Exception"; "BaseException"].
(** A call of the model that fails raises an [OSError]; which of its
    subclasses is not told apart beyond these. *)

(** The directory a path names, for [os.chdir] and [os.listdir]. *)
Definition find_dir (σ : fs) (path : string)
  : result (list string * list (string * node)) :=
  if bool_decide (path = "") then Raise FileNotFoundError
  else
    match walk (fs_root σ) (fs_cwd σ) path with
    | None => Raise FileNotFoundError
    | Some p =>
        match lookup_node (fs_root σ) p with
        | Some (Dir ch) => Ok (p, ch)
        | Some (File _) => Raise NotADirectoryError
        | None => Raise FileNotFoundError
        end
    end.

(** The compression a writing mode of [tarfile.open] asks for. *)
Definition compression_of_mode (mode : string) : option compression :=
  if bool_decide (mode = "w:gz") then Some Gzip
  else if bool_decide (mode = "w:bz2") then Some Bzip2
  else if bool_decide (mode = "w:xz") then Some Xz
  else if bool_decide (mode = "w") || bool_decide (mode = "w:") then Some Uncompressed
  else None.

Definition fs_open_tar (σ : fs) (name mode : string) : result handle * fs :=
  match compression_of_mode mode with
  | None => (Raise NotImplementedError, σ)
  | Some c =>
      match walk (fs_root σ) (fs_cwd σ) name with
      | None => (Raise FileNotFoundError, σ)
      | Some p =>
          match put_file p (Bytes "") (fs_root σ) with
          | None => (Raise FileNotFoundError, σ)
          | Some root' =>
              let t := fs_next σ in
              (Ok t, Fs root' (fs_cwd σ)
                        (<[t := OpenTar p c []]> (fs_tars σ))
                        (Pos.succ t) (fs_stdout σ))
          end
      end
  end.

(** A member that could be read, and the members written before the first
    that could not: [tar.add] raises there, with what it has written so far
    left in the archive. *)
Definition readable (m : member) : bool :=
  match m.2 with
  | Some Unreadable => false
  | _ => true
  end.

Fixpoint written (ms : list member) : list member :=
  match ms with
  | [] => []
  | m :: ms' => if readable m then m :: written ms' else []
  end.

Definition fs_tar_add (σ : fs) (tar : handle) (name arcname : string)
  : result unit * fs :=
  match fs_tars σ !! tar with
  | None => (Raise (Exn "OSError" ["Exception"; "BaseException"]), σ)
  | Some ot =>
      if bool_decide (name = "") then (Raise FileNotFoundError, σ)
      else
        match walk (fs_root σ) (fs_cwd σ) name with
        | None => (Raise FileNotFoundError, σ)
        | Some p =>
            match lookup_node (fs_root σ) p with
            | None => (Raise FileNotFoundError, σ)
            | Some n =>
                let ms := add_node (tar_path ot) p arcname n in
                let with_members ms' :=
                  Fs (fs_root σ) (fs_cwd σ)
                     (<[tar := OpenTar (tar_path ot) (tar_compression ot)
                                       (tar_members ot ++ ms')]> (fs_tars σ))
                     (fs_next σ) (fs_stdout σ) in
                if forallb readable ms then (Ok tt, with_members ms)
                else (Raise PermissionError, with_members (written ms))
            end
        end
  end.

Definition fs_tar_close (σ : fs) (tar : handle) : result unit * fs :=
  match fs_tars σ !! tar with
  | None => (Ok tt, σ)
  | Some ot =>
      match put_file (tar_path ot)
                     (TarArchive (tar_compression ot) (tar_members ot))
                     (fs_root σ) with
      | None => (Raise FileNotFoundError, σ)
      | Some root' =>
          (Ok tt, Fs root' (fs_cwd σ) (delete tar (fs_tars σ))
                     (fs_next σ) (fs_stdout σ))
      end
  end.

(** The answers of the model.  The calls of the SDKs are not part of it. *)
Definition fs_handler : handler fs := λ R c,
  match c in call R return fs → result R * fs with
  | OsGetcwd => λ σ, (Ok (abs_string (fs_cwd σ)), σ)
  | OsChdir None => λ σ, (Raise TypeError, σ)
  | OsChdir (Some path) => λ σ,
      match find_dir σ path with
      | Ok (p, _) =>
          (Ok tt, Fs (fs_root σ) p (fs_tars σ) (fs_next σ) (fs_stdout σ))
      | Raise e => (Raise e, σ)
      end
  | OsListdir path => λ σ,
      match find_dir σ path with
      | Ok (_, ch) => (Ok (map fst ch), σ)
      | Raise e => (Raise e, σ)
      end
  | TarfileOpen name mode => λ σ, fs_open_tar σ name mode
  | TarAdd tar name arcname => λ σ, fs_tar_add σ tar name arcname
  | TarClose tar => λ σ, fs_tar_close σ tar
  | TarAbort tar => λ σ,
      (Ok tt, Fs (fs_root σ) (fs_cwd σ) (delete tar (fs_tars σ))
                 (fs_next σ) (fs_stdout σ))
  | Print args => λ σ,
      (Ok tt, Fs (fs_root σ) (fs_cwd σ) (fs_tars σ) (fs_next σ)
                 (fs_stdout σ ++ [args]))
  | _ => λ σ, (Raise NotImplementedError, σ)
  end.

(** An archive name as [tar.add] gets it from [compress] and hands it down:
    not empty, and without a separator at either end. *)
Definition plain_name (a : string) : Prop :=
  a ≠ "" ∧ starts_with_sep a = false ∧ ends_with_sep a = false.

(** The name of a member that is, or lies under, the entry [item] at the top
    of the archive. *)
Definition rooted_at (item name : string) : Prop :=
  ∃ rest, name = item ++ rest ∧ (rest = "" ∨ starts_with_sep rest = true).

(** A sample tree: the model directory with weights, a tokenizer file and
    the handler code, under the user's working directory. *)
Definition sample_model_dir : node :=
  Dir [("config.json", File (Bytes "{}"));
       ("pytorch_model-00001-of-00012.bin", File (Bytes "weights"));
       ("tokenizer.json", File (Bytes "{}"));
       ("code", Dir [("requirements.txt", File (Bytes requirements_txt));
                     ("inference.py", File (Bytes inference_py))])].

Definition sample_fs : fs :=
  Fs (Dir [("home", Dir [("work", Dir [("flan-t5-xxl-sharded-fp16", sample_model_dir);
                                       ("code", Dir [("requirements.txt", File (Bytes requirements_txt));
                                                     ("inference.py", File (Bytes inference_py))])])])])
     ["home"; "work"] ∅ 1%positive [].


(** ** Observing a run *)

(** A property of every call a program can make, whatever the answers. *)
Fixpoint all_calls {A} (P : ∀ R, call R → Prop) (p : prog A) : Prop :=
  match p with
  | Ret _ | Throw _ => True
  | Vis c k => P _ c ∧ ∀ r, all_calls P (k r)
  end.

(** The steps the description of the notebook lists. *)
Inductive step : Type :=
  | AcquireCredentials
  | WriteTextFiles
  | DownloadWeights
  | CopyHandlerFiles
  | CompressArchive
  | UploadArchive
  | DeployModel
  | SendRequests
  | DeleteResources.

#[export] Instance step_eq_dec : EqDecision step.
Proof. solve_decision. Defined.

(** The step a call carries out.  Shell commands, printing and reading the
    attributes of the session carry out none of the listed steps.
    [copy_tree] belongs to the download when it fills the model directory
    and to the copy of the handler when it fills its [code] directory. *)
Definition step_of_call {R} (c : call R) : option step :=
  match c with
  | Shell _ | Print _ | SessionDefaultBucket _ | SessionBotoRegionName _ => None
  | SagemakerSession _ | GetExecutionRole | Boto3Client _ | IamGetRole _ _ =>
      Some AcquireCredentials
  | WriteFile _ _ => Some WriteTextFiles
  | PathMkdir _ | TemporaryDirectory | TemporaryDirectoryCleanup _
  | SnapshotDownload _ _ => Some DownloadWeights
  | CopyTree _ dst =>
      if bool_decide (dst = path_join "flan-t5-xxl-sharded-fp16" "code")
      then Some CopyHandlerFiles else Some DownloadWeights
  | OsGetcwd | OsChdir _ | OsListdir _ | TarfileOpen _ _ | TarAdd _ _ _
  | TarClose _ | TarAbort _ => Some CompressArchive
  | S3Upload _ _ => Some UploadArchive
  | HuggingFaceModel _ _ _ _ _ | ModelDeploy _ _ _ => Some DeployModel
  | PredictorPredict _ _ => Some SendRequests
  | PredictorDeleteModel _ | PredictorDeleteEndpoint _ => Some DeleteResources
  end.

(** A call that belongs to the step [L] or to none; a call that belongs to
    none. *)
Definition in_step (L : step) : ∀ R, call R → Prop :=
  λ R c, step_of_call c = Some L ∨ step_of_call c = None.

Definition in_no_step : ∀ R, call R → Prop := λ R c, step_of_call c = None.

Definition step_of_event (ev : event) : option step :=
  match ev with Ev c _ => step_of_call c end.

(** Adjacent repetitions of a step count once. *)
Fixpoint squash (l : list step) : list step :=
  match l with
  | [] => []
  | x :: l' =>
      match l' with
      | y :: _ => if bool_decide (x = y) then squash l' else x :: squash l'
      | [] => [x]
      end
  end.

Definition steps_of (tr : list event) : list step :=
  squash (omap step_of_event tr).

(** A program whose first action is a call of the step [L]. *)
Definition begins_with {A} (L : step) (p : prog A) : Prop :=
  match p with
  | Vis c _ => step_of_call c = Some L
  | _ => False
  end.

(** The fallback of the credentials cell was taken: the IAM client was
    asked for. *)
Definition is_iam_client (ev : event) : bool :=
  match ev with
  | Ev (Boto3Client service) _ => bool_decide (service = "iam")
  | _ => false
  end.

Definition fallback_taken (tr : list event) : bool := existsb is_iam_client tr.

(** The exception [sagemaker.get_execution_role()] raised, if it did. *)
Definition role_error_of (ev : event) : option exn :=
  match ev with
  | Ev GetExecutionRole (Raise e) => Some e
  | _ => None
  end.

Definition execution_role_error (tr : list event) : option exn :=
  head (omap role_error_of tr).

(** The exceptions raised by the calls of a run, except the [ValueError] of
    [get_execution_role], which the notebook handles. *)
Definition is_get_execution_role {R} (c : call R) : bool :=
  match c with GetExecutionRole => true | _ => false end.

Definition uncaught_of (ev : event) : option exn :=
  match ev with
  | Ev c (Raise e) =>
      if is_get_execution_role c && isinstance e "ValueError" then None
      else Some e
  | Ev _ (Ok _) => None
  end.

Definition uncaught (tr : list event) : list exn := omap uncaught_of tr.

(** A program lets the exceptions of its calls through: if it returns, none
    was raised but the one the notebook handles; and the exception raised
    last is the one the program ends with. *)
Definition propagates {S A} (h : handler S) (p : prog A) : Prop :=
  ∀ s, let x := exec h p s in
    (is_ok (outcome x) = true → uncaught (trace x) = []) ∧
    (∀ e, last (uncaught (trace x)) = Some e → outcome x = Raise e).

(** A call that is neither the look-up of the execution role nor the request
    for a client nor a look-up through a client. *)
Definition not_role_call : ∀ R, call R → Prop :=
  λ R c, match c with
         | GetExecutionRole | Boto3Client _ | IamGetRole _ _ => False
         | _ => True
         end.

(** The [tar.add(name, arcname=...)] calls of a run. *)
Definition tar_adds (tr : list event) : list (handle * string * string) :=
  omap (λ ev, match ev with
              | Ev (TarAdd tar name arcname) _ => Some (tar, name, arcname)
              | _ => None
              end) tr.

(** What [os.listdir] answered in a run. *)
Definition listings (tr : list event) : list (list string) :=
  omap (λ ev, match ev with
              | Ev (OsListdir _) (Ok items) => Some items
              | _ => None
              end) tr.

(** ** Stand-ins for the SDKs, to run the notebook on examples *)

(** Every call returns, unless [fail] names an exception for it. *)
Definition scripted (fail : ∀ R, call R → option exn) : handler unit :=
  λ R c s,
    match fail R c with
    | Some e => (Raise e, s)
    | None =>
        (match c in call R return result R with
         | Shell _ => Ok 0%Z
         | WriteFile _ _ | Print _ | PathMkdir _ | TemporaryDirectoryCleanup _
         | OsChdir _ | TarAdd _ _ _ | TarClose _ | TarAbort _
         | PredictorDeleteModel _ | PredictorDeleteEndpoint _ => Ok tt
         | SagemakerSession _ | Boto3Client _ | TarfileOpen _ _
         | HuggingFaceModel _ _ _ _ _ | ModelDeploy _ _ _ => Ok 1%positive
         | SessionDefaultBucket _ => Ok "sagemaker-us-east-1-000000000000"
         | SessionBotoRegionName _ => Ok "us-east-1"
         | GetExecutionRole => Ok "arn:aws:iam::000000000000:role/notebook"
         | IamGetRole _ name =>
             Ok (VDict {["Role" := VDict {["Arn" := VStr ("arn:aws:iam::000000000000:role/" ++ name)]}]})
         | TemporaryDirectory => Ok "/tmp/tmpdir"
         | SnapshotDownload _ cache_dir => Ok (path_join cache_dir "snapshot")
         | CopyTree _ _ => Ok []
         | OsGetcwd => Ok "/home/work"
         | OsListdir _ => Ok ["config.json"; "tokenizer.json"; "code"]
         | S3Upload _ uri => Ok (uri ++ "/model.tar.gz")
         | PredictorPredict _ _ =>
             Ok (VList [VDict {["generated_text" := VStr "Peter stayed with Elizabeth at the hospital for 3 days."]}])
         end, s)
    end.

Definition all_return : handler unit := scripted (λ R c, None).

Definition ClientError : exn := Exn "ClientError" ["Exception"; "BaseException"].

(** The execution role cannot be resolved: [ValueError]. *)
Definition no_execution_role : handler unit :=
  scripted (λ R c, match c with GetExecutionRole => Some ValueError | _ => None end).

(** The upload is refused. *)
Definition upload_refused : handler unit :=
  scripted (λ R c, match c with S3Upload _ _ => Some ClientError | _ => None end).

(** ** More to observe in a run *)

(** The temporary directories that were created, and those that were
    cleaned up. *)
Definition temp_created (tr : list event) : list string :=
  omap (λ ev, match ev with
              | Ev TemporaryDirectory (Ok d) => Some d
              | _ => None
              end) tr.

Definition temp_cleaned (tr : list event) : list string :=
  omap (λ ev, match ev with
              | Ev (TemporaryDirectoryCleanup d) _ => Some d
              | _ => None
              end) tr.

(** The archives that were opened, those that were let go of (closed, or
    dropped because the body raised), and those that were dropped. *)
Definition tar_opened (tr : list event) : list handle :=
  omap (λ ev, match ev with
              | Ev (TarfileOpen _ _) (Ok tar) => Some tar
              | _ => None
              end) tr.


Definition tar_aborted (tr : list event) : list handle :=
  omap (λ ev, match ev with
              | Ev (TarAbort tar) _ => Some tar
              | _ => None
              end) tr.

(** The directories [os.chdir] was called with, and what [os.getcwd]
    answered. *)
Definition chdirs (tr : list event) : list (option string) :=
  omap (λ ev, match ev with
              | Ev (OsChdir path) _ => Some path
              | _ => None
              end) tr.

Definition cwds (tr : list event) : list string :=
  omap (λ ev, match ev with
              | Ev OsGetcwd (Ok path) => Some path
              | _ => None
              end) tr.

(** The names that were printed. *)
Definition printed (tr : list event) : list (list value) :=
  omap (λ ev, match ev with
              | Ev (Print args) _ => Some args
              | _ => None
              end) tr.

(** What becomes of the archive once it is uploaded: the calls that make,
    use and delete the model and the endpoint, with what they are given and
    what they answer. *)
Inductive flow : Type :=
  | Uploaded (s3_model_uri : string)
  | ModelMade (model_data : string) (role : value) (model : handle)
  | Deployed (model : handle) (predictor : handle)
  | Requested (predictor : handle)
  | ModelDeleted (predictor : handle)
  | EndpointDeleted (predictor : handle).

Definition flow_of (ev : event) : option flow :=
  match ev with
  | Ev (S3Upload _ _) (Ok uri) => Some (Uploaded uri)
  | Ev (HuggingFaceModel model_data role _ _ _) (Ok m) =>
      Some (ModelMade model_data role m)
  | Ev (ModelDeploy m _ _) (Ok p) => Some (Deployed m p)
  | Ev (PredictorPredict p _) (Ok _) => Some (Requested p)
  | Ev (PredictorDeleteModel p) (Ok _) => Some (ModelDeleted p)
  | Ev (PredictorDeleteEndpoint p) (Ok _) => Some (EndpointDeleted p)
  | _ => None
  end.

Definition flows (tr : list event) : list flow := omap flow_of tr.

(** The endpoints that were deployed, the requests that raised, and the
    calls that delete a model or an endpoint. *)
Definition deployed (tr : list event) : list handle :=
  omap (λ ev, match ev with
              | Ev (ModelDeploy _ _ _) (Ok p) => Some p
              | _ => None
              end) tr.

Definition failed_requests (tr : list event) : list exn :=
  omap (λ ev, match ev with
              | Ev (PredictorPredict _ _) (Raise e) => Some e
              | _ => None
              end) tr.

Definition delete_calls (tr : list event) : list handle :=
  omap (λ ev, match ev with
              | Ev (PredictorDeleteModel p) _
              | Ev (PredictorDeleteEndpoint p) _ => Some p
              | _ => None
              end) tr.

(** The sessions that were created, what [iam.get_role] answered, and the
    role the model was made with. *)
Definition sessions (tr : list event) : list (option string) :=
  omap (λ ev, match ev with
              | Ev (SagemakerSession bucket) _ => Some bucket
              | _ => None
              end) tr.

Definition iam_answers (tr : list event) : list value :=
  omap (λ ev, match ev with
              | Ev (IamGetRole _ _) (Ok resp) => Some resp
              | _ => None
              end) tr.

Definition role_answers (tr : list event) : list string :=
  omap (λ ev, match ev with
              | Ev GetExecutionRole (Ok r) => Some r
              | _ => None
              end) tr.

(** [resp['Role']['Arn']] as a value or an exception. *)
Definition role_arn (resp : value) : result value :=
  match resp with
  | VDict d =>
      match d !! "Role" with
      | Some (VDict r) =>
          match r !! "Arn" with
          | Some arn => Ok arn
          | None => Raise KeyError
          end
      | Some _ => Raise TypeError
      | None => Raise KeyError
      end
  | _ => Raise TypeError
  end.

(** A call none of whose answers [f] observes. *)
Definition unobserved {B} (f : event → option B) : ∀ R, call R → Prop :=
  λ R c, ∀ r, f (Ev c r) = None.

(** The nine steps, in the order of the notebook. *)
Definition all_steps : list step :=
  [AcquireCredentials; WriteTextFiles; DownloadWeights; CopyHandlerFiles;
   CompressArchive; UploadArchive; DeployModel; SendRequests; DeleteResources].

(** More stand-ins: the temporary directory cannot be removed; a file
    cannot be added to the archive; the requests are refused; the role
    cannot be resolved and the IAM answer holds no role. *)
Definition cleanup_refused : handler unit :=
  scripted (λ R c, match c with
                   | TemporaryDirectoryCleanup _ => Some PermissionError
                   | _ => None
                   end).

Definition add_refused : handler unit :=
  scripted (λ R c, match c with TarAdd _ _ _ => Some FileNotFoundError | _ => None end).

Definition request_refused : handler unit :=
  scripted (λ R c, match c with PredictorPredict _ _ => Some ClientError | _ => None end).

Definition iam_without_role : handler unit :=
  λ R c s,
    match c in call R return result R * unit with
    | GetExecutionRole => (Raise ValueError, s)
    | IamGetRole _ _ => (Ok (VDict ∅), s)
    | c' => all_return _ c' s
    end.

(** ** What a run has done *)

(** The look-ups of a role through IAM, each with the client it was made on
    and the name asked for, whatever the answer; and the clients that
    [boto3.client('iam')] returned. *)
Definition role_lookups (tr : list event) : list (handle * string) :=
  omap (λ ev, match ev with
              | Ev (IamGetRole iam name) _ => Some (iam, name)
              | _ => None
              end) tr.

Definition iam_clients (tr : list event) : list handle :=
  omap (λ ev, match ev with
              | Ev (Boto3Client service) (Ok iam) =>
                  if bool_decide (service = "iam") then Some iam else None
              | _ => None
              end) tr.

(** The roles [HuggingFaceModel] was called with. *)
Definition model_roles (tr : list event) : list value :=
  omap (λ ev, match ev with
              | Ev (HuggingFaceModel _ role _ _ _) _ => Some role
              | _ => None
              end) tr.

(** The temporary directories whose clean-up returned, and the exceptions
    of the clean-ups that raised. *)
Definition temp_removed (tr : list event) : list string :=
  omap (λ ev, match ev with
              | Ev (TemporaryDirectoryCleanup d) (Ok _) => Some d
              | _ => None
              end) tr.

Definition cleanup_errors (tr : list event) : list exn :=
  omap (λ ev, match ev with
              | Ev (TemporaryDirectoryCleanup d) (Raise e) => Some e
              | _ => None
              end) tr.






(** The path [compress] opens the archive at:
    [os.path.join(parent_dir, output_file)]. *)
Definition archive_path (σ : fs) (output_file : string) : list string :=
  resolve (fs_cwd σ) (path_join (abs_string (fs_cwd σ)) output_file).

(** [tar_dir] names a directory. *)
Definition target_ok (σ : fs) (tar_dir : option string) : bool :=
  match tar_dir with
  | Some d => is_ok (find_dir σ d)
  | None => false
  end.

(** The archive can be created: the walk along its path succeeds and ends
    in a directory that is there, at a name that is no directory. *)
Definition creatable (σ : fs) (output_file : string) : bool :=
  match walk (fs_root σ) (fs_cwd σ)
             (path_join (abs_string (fs_cwd σ)) output_file) with
  | Some p =>
      match put_file p (Bytes "") (fs_root σ) with
      | Some _ => true
      | None => false
      end
  | None => false
  end.

(** Every file of the tree [n], which is at the path [abs], can be read;
    the path [self] and what is under it are left out. *)
Fixpoint readable_tree (self abs : list string) (n : node) : bool :=
  if bool_decide (abs = self) then true
  else
    match n with
    | File Unreadable => false
    | File _ => true
    | Dir ch =>
        (fix go (ch : list (string * node)) : bool :=
           match ch with
           | [] => true
           | (f, c) :: ch' => readable_tree self (abs ++ [f]) c && go ch'
           end) ch
    end.

(** The regular files of two trees are the same but for the path [p]. *)
Definition same_files_but (p : list string) (r r' : node) : Prop :=
  ∀ q c, q ≠ p →
    lookup_node r' q = Some (File c) ↔ lookup_node r q = Some (File c).

End Notebook.

(** * Properties of the handler *)

Module InferenceFacts.
Import Inference.

Lemma dict_pop_spec σ data (d : gmap string value) key dflt :
  st_heap σ !! data = Some d →
  dict_pop data key dflt σ =
    (Ok (default dflt (d !! key)),
     PState (<[data := delete key d]> (st_heap σ)) (st_calls σ)).
Proof.
  intros Hd. unfold dict_pop. rewrite Hd.
  destruct (d !! key) as [v|] eqn:Hk; simpl; [done|].
  rewrite delete_id by done. rewrite insert_id by done. by destruct σ.
Qed.

(** [predict_fn] step by step, on a request that is in the heap. *)
Lemma predict_fn_run model tokenizer σ data (d : gmap string value) :
  st_heap σ !! data = Some d →
  let inputs := default (VRef data) (d !! "inputs") in
  let h := <[data := popped d]> (st_heap σ) in
  let c1 := (st_calls σ ++ [CTokenizer inputs kw_tokenize h])%list in
  predict_fn data (model, tokenizer) σ =
    match tok_call tokenizer h inputs kw_tokenize with
    | Raise e => (Raise e, PState h c1)
    | Ok ids =>
        match generate_kwargs h d with
        | None => (Raise TypeError, PState h c1)
        | Some kw =>
            let c2 := (c1 ++ [CGenerate ids kw])%list in
            match mdl_generate model ids kw with
            | Raise e => (Raise e, PState h c2)
            | Ok outputs =>
                match outputs with
                | [] => (Raise IndexError, PState h c2)
                | seq :: _ =>
                    let c3 := (c2 ++ [CDecode seq kw_decode])%list in
                    match tok_decode tokenizer seq kw_decode with
                    | Raise e => (Raise e, PState h c3)
                    | Ok text =>
                        (Ok (VList [VDict {["generated_text" := VStr text]}]),
                         PState h c3)
                    end
                end
            end
        end
    end.
Proof.
  intros Hd. cbv zeta. unfold predict_fn, mbind, M_bind, mret, M_ret.
  rewrite (dict_pop_spec _ _ d) by done.
  rewrite (dict_pop_spec _ _ (delete "inputs" d)) by (simpl; apply lookup_insert_eq).
  unfold tokenize. cbn [st_heap st_calls].
  rewrite insert_insert_eq, lookup_delete_ne by done. fold (popped d).
  fold kw_tokenize kw_decode.
  destruct (tok_call tokenizer _ _ _) as [ids|e]; [|done].
  unfold generate_kwargs, unpack_kwargs, generate, decode, get_heap, lift,
    first_row.
  destruct (d !! "parameters") as [[]|]; cbn;
    try match goal with
        | |- context [(<[data:=popped d]> (st_heap σ)) !! ?l] =>
            destruct ((<[data:=popped d]> (st_heap σ)) !! l); cbn
        end;
    repeat (match goal with
            | |- context [mdl_generate ?m ?i ?k] => destruct (mdl_generate m i k) as [[|? ?]|?]
            | |- context [tok_decode ?t ?i ?k] => destruct (tok_decode t i k)
            end; cbn); done.
Qed.

(** Keyword arguments kept by value do not depend on the heap. *)
Lemma generate_kwargs_passed h (d : gmap string value) kw :
  passed_kwargs d = Some kw → generate_kwargs h d = Some kw.
Proof.
  unfold passed_kwargs, generate_kwargs.
  by destruct (d !! "parameters") as [[]|].
Qed.

(** The outcome of [predict_fn] is that of the pipeline, when the keyword
    arguments can be unpacked. *)
Lemma predict_fn_outcome model tokenizer σ data (d : gmap string value) kw :
  st_heap σ !! data = Some d →
  let inputs := default (VRef data) (d !! "inputs") in
  let h := <[data := popped d]> (st_heap σ) in
  generate_kwargs h d = Some kw →
  (predict_fn data (model, tokenizer) σ).1 = pipeline tokenizer model h inputs kw.
Proof.
  intros Hd inputs h Hkw. rewrite (predict_fn_run _ _ _ _ d Hd). cbv zeta.
  fold inputs h. unfold pipeline, respond.
  destruct (tok_call tokenizer h inputs kw_tokenize) as [ids|e]; [|done].
  rewrite Hkw.
  destruct (mdl_generate model ids kw) as [[|seq more]|e]; try done.
  by destruct (tok_decode tokenizer seq kw_decode).
Qed.


Lemma popped_lookup (d : gmap string value) :
  popped d !! "inputs" = None ∧ popped d !! "parameters" = None ∧
  ∀ k, k ≠ "inputs" → k ≠ "parameters" → popped d !! k = d !! k.
Proof.
  unfold popped. split_and!.
  - by rewrite lookup_delete_ne, lookup_delete_eq.
  - by rewrite lookup_delete_eq.
  - intros k ??. by rewrite !lookup_delete_ne.
Qed.

(** Whatever happens after the two [pop]s, the heap stays as they left it. *)
Lemma predict_fn_heap model tokenizer σ data (d : gmap string value) :
  st_heap σ !! data = Some d →
  st_heap (predict_fn data (model, tokenizer) σ).2
  = <[data := popped d]> (st_heap σ).
Proof.
  intros Hd. rewrite (predict_fn_run _ _ _ _ d Hd). cbv zeta.
  repeat case_match; done.
Qed.

(** C2, as the code has it.  For a request with an [inputs] string and a
    [parameters] entry that is absent, [None] or a mapping, when the
    tokenizer, the generation and the decoding of the first generated
    sequence return, [predict_fn] returns a list with one element, a
    dictionary whose only key is [generated_text], mapped to the decoded
    string. *)
Theorem predict_fn_returns_generated_text
    model tokenizer σ data (d : gmap string value) s kw ids seq more text :
  st_heap σ !! data = Some d →
  d !! "inputs" = Some (VStr s) →
  passed_kwargs d = Some kw →
  tok_call tokenizer (<[data := popped d]> (st_heap σ)) (VStr s) kw_tokenize
    = Ok ids →
  mdl_generate model ids kw = Ok (seq :: more) →
  tok_decode tokenizer seq kw_decode = Ok text →
  ∃ answer : gmap string value,
    (predict_fn data (model, tokenizer) σ).1 = Ok (VList [VDict answer]) ∧
    dom answer = {["generated_text"]} ∧
    answer !! "generated_text" = Some (VStr text).
Proof.
  intros Hd Hin Hkw Htok Hgen Hdec.
  exists {["generated_text" := VStr text]}. split_and!.
  - rewrite (predict_fn_run _ _ _ _ d Hd). cbv zeta.
    rewrite Hin. simpl default.
    rewrite Htok, (generate_kwargs_passed _ _ _ Hkw), Hgen, Hdec. done.
  - apply dom_singleton_L.
  - apply lookup_singleton_eq.
Qed.

Lemma predict_fn_returns_generated_text_witness :
  ∃ answer : gmap string value,
    (predict_fn 1%positive (toy_model, toy_tokenizer)
       (state_with request_full)).1 = Ok (VList [VDict answer]) ∧
    dom answer = {["generated_text"]} ∧
    answer !! "generated_text"
      = Some (VStr "Peter stayed with Elizabeth at the hospital for 3 days.").
Proof.
  apply (predict_fn_returns_generated_text toy_model toy_tokenizer
           (state_with request_full) 1%positive request_full
           "Summarize the following text"
           (<["max_new_tokens" := VInt 50]> ∅)
           [[28%Z; 1%Z]] [28%Z; 1%Z] []); reflexivity.
Defined.

(** C2, as it is worded, fails: an [inputs] string is not enough.  On the
    request [{"inputs": "hi", "parameters": 5}], with a tokenizer, a model
    and a decoder that return on every argument, [predict_fn] raises
    [TypeError], at [**parameters]. *)
Lemma predict_fn_raises_on_number_parameters :
  request_bad_parameters !! "inputs" = Some (VStr "hi") ∧
  (predict_fn 1%positive (toy_model, toy_tokenizer)
     (state_with request_bad_parameters)).1 = Raise TypeError.
Proof. split; reflexivity. Qed.

(** C3. [predict_fn] takes [inputs] (the request itself when the key is
    missing) and [parameters] out of the request and tokenizes the inputs.
    When the tokenizer returns token ids, the generation is applied to these
    ids, and the answer of [predict_fn] is made of what that application
    gives: with exactly the entries of [parameters] as keyword arguments
    when [parameters] is a mapping (kept in the request, or an object of the
    heap), and with no keyword argument when it is absent or [None].  The
    log shows the tokenizer call, then this generation call, and no other
    generation call. *)
Theorem predict_fn_passes_parameters
    model tokenizer σ data (d : gmap string value) ids :
  st_heap σ !! data = Some d →
  let inputs := default (VRef data) (d !! "inputs") in
  let h := <[data := popped d]> (st_heap σ) in
  tok_call tokenizer h inputs kw_tokenize = Ok ids →
  let r := predict_fn data (model, tokenizer) σ in
  let calls := st_calls r.2 in
  (∀ kw, d !! "parameters" = Some (VDict kw) →
     r.1 = respond tokenizer (mdl_generate model ids kw) ∧
     ∃ rest, calls = (st_calls σ ++
                      [CTokenizer inputs kw_tokenize h; CGenerate ids kw] ++
                      rest)%list
             ∧ generate_calls rest = []) ∧
  (d !! "parameters" = None ∨ d !! "parameters" = Some VNone →
     r.1 = respond tokenizer (mdl_generate model ids ∅) ∧
     ∃ rest, calls = (st_calls σ ++
                      [CTokenizer inputs kw_tokenize h; CGenerate ids ∅] ++
                      rest)%list
             ∧ generate_calls rest = []) ∧
  (∀ l kw, d !! "parameters" = Some (VRef l) → h !! l = Some kw →
     r.1 = respond tokenizer (mdl_generate model ids kw) ∧
     ∃ rest, calls = (st_calls σ ++
                      [CTokenizer inputs kw_tokenize h; CGenerate ids kw] ++
                      rest)%list
             ∧ generate_calls rest = []).
Proof.
  intros Hd inputs h Htok r calls.
  assert (Hrun : ∀ kw, generate_kwargs h d = Some kw →
     r.1 = respond tokenizer (mdl_generate model ids kw) ∧
     ∃ rest, calls = (st_calls σ ++
                      [CTokenizer inputs kw_tokenize h; CGenerate ids kw] ++
                      rest)%list
             ∧ generate_calls rest = []).
  { intros kw Hkw. split.
    - subst r. rewrite (predict_fn_outcome _ _ _ _ d kw Hd Hkw).
      unfold pipeline. fold inputs h. by rewrite Htok.
    - subst calls r.
      rewrite (predict_fn_run _ _ _ _ d Hd). cbv zeta.
      fold inputs h. rewrite Htok, Hkw.
      destruct (mdl_generate model ids kw) as [[|seq more]|e]; cbn [snd st_calls].
      all: try (exists []; split; [|done]; by rewrite <- !app_assoc).
      destruct (tok_decode tokenizer seq kw_decode);
        exists [CDecode seq kw_decode]; cbn [snd st_calls];
        (split; [|done]); by rewrite <- !app_assoc. }
  split_and!.
  - intros kw Hkw. apply Hrun. unfold generate_kwargs. by rewrite Hkw.
  - intros [Hp|Hp]; apply Hrun; unfold generate_kwargs; by rewrite Hp.
  - intros l kw Hp Hl. apply Hrun. unfold generate_kwargs.
    rewrite Hp. cbn. by rewrite Hl.
Qed.

Lemma predict_fn_passes_parameters_witness :
  let r := predict_fn 1%positive (toy_model, toy_tokenizer)
             (state_with request_self_parameters) in
  let calls := st_calls r.2 in
  let h : heap := <[1%positive := popped request_self_parameters]>
                    (st_heap (state_with request_self_parameters)) in
  (∀ kw, request_self_parameters !! "parameters" = Some (VDict kw) →
     r.1 = respond toy_tokenizer (mdl_generate toy_model [[2%Z; 1%Z]] kw) ∧
     ∃ rest, calls = ([] ++
                      [CTokenizer (VStr "hi") kw_tokenize h;
                       CGenerate [[2%Z; 1%Z]] kw] ++ rest)%list
             ∧ generate_calls rest = []) ∧
  (request_self_parameters !! "parameters" = None ∨
   request_self_parameters !! "parameters" = Some VNone →
     r.1 = respond toy_tokenizer (mdl_generate toy_model [[2%Z; 1%Z]] ∅) ∧
     ∃ rest, calls = ([] ++
                      [CTokenizer (VStr "hi") kw_tokenize h;
                       CGenerate [[2%Z; 1%Z]] ∅] ++ rest)%list
             ∧ generate_calls rest = []) ∧
  (∀ l kw, request_self_parameters !! "parameters" = Some (VRef l) →
     h !! l = Some kw →
     r.1 = respond toy_tokenizer (mdl_generate toy_model [[2%Z; 1%Z]] kw) ∧
     ∃ rest, calls = ([] ++
                      [CTokenizer (VStr "hi") kw_tokenize h;
                       CGenerate [[2%Z; 1%Z]] kw] ++ rest)%list
             ∧ generate_calls rest = []).
Proof.
  apply (predict_fn_passes_parameters toy_model toy_tokenizer
           (state_with request_self_parameters) 1%positive
           request_self_parameters [[2%Z; 1%Z]]);
    reflexivity.
Defined.


(** C9. [predict_fn] changes the dictionary it is given: once it has run,
    whether it returned or raised, the keys [inputs] and [parameters] are
    gone from it, every other key has the value it had, and no other object
    of the heap is touched. *)
Theorem predict_fn_pops_request
    model tokenizer σ data (d : gmap string value) :
  st_heap σ !! data = Some d →
  let σ' := (predict_fn data (model, tokenizer) σ).2 in
  ∃ d' : gmap string value,
    st_heap σ' !! data = Some d' ∧
    d' !! "inputs" = None ∧
    d' !! "parameters" = None ∧
    (∀ k, k ≠ "inputs" → k ≠ "parameters" → d' !! k = d !! k) ∧
    (∀ l, l ≠ data → st_heap σ' !! l = st_heap σ !! l).
Proof.
  intros Hd σ'. subst σ'. rewrite (predict_fn_heap _ _ _ _ d Hd).
  exists (popped d). destruct (popped_lookup d) as (Hi & Hp & Hk).
  split_and!; try done.
  - apply lookup_insert_eq.
  - intros l Hl. by rewrite lookup_insert_ne.
Qed.

Lemma predict_fn_pops_request_witness :
  ∃ d' : gmap string value,
    st_heap (predict_fn 1%positive (toy_model, toy_tokenizer)
               (state_with request_no_inputs)).2 !! 1%positive = Some d' ∧
    d' !! "inputs" = None ∧
    d' !! "parameters" = None ∧
    (∀ k, k ≠ "inputs" → k ≠ "parameters" → d' !! k = request_no_inputs !! k) ∧
    (∀ l, l ≠ 1%positive →
       st_heap (predict_fn 1%positive (toy_model, toy_tokenizer)
                  (state_with request_no_inputs)).2 !! l
       = st_heap (state_with request_no_inputs) !! l).
Proof.
  apply (predict_fn_pops_request toy_model toy_tokenizer
           (state_with request_no_inputs) 1%positive request_no_inputs).
  reflexivity.
Defined.

(** C8, as the code has it.  On a request without an [inputs] key the
    look-up does not raise: the tokenizer is called, and its argument is the
    request object itself.  The [parameters] key has been popped from that
    same object by then, so what the tokenizer sees is the request without
    its [parameters] entry.  When the [parameters] entry is absent, [None]
    or a mapping and the calls into the library return, [predict_fn]
    returns. *)
Theorem predict_fn_without_inputs
    model tokenizer σ data (d : gmap string value) :
  st_heap σ !! data = Some d →
  d !! "inputs" = None →
  let r := predict_fn data (model, tokenizer) σ in
  (∃ h rest,
     st_calls r.2 = (st_calls σ ++ CTokenizer (VRef data) kw_tokenize h :: rest)%list ∧
     deref h (VRef data) = Some (VDict (delete "parameters" d))) ∧
  (∀ kw ids seq more text,
     passed_kwargs d = Some kw →
     tok_call tokenizer (<[data := popped d]> (st_heap σ)) (VRef data)
       kw_tokenize = Ok ids →
     mdl_generate model ids kw = Ok (seq :: more) →
     tok_decode tokenizer seq kw_decode = Ok text →
     r.1 = Ok (VList [VDict {["generated_text" := VStr text]}])).
Proof.
  intros Hd Hin r. subst r. rewrite (predict_fn_run _ _ _ _ d Hd). cbv zeta.
  rewrite Hin. simpl default. split.
  - exists (<[data := popped d]> (st_heap σ)).
    assert (Hview : deref (<[data := popped d]> (st_heap σ)) (VRef data)
                    = Some (VDict (delete "parameters" d))).
    { simpl. rewrite lookup_insert_eq. simpl. unfold popped.
      by rewrite (delete_id d "inputs"). }
    repeat case_match; cbn [snd st_calls]; rewrite <- ?app_assoc;
      eexists; (split; [reflexivity | exact Hview]).
  - intros kw ids seq more text Hkw Htok Hgen Hdec.
    by rewrite Htok, (generate_kwargs_passed _ _ _ Hkw), Hgen, Hdec.
Qed.

Lemma predict_fn_without_inputs_witness :
  let r := predict_fn 1%positive (toy_model, toy_tokenizer)
             (state_with request_no_inputs) in
  (∃ h rest,
     st_calls r.2 = ([] ++ CTokenizer (VRef 1%positive) kw_tokenize h :: rest)%list ∧
     deref h (VRef 1%positive)
       = Some (VDict (delete "parameters" request_no_inputs))) ∧
  (∀ kw ids seq more text,
     passed_kwargs request_no_inputs = Some kw →
     tok_call toy_tokenizer
       (<[1%positive := popped request_no_inputs]>
          (st_heap (state_with request_no_inputs)))
       (VRef 1%positive) kw_tokenize = Ok ids →
     mdl_generate toy_model ids kw = Ok (seq :: more) →
     tok_decode toy_tokenizer seq kw_decode = Ok text →
     r.1 = Ok (VList [VDict {["generated_text" := VStr text]}])).
Proof.
  apply (predict_fn_without_inputs toy_model toy_tokenizer
           (state_with request_no_inputs) 1%positive request_no_inputs);
    reflexivity.
Defined.

(** C8, as it is worded, fails on a request that has [parameters] but no
    [inputs]: the tokenizer is handed the request object, but what it finds
    there is [{"text": "hi"}], not the whole request. *)
Lemma predict_fn_tokenizer_sees_popped_request :
  ∃ h rest,
    st_calls (predict_fn 1%positive (toy_model, toy_tokenizer)
                (state_with request_no_inputs)).2
    = CTokenizer (VRef 1%positive) kw_tokenize h :: rest ∧
    deref h (VRef 1%positive) = Some (VDict {["text" := VStr "hi"]}) ∧
    deref h (VRef 1%positive) ≠ Some (VDict request_no_inputs).
Proof.
  eexists _, _. split; [reflexivity|]. split; [reflexivity|].
  intros Heq.
  apply (f_equal (λ v, match v with
                       | Some (VDict m) => m !! "parameters"
                       | _ => None
                       end)) in Heq.
  vm_compute in Heq. discriminate.
Qed.

(** C4, as the code has it.  [model_fn] loads the model from the directory it
    is given with [device_map="auto"] and [load_in_8bit=True], then the
    tokenizer from the same directory, and returns the two as a pair. *)
Theorem model_fn_loads_pair transformers model_dir σ model tokenizer :
  AutoModelForSeq2SeqLM_from_pretrained transformers model_dir kw_load
    = Ok model →
  AutoTokenizer_from_pretrained transformers model_dir ∅ = Ok tokenizer →
  model_fn transformers model_dir σ =
    (Ok (model, tokenizer),
     PState (st_heap σ)
            (st_calls σ ++ [CLoadModel model_dir kw_load;
                            CLoadTokenizer model_dir ∅])) ∧
  kw_load !! "load_in_8bit" = Some (VBool true) ∧
  kw_load !! "device_map" = Some (VStr "auto").
Proof.
  intros Hm Ht. split; [|done].
  unfold model_fn, mbind, M_bind, mret, M_ret, load_model, load_tokenizer.
  fold kw_load.
  cbn. rewrite Hm. cbn. rewrite Ht. by rewrite <- app_assoc.
Qed.

Lemma model_fn_loads_pair_witness :
  model_fn toy_transformers "/opt/ml/model" (PState ∅ []) =
    (Ok (toy_model, toy_tokenizer),
     PState ∅ ([] ++ [CLoadModel "/opt/ml/model" kw_load;
                      CLoadTokenizer "/opt/ml/model" ∅])) ∧
  kw_load !! "load_in_8bit" = Some (VBool true) ∧
  kw_load !! "device_map" = Some (VStr "auto").
Proof.
  apply (model_fn_loads_pair toy_transformers "/opt/ml/model" (PState ∅ [])
           toy_model toy_tokenizer); reflexivity.
Defined.

(** C4, as it is worded, fails: the quantization flag is not something a
    caller of [model_fn] can leave out or turn off.  No library, directory
    or heap makes [model_fn] load the model without [load_in_8bit=True]. *)
Lemma model_fn_always_8bit :
  ¬ ∃ transformers model_dir (h : heap) path kw,
      CLoadModel path kw
        ∈ st_calls (model_fn transformers model_dir (PState h [])).2 ∧
      kw !! "load_in_8bit" ≠ Some (VBool true).
Proof.
  intros (transformers & model_dir & h & path & kw & Hin & Hflag).
  apply Hflag. clear Hflag.
  unfold model_fn, mbind, M_bind, mret, M_ret, load_model, load_tokenizer in Hin.
  fold kw_load in Hin. cbn in Hin.
  destruct (AutoModelForSeq2SeqLM_from_pretrained _ _ _); cbn in Hin;
    [destruct (AutoTokenizer_from_pretrained _ _ _); cbn in Hin|];
    apply list_elem_of_In in Hin; simpl in Hin;
    repeat destruct Hin as [Hin|Hin]; try done; by simplify_eq.
Qed.

End InferenceFacts.

(** * Properties of the notebook *)

Module NotebookFacts.
Import Notebook.

(** One more call of a run is answered, by a value or by an exception. *)
Ltac answer h :=
  match goal with
  | |- context [h ?R ?c ?s] => destruct (h R c s) as [[?|?] ?]
  end.

(** ** Running composed programs *)

Lemma exec_bind {S A B} (h : handler S) (p : prog A) (f : A → prog B) s :
  exec h (bind p f) s =
    match exec h p s with
    | (Ok a, s1, t1) =>
        let '(res, s2, t2) := exec h (f a) s1 in (res, s2, (t1 ++ t2)%list)
    | (Raise e, s1, t1) => (Raise e, s1, t1)
    end.
Proof.
  revert s. induction p as [a|e|R c k IH]; intros s; simpl.
  - by destruct (exec h (f a) s) as [[res s2] t2].
  - done.
  - destruct (h R c s) as [r s1]. rewrite IH.
    destruct (exec h (k r) s1) as [[[a|e] s2] t1]; [|done].
    by destruct (exec h (f a) s2) as [[res s3] t2].
Qed.

Lemma exec_do {S R} (h : handler S) (c : call R) s :
  exec h (do c) s = ((h R c s).1, (h R c s).2, [Ev c (h R c s).1]).
Proof. unfold do. simpl. by destruct (h R c s) as [[x|e] s1]. Qed.

Lemma exec_with_exit {S A} (h : handler S) (body : prog A) on_return on_raise s :
  exec h (with_exit body on_return on_raise) s =
    match exec h body s with
    | (Ok a, s1, t1) =>
        match exec h on_return s1 with
        | (Ok _, s2, t2) => (Ok a, s2, (t1 ++ t2)%list)
        | (Raise e, s2, t2) => (Raise e, s2, (t1 ++ t2)%list)
        end
    | (Raise e, s1, t1) =>
        match exec h on_raise s1 with
        | (Ok _, s2, t2) => (Raise e, s2, (t1 ++ t2)%list)
        | (Raise e', s2, t2) => (Raise e', s2, (t1 ++ t2)%list)
        end
    end.
Proof.
  revert s. induction body as [a|e|R c k IH]; intros s; simpl.
  - rewrite exec_bind. simpl.
    destruct (exec h on_return s) as [[[[]|e] s2] t2]; simpl; by rewrite ?app_nil_r.
  - rewrite exec_bind. simpl.
    destruct (exec h on_raise s) as [[[[]|e'] s2] t2]; simpl; by rewrite ?app_nil_r.
  - destruct (h R c s) as [r s1]. rewrite IH.
    destruct (exec h (k r) s1) as [[[a|e] s2] t1].
    + by destruct (exec h on_return s2) as [[[[]|e] s3] t2].
    + by destruct (exec h on_raise s2) as [[[[]|e'] s3] t2].
Qed.

Lemma exec_try_except {S A} (h : handler S) (body : prog A) cls handler s :
  exec h (try_except body cls handler) s =
    match exec h body s with
    | (Ok a, s1, t1) => (Ok a, s1, t1)
    | (Raise e, s1, t1) =>
        if isinstance e cls
        then let '(res, s2, t2) := exec h handler s1 in (res, s2, (t1 ++ t2)%list)
        else (Raise e, s1, t1)
    end.
Proof.
  revert s. induction body as [a|e|R c k IH]; intros s; simpl.
  - done.
  - destruct (isinstance e cls); [|done].
    by destruct (exec h handler s) as [[res s2] t2].
  - destruct (h R c s) as [r s1]. rewrite IH.
    destruct (exec h (k r) s1) as [[[a|e] s2] t1]; [done|].
    destruct (isinstance e cls); [|done].
    by destruct (exec h handler s2) as [[res s3] t2].
Qed.

(** ** Calls a program can make *)

Section AllCalls.
Context (P : ∀ R, call R → Prop).

Lemma all_calls_bind {A B} (p : prog A) (f : A → prog B) :
  all_calls P p → (∀ a, all_calls P (f a)) → all_calls P (bind p f).
Proof.
  intros Hp Hf. induction p as [a|e|R c k IH]; simpl in *; [done..|].
  destruct Hp as [Hc Hk]. split; [done|]. intros r. by apply IH.
Qed.

Lemma all_calls_do {R} (c : call R) : P R c → all_calls P (do c).
Proof. intros Hc. split; [done|]. by intros [x|e]. Qed.

Lemma all_calls_lift {A} (r : result A) : all_calls P (lift r).
Proof. by destruct r. Qed.

Lemma all_calls_with_exit {A} (body : prog A) on_return on_raise :
  all_calls P body → all_calls P on_return → all_calls P on_raise →
  all_calls P (with_exit body on_return on_raise).
Proof.
  intros Hb Hr He. induction body as [a|e|R c k IH]; simpl in *.
  - by apply all_calls_bind.
  - by apply all_calls_bind.
  - destruct Hb as [Hc Hk]. split; [done|]. intros r. by apply IH.
Qed.

Lemma all_calls_try_except {A} (body : prog A) cls handler :
  all_calls P body → all_calls P handler →
  all_calls P (try_except body cls handler).
Proof.
  intros Hb Hh. induction body as [a|e|R c k IH]; simpl in *; [done| |].
  - by destruct (isinstance e cls).
  - destruct Hb as [Hc Hk]. split; [done|]. intros r. by apply IH.
Qed.

Lemma all_calls_for_each {A} (xs : list A) body :
  (∀ x, all_calls P (body x)) → all_calls P (for_each xs body).
Proof.
  intros Hb. induction xs as [|x xs IH]; simpl; [done|].
  by apply all_calls_bind.
Qed.

Lemma all_calls_subscript v key : all_calls P (subscript v key).
Proof. destruct v; simpl; try done. by destruct (_ !! _). Qed.

Lemma all_calls_trace {S A} (h : handler S) (p : prog A) s :
  all_calls P p →
  Forall (λ ev, match ev with Ev c _ => P _ c end) (trace (exec h p s)).
Proof.
  revert s. induction p as [a|e|R c k IH]; intros s Hp; simpl in *.
  - constructor.
  - constructor.
  - destruct Hp as [Hc Hk]. destruct (h R c s) as [r s1].
    specialize (IH r s1 (Hk r)).
    destruct (exec h (k r) s1) as [[res s2] t]. by constructor.
Qed.
End AllCalls.


(** ** The steps of a run *)

Ltac split_calls :=
  unfold mbind, prog_bind, mret, prog_ret;
  repeat first
    [ exact I
    | apply all_calls_bind
    | apply all_calls_with_exit
    | apply all_calls_try_except
    | apply all_calls_for_each
    | apply all_calls_subscript
    | apply all_calls_lift
    | apply all_calls_do
    | intros [? ?]
    | intro ];
  try (unfold in_step, in_no_step, not_role_call; simpl; tauto).

Lemma steps_cons {R} (c : call R) r tr :
  omap step_of_event (Ev c r :: tr) =
    match step_of_call c with
    | Some L => L :: omap step_of_event tr
    | None => omap step_of_event tr
    end.
Proof. done. Qed.

Lemma steps_none tr :
  Forall (λ ev, match ev with Ev c _ => in_no_step _ c end) tr →
  omap step_of_event tr = [].
Proof.
  induction 1 as [|[R c r] tr Hc _ IH]; [done|].
  unfold in_no_step in Hc. by rewrite steps_cons, Hc.
Qed.

Lemma steps_block L tr :
  Forall (λ ev, match ev with Ev c _ => in_step L _ c end) tr →
  Exists (λ ev, step_of_event ev = Some L) tr →
  ∃ n, omap step_of_event tr = L :: replicate n L.
Proof.
  intros Hall. induction Hall as [|[R c r] tr Hc Hall IH]; intros Hex.
  - by apply Exists_nil in Hex.
  - assert (Hrest : ∃ n, omap step_of_event tr = replicate n L).
    { clear -Hall. induction Hall as [|[R c r] tr Hc _ [n IH]].
      - by exists 0.
      - rewrite steps_cons. destruct Hc as [Hc|Hc]; rewrite Hc, IH;
          [by exists (S n) | by exists n]. }
    rewrite steps_cons. destruct Hc as [Hc|Hc]; rewrite Hc.
    + destruct Hrest as [n ->]. by exists n.
    + apply IH. apply Exists_cons in Hex as [Hex|Hex]; [|done].
      simpl in Hex. congruence.
Qed.

(** A program that begins with a call begins its trace with it. *)
Lemma trace_head {S A R} (h : handler S) (c : call R) (k : result R → prog A) s L :
  step_of_call c = Some L →
  Exists (λ ev, step_of_event ev = Some L) (trace (exec h (Vis c k) s)).
Proof.
  intros Hc. simpl. destruct (h R c s) as [r s1].
  destruct (exec h (k r) s1) as [[res s2] t]. by apply Exists_cons_hd.
Qed.

Lemma squash_cons_replicate x n l :
  squash (x :: replicate n x ++ l) = squash (x :: l).
Proof.
  induction n as [|n IH]; [done|].
  rewrite <- IH. simpl. by rewrite bool_decide_eq_true_2.
Qed.

Lemma squash_cons_ne x y l :
  x ≠ y → squash (x :: y :: l) = x :: squash (y :: l).
Proof. intros Hne. simpl. by rewrite bool_decide_eq_false_2. Qed.

Lemma squash_cons_eq x l : squash (x :: x :: l) = squash (x :: l).
Proof. simpl. by rewrite bool_decide_eq_true_2. Qed.

(** Each cell stays within its step. *)
Lemma cell_install_calls : all_calls in_no_step cell_install.
Proof. unfold cell_install. split_calls. Qed.

Lemma cell_credentials_calls : all_calls (in_step AcquireCredentials) cell_credentials.
Proof. unfold cell_credentials. split_calls. Qed.

Lemma cell_mkdir_code_calls : all_calls in_no_step cell_mkdir_code.
Proof. unfold cell_mkdir_code. split_calls. Qed.

Lemma cell_requirements_calls : all_calls (in_step WriteTextFiles) cell_requirements.
Proof. unfold cell_requirements. split_calls. Qed.

Lemma cell_inference_calls : all_calls (in_step WriteTextFiles) cell_inference.
Proof. unfold cell_inference. split_calls. Qed.

Lemma model_tar_dir_name :
  last_item (split_on "/" HF_MODEL_ID) = Ok "flan-t5-xxl-sharded-fp16".
Proof. reflexivity. Qed.

Lemma cell_download_calls : all_calls (in_step DownloadWeights) cell_download.
Proof.
  unfold cell_download, mbind, prog_bind. rewrite model_tar_dir_name.
  cbn [lift bind]. split_calls.
Qed.

Lemma cell_copy_code_calls :
  all_calls (in_step CopyHandlerFiles) (cell_copy_code "flan-t5-xxl-sharded-fp16").
Proof. unfold cell_copy_code. split_calls. Qed.

Lemma compress_calls tar_dir output_file :
  all_calls (in_step CompressArchive) (compress tar_dir output_file).
Proof. unfold compress. split_calls. Qed.

Lemma cell_upload_calls sess : all_calls (in_step UploadArchive) (cell_upload sess).
Proof. unfold cell_upload. split_calls. Qed.

Lemma cell_deploy_calls uri role : all_calls (in_step DeployModel) (cell_deploy uri role).
Proof. unfold cell_deploy. split_calls. Qed.

Lemma cell_predict_summarize_calls p :
  all_calls (in_step SendRequests) (cell_predict_summarize p).
Proof. unfold cell_predict_summarize. split_calls. Qed.

Lemma cell_predict_math_calls p :
  all_calls (in_step SendRequests) (cell_predict_math p).
Proof. unfold cell_predict_math. split_calls. Qed.

Lemma cell_delete_calls p : all_calls (in_step DeleteResources) (cell_delete p).
Proof. unfold cell_delete. split_calls. Qed.

(** The model directory is named after the last component of the model
    identifier. *)
Lemma cell_download_returns {S} (h : handler S) s m :
  outcome (exec h cell_download s) = Ok m → m = "flan-t5-xxl-sharded-fp16".
Proof.
  unfold cell_download, mbind, prog_bind, mret, prog_ret.
  rewrite model_tar_dir_name. unfold outcome. cbn.
  repeat (answer h; cbn); congruence.
Qed.



Lemma run_no_step {S A} (p : prog A) (h : handler S) s res s' t :
  exec h p s = (res, s', t) →
  all_calls in_no_step p →
  omap step_of_event t = [].
Proof.
  intros Hrun Hp. apply steps_none.
  pose proof (all_calls_trace _ h p s Hp) as Ht. by rewrite Hrun in Ht.
Qed.

Lemma run_block {S A} L (p : prog A) (h : handler S) s res s' t :
  exec h p s = (res, s', t) →
  all_calls (in_step L) p →
  begins_with L p →
  ∃ n, omap step_of_event t = L :: replicate n L.
Proof.
  intros Hrun Hp Hb. apply steps_block.
  - pose proof (all_calls_trace _ h p s Hp) as Ht. by rewrite Hrun in Ht.
  - destruct p as [a|e|R c k]; [done..|].
    pose proof (trace_head h c k s L Hb) as Ht. by rewrite Hrun in Ht.
Qed.

Lemma cell_download_returns' {S} (h : handler S) s m s' t :
  exec h cell_download s = (Ok m, s', t) → m = "flan-t5-xxl-sharded-fp16".
Proof.
  intros Hrun. apply (cell_download_returns h s). by rewrite Hrun.
Qed.

(** The upload cell first asks the session for its bucket; when the cell
    returns, the upload was made. *)
Lemma run_upload {S} (h : handler S) sess s uri s' t :
  exec h (cell_upload sess) s = (Ok uri, s', t) →
  ∃ n, omap step_of_event t = UploadArchive :: replicate n UploadArchive.
Proof.
  intros Hrun. apply steps_block.
  - pose proof (all_calls_trace _ h _ s (cell_upload_calls sess)) as Ht.
    by rewrite Hrun in Ht.
  - revert Hrun. unfold cell_upload, mbind, prog_bind, mret, prog_ret. cbn.
    repeat (answer h; cbn); intros Hrun; simplify_eq.
    apply Exists_cons_tl, Exists_cons_hd. done.
Qed.


(** The next cell of the notebook runs; if it raises, the run is over. *)
Ltac next_cell h E :=
  rewrite exec_bind;
  match goal with
  | |- context [exec h ?p ?s] =>
      destruct (exec h p s) as [[[?|?] ?] ?] eqn:E; [cbv beta iota|done]
  end.


(** ** Exceptions *)

#[local] Arguments uncaught : simpl never.

Lemma uncaught_app t1 t2 : uncaught (t1 ++ t2) = (uncaught t1 ++ uncaught t2)%list.
Proof. apply omap_app. Qed.

Lemma propagates_pure {S A} (h : handler S) (p : prog A) :
  match p with Vis _ _ => False | _ => True end → propagates h p.
Proof. destruct p; [| |done]; intros _ s; simpl; by split. Qed.

Lemma propagates_lift {S A} (h : handler S) (r : result A) :
  propagates h (lift r).
Proof. apply propagates_pure. by destruct r. Qed.

Lemma propagates_subscript {S} (h : handler S) v key :
  propagates h (subscript v key).
Proof.
  apply propagates_pure. destruct v; simpl; try done. by destruct (_ !! _).
Qed.

Lemma uncaught_one {R} (c : call R) r :
  uncaught [Ev c r] =
    match r with
    | Raise e =>
        if is_get_execution_role c && isinstance e "ValueError" then []
        else [e]
    | Ok _ => []
    end.
Proof. destruct r as [a|e]; [done|]. unfold uncaught. cbn. by destruct (_ && _). Qed.

Lemma propagates_do {S R} (h : handler S) (c : call R) : propagates h (do c).
Proof.
  intros s. rewrite exec_do. cbn. rewrite uncaught_one.
  destruct (h R c s) as [[a|e] s1]; cbn; [done|].
  split; [done|]. destruct (_ && _); cbn; congruence.
Qed.

Lemma propagates_bind {S A B} (h : handler S) (p : prog A) (f : A → prog B) :
  propagates h p → (∀ a, propagates h (f a)) → propagates h (bind p f).
Proof.
  intros Hp Hf s. rewrite exec_bind. specialize (Hp s).
  destruct (exec h p s) as [[[a|e] s1] t1]; cbn in *.
  2: { split; [done|]. intros e0 He0. apply Hp in He0. congruence. }
  destruct Hp as [Hp _]. specialize (Hp eq_refl).
  specialize (Hf a s1). destruct (exec h (f a) s1) as [[res s2] t2].
  cbn in *. by rewrite uncaught_app, Hp.
Qed.

Lemma propagates_for_each {S A} (h : handler S) (xs : list A) body :
  (∀ x, propagates h (body x)) → propagates h (for_each xs body).
Proof.
  intros Hb. induction xs as [|x xs IH]; simpl.
  - by apply propagates_pure.
  - by apply propagates_bind.
Qed.

(** The context managers of the notebook leave through a call that is not
    the look-up of the role. *)
Lemma propagates_with_exit {S A} (h : handler S) (body : prog A)
    (c1 c2 : call unit) :
  is_get_execution_role c1 = false →
  is_get_execution_role c2 = false →
  propagates h body →
  propagates h (with_exit body (do c1) (do c2)).
Proof.
  intros Hc1 Hc2 Hb s. rewrite exec_with_exit. specialize (Hb s).
  destruct (exec h body s) as [[[a|e] s1] t1];
    rewrite exec_do; cbn in *; destruct Hb as [Hb1 Hb2].
  - specialize (Hb1 eq_refl).
    destruct (h _ c1 s1) as [[[]|e] s2]; cbn;
      rewrite uncaught_app, Hb1, uncaught_one, ?Hc1; cbn; [done|].
    split; [done|]. congruence.
  - destruct (h _ c2 s1) as [[[]|e'] s2]; cbn;
      rewrite uncaught_app, uncaught_one, ?Hc2; cbn.
    + by rewrite app_nil_r.
    + split; [done|]. intros e0. rewrite last_snoc. congruence.
Qed.

(** The one handler of the notebook catches what [uncaught] leaves out. *)
Lemma propagates_try_role {S} (h : handler S) (handler : prog value) :
  propagates h handler →
  propagates h (try_except (bind (do GetExecutionRole) (λ r, Ret (VStr r)))
                           "ValueError" handler).
Proof.
  intros Hh s. cbn.
  destruct (h _ GetExecutionRole s) as [[r|e] s1]; cbn; [done|].
  destruct (isinstance e "ValueError") eqn:He; cbn.
  - specialize (Hh s1). destruct (exec h handler s1) as [[res s2] t2].
    cbn in *. change (?x :: t2) with ([x] ++ t2)%list.
    rewrite uncaught_app, uncaught_one. cbn. by rewrite He.
  - rewrite uncaught_one. cbn. rewrite He. split; [done|]. cbn. congruence.
Qed.

Ltac split_propagates :=
  unfold mbind, prog_bind, mret, prog_ret;
  repeat first
    [ apply propagates_try_role
    | apply propagates_bind
    | apply propagates_with_exit
    | apply propagates_for_each
    | apply propagates_subscript
    | apply propagates_lift
    | apply propagates_do
    | (apply propagates_pure; exact I)
    | reflexivity
    | intros [? ?]
    | intro ].

Lemma compress_propagates {S} (h : handler S) tar_dir output_file :
  propagates h (compress tar_dir output_file).
Proof. unfold compress. split_propagates. Qed.

Lemma notebook_propagates {S} (h : handler S) : propagates h notebook.
Proof.
  unfold notebook, cell_install, cell_credentials, cell_mkdir_code,
    cell_requirements, cell_inference, cell_download, cell_copy_code,
    cell_compress, cell_upload, cell_deploy, cell_predict_summarize,
    cell_predict_math, cell_delete.
  split_propagates; apply compress_propagates.
Qed.

(** ** The fallback for the execution role *)

Lemma quiet_trace tr :
  Forall (λ ev, match ev with Ev c _ => not_role_call _ c end) tr →
  fallback_taken tr = false ∧ omap role_error_of tr = [].
Proof.
  induction 1 as [|[R c r] tr Hc _ [IH1 IH2]]; [done|].
  split.
  - unfold fallback_taken in *. cbn [existsb]. rewrite IH1.
    by destruct c.
  - change (Ev c r :: tr) with ([Ev c r] ++ tr)%list.
    rewrite omap_app, IH2. by destruct c.
Qed.

Lemma run_quiet {S A} (p : prog A) (h : handler S) s res s' t :
  exec h p s = (res, s', t) →
  all_calls not_role_call p →
  fallback_taken t = false ∧ omap role_error_of t = [].
Proof.
  intros Hrun Hp. apply quiet_trace.
  pose proof (all_calls_trace _ h p s Hp) as Ht. by rewrite Hrun in Ht.
Qed.

(** In the credentials cell the IAM client is asked for exactly when
    [get_execution_role] raised an instance of [ValueError]. *)
Lemma credentials_fallback {S} (h : handler S) s :
  let t := trace (exec h cell_credentials s) in
  fallback_taken t = true ↔
  ∃ e, execution_role_error t = Some e ∧ isinstance e "ValueError" = true.
Proof.
  unfold cell_credentials, mbind, prog_bind, mret, prog_ret,
    fallback_taken, execution_role_error.
  cbn.
  repeat (first [ answer h
                | match goal with
                  | |- context [isinstance ?e ?c] =>
                      destruct (isinstance e c) eqn:?
                  | |- context [subscript ?v ?k] =>
                      let p := fresh "p" in
                      let Hp := fresh "Hp" in
                      pose proof (all_calls_subscript (λ _ _, False) v k) as Hp;
                      destruct (subscript v k) as [?|?|? ? ?]; [| |destruct Hp as [[] _]]
                  end ]; cbn);
    naive_solver.
Qed.

Lemma cell_install_quiet : all_calls not_role_call cell_install.
Proof. unfold cell_install. split_calls. Qed.

Lemma after_credentials_calls sess role :
  all_calls not_role_call
    (_ ← cell_mkdir_code;
     _ ← cell_requirements;
     _ ← cell_inference;
     model_tar_dir ← cell_download;
     _ ← cell_copy_code model_tar_dir;
     _ ← cell_compress model_tar_dir;
     s3_model_uri ← cell_upload sess;
     predictor ← cell_deploy s3_model_uri role;
     _ ← cell_predict_summarize predictor;
     _ ← cell_predict_math predictor;
     cell_delete predictor).
Proof.
  unfold cell_mkdir_code, cell_requirements, cell_inference, cell_download,
    cell_copy_code, cell_compress, compress, cell_upload, cell_deploy,
    cell_predict_summarize, cell_predict_math, cell_delete.
  split_calls.
Qed.

(** In any run of the notebook the IAM client is asked for exactly when
    [sagemaker.get_execution_role()] raised an instance of [ValueError]. *)
Lemma notebook_fallback_trigger {S} (h : handler S) s :
  let x := exec h notebook s in
  fallback_taken (trace x) = true ↔
  ∃ e, execution_role_error (trace x) = Some e ∧
       isinstance e "ValueError" = true.
Proof.
  cbv zeta.
  unfold notebook, mbind, prog_bind.
  rewrite exec_bind.
  destruct (exec h cell_install s) as [[r1 s1] t1] eqn:E1.
  destruct (run_quiet _ _ _ _ _ _ E1 cell_install_quiet) as [F1 R1].
  destruct r1 as [a1|e1]; cbn [trace snd].
  2: { unfold execution_role_error. rewrite F1, R1. naive_solver. }
  rewrite exec_bind.
  pose proof (credentials_fallback h s1) as Hc. cbv zeta in Hc.
  destruct (exec h cell_credentials s1) as [[r2 s2] t2] eqn:E2.
  cbn [trace snd] in Hc.
  assert (Hgoal : ∀ t3, fallback_taken t3 = false → omap role_error_of t3 = [] →
            fallback_taken (t1 ++ t2 ++ t3) = true ↔
            ∃ e, execution_role_error (t1 ++ t2 ++ t3) = Some e ∧
                 isinstance e "ValueError" = true).
  { intros t3 F3 R3. unfold fallback_taken, execution_role_error in *.
    rewrite !existsb_app, !omap_app, F1, R1, F3, R3, app_nil_r, orb_false_r.
    exact Hc. }
  destruct r2 as [[sess role]|e2]; cbn [trace snd].
  - destruct (exec h _ s2) as [[r3 s3] t3] eqn:E3. cbn [trace snd].
    destruct (run_quiet _ _ _ _ _ _ E3 (after_credentials_calls sess role)).
    by apply Hgoal.
  - specialize (Hgoal [] eq_refl eq_refl). by rewrite app_nil_r in Hgoal.
Qed.

(** ** Paths *)

Lemma valid_name_spec s :
  valid_name s = true ↔ s ≠ "" ∧ s ≠ "." ∧ s ≠ ".." ∧ no_sep s = true.
Proof.
  unfold valid_name. rewrite !andb_true_iff, !negb_true_iff, !bool_decide_eq_false.
  tauto.
Qed.

Lemma split_on_cons c s :
  split_on "/" (String c s) =
    if bool_decide (c = "/"%char) then "" :: split_on "/" s
    else match split_on "/" s with
         | w :: ws => String c w :: ws
         | [] => [String c ""]
         end.
Proof. done. Qed.

Lemma split_on_no_sep s : Forall (λ w, no_sep w = true) (split_on "/" s).
Proof.
  induction s as [|c s IH]; [by repeat constructor|].
  rewrite split_on_cons. case_bool_decide as Hc.
  - by constructor.
  - destruct (split_on "/" s) as [|w ws].
    + repeat constructor. simpl. by rewrite bool_decide_eq_false_2.
    + inversion IH; subst. constructor; [|done].
      simpl. by rewrite bool_decide_eq_false_2.
Qed.

(** A name without a separator is one component. *)
Lemma split_on_name f : no_sep f = true → split_on "/" f = [f].
Proof.
  induction f as [|c f IH]; [done|]. simpl no_sep.
  rewrite andb_true_iff, negb_true_iff, bool_decide_eq_false.
  intros [Hc Hf]. rewrite split_on_cons, bool_decide_eq_false_2 by done.
  by rewrite IH.
Qed.

Lemma split_on_name_sep f rest :
  no_sep f = true →
  split_on "/" (f ++ String "/" rest) = f :: split_on "/" rest.
Proof.
  induction f as [|c f IH]; [done|]. simpl no_sep.
  rewrite andb_true_iff, negb_true_iff, bool_decide_eq_false.
  intros [Hc Hf].
  change (String c f ++ String "/" rest) with (String c (f ++ String "/" rest)).
  rewrite split_on_cons, bool_decide_eq_false_2 by done.
  by rewrite IH.
Qed.

Lemma split_on_concat p :
  p ≠ [] → forallb valid_name p = true →
  split_on "/" (String.concat "/" p) = p.
Proof.
  induction p as [|f p IH]; [done|]. intros _. simpl forallb.
  rewrite andb_true_iff, valid_name_spec. intros [(_ & _ & _ & Hf) Hp].
  destruct p as [|g p].
  - by apply split_on_name.
  - change (String.concat "/" (f :: g :: p))
      with (f ++ String "/" (String.concat "/" (g :: p))).
    rewrite split_on_name_sep by done. f_equal. by apply IH.
Qed.

Lemma foldl_step_valid acc p :
  forallb valid_name p = true → foldl step_component acc p = (acc ++ p)%list.
Proof.
  revert acc. induction p as [|f p IH]; intros acc; simpl.
  - by rewrite app_nil_r.
  - rewrite andb_true_iff, valid_name_spec. intros [(H1 & H2 & H3 & _) Hp].
    rewrite IH by done. unfold step_component.
    rewrite !bool_decide_eq_false_2 by done. simpl.
    by rewrite <- app_assoc.
Qed.

(** Changing to the path that [os.getcwd] gave leads back to that
    directory. *)
Lemma resolve_abs_string cwd p :
  forallb valid_name p = true → resolve cwd (abs_string p) = p.
Proof.
  intros Hp. unfold resolve, abs_string.
  change ("/" ++ String.concat "/" p) with (String "/" (String.concat "/" p)).
  rewrite split_on_cons. cbn [starts_with_sep].
  rewrite !bool_decide_eq_true_2 by done.
  change (foldl step_component [] ("" :: ?l)) with (foldl step_component [] l).
  destruct p as [|f p]; [done|].
  rewrite split_on_concat by done. by rewrite foldl_step_valid.
Qed.

Lemma resolve_valid cwd path :
  forallb valid_name cwd = true →
  forallb valid_name (resolve cwd path) = true.
Proof.
  intros Hcwd. unfold resolve.
  assert (Hstart : forallb valid_name (if starts_with_sep path then [] else cwd) = true)
    by by destruct (starts_with_sep path).
  revert Hstart. generalize (if starts_with_sep path then [] else cwd).
  pose proof (split_on_no_sep path) as Hs. revert Hs.
  generalize (split_on "/" path). intros cs Hcs.
  induction Hcs as [|c cs Hc _ IH]; intros acc Hacc; simpl; [done|].
  apply IH. unfold step_component.
  repeat case_bool_decide; simpl; try done.
  - rewrite forallb_forall in *. intros x Hx. apply Hacc.
    destruct acc as [|a acc] using rev_ind; [done|].
    rewrite removelast_last in Hx. apply in_or_app. by left.
  - rewrite forallb_app, Hacc. simpl. rewrite andb_true_r.
    apply valid_name_spec. done.
Qed.

(** ** The walk along a path *)

Lemma walk_failed root cs : foldl (walk_step root) None cs = None.
Proof. by induction cs. Qed.

Lemma walk_absolute root c1 c2 path :
  starts_with_sep path = true → walk root c1 path = walk root c2 path.
Proof. intros Hp. unfold walk. by rewrite Hp. Qed.

(** Where the walk succeeds, it ends where the lexical resolution ends. *)
Lemma walk_resolve root cwd p q :
  walk root cwd p = Some q → q = resolve cwd p.
Proof.
  unfold walk, resolve.
  generalize (if starts_with_sep p then [] else cwd).
  generalize (split_on "/" p). intros cs.
  induction cs as [|c cs IH]; intros acc; simpl.
  - by intros [= <-].
  - destruct (lookup_node root acc) as [[c0|ch]|]; [|apply IH|];
      by rewrite walk_failed.
Qed.

(** ** The working directory *)

Lemma chdir_back (σ : fs) p :
  forallb valid_name p = true →
  let x := fs_handler _ (OsChdir (Some (abs_string p))) σ in
  x.1 = Ok tt → fs_cwd x.2 = p.
Proof.
  intros Hp. cbn. unfold find_dir.
  rewrite bool_decide_eq_false_2 by done.
  destruct (walk _ _ _) as [q|] eqn:Hw; [|done].
  apply walk_resolve in Hw. rewrite resolve_abs_string in Hw by done. subst q.
  by destruct (lookup_node (fs_root σ) p) as [[c|ch]|].
Qed.

(** C10. When [compress] returns, the working directory is the one it was
    called in.  When it raises, it may be left in the target directory: so
    it is when the archive cannot be created. *)
Theorem compress_restores_cwd :
  (∀ σ tar_dir output_file,
     wf_fs σ = true →
     outcome (exec fs_handler (compress tar_dir output_file) σ) = Ok tt →
     fs_cwd (final (exec fs_handler (compress tar_dir output_file) σ))
     = fs_cwd σ) ∧
  (∃ σ tar_dir output_file,
     wf_fs σ = true ∧
     is_ok (outcome (exec fs_handler (compress tar_dir output_file) σ)) = false ∧
     fs_cwd (final (exec fs_handler (compress tar_dir output_file) σ))
     ≠ fs_cwd σ).
Proof.
  split.
  - intros σ tar_dir output_file Hwf.
    apply andb_true_iff in Hwf as [_ Hcwd].
    unfold compress, mbind, prog_bind.
    rewrite exec_bind, exec_do. cbn [fs_handler fst snd].
    rewrite exec_bind.
    destruct (exec fs_handler (do (OsChdir tar_dir)) σ) as [[[[]|e] s1] t1];
      [|done].
    rewrite exec_bind.
    destruct (exec fs_handler (do (TarfileOpen _ _)) s1) as [[[tar|e] s2] t2];
      [|done].
    rewrite exec_bind.
    destruct (exec fs_handler (with_exit _ _ _) s2) as [[[[]|e] s3] t3];
      [|done].
    rewrite exec_do.
    pose proof (chdir_back s3 (fs_cwd σ) Hcwd) as Hback. cbv zeta in Hback.
    destruct (fs_handler _ (OsChdir (Some (abs_string (fs_cwd σ)))) s3)
      as [[[]|e] s4]; [|done].
    intros _. by apply Hback.
  - exists sample_fs, (Some "flan-t5-xxl-sharded-fp16"), "missing/model.tar.gz".
    split; [reflexivity|]. split; [reflexivity|]. by vm_compute.
Qed.

Lemma compress_restores_cwd_witness :
  fs_cwd (final (exec fs_handler
                   (compress (Some "flan-t5-xxl-sharded-fp16") "model.tar.gz")
                   sample_fs))
  = fs_cwd sample_fs.
Proof.
  apply (proj1 compress_restores_cwd sample_fs
           (Some "flan-t5-xxl-sharded-fp16") "model.tar.gz");
    reflexivity.
Defined.

(** ** The directory tree *)

Lemma node_induction (P : node → Prop) :
  (∀ c, P (File c)) →
  (∀ ch, Forall (λ x, P x.2) ch → P (Dir ch)) →
  ∀ n, P n.
Proof.
  intros HF HD. fix IH 1. intros [c|ch]; [apply HF|].
  apply HD. induction ch as [|[f c] ch IHch]; constructor; [apply IH|done].
Qed.

Lemma wf_node_dir ch :
  wf_node (Dir ch) = forallb (λ x, valid_name x.1 && wf_node x.2) ch.
Proof.
  induction ch as [|[f c] ch IH]; [done|].
  simpl in *. by rewrite IH.
Qed.

Lemma assoc_Some {A} name (l : list (string * A)) x :
  assoc name l = Some x → (name, x) ∈ l.
Proof.
  induction l as [|[k v] l IH]; simpl; [done|].
  case_bool_decide; intros ?; simplify_eq; [left|right; auto].
Qed.

Lemma assoc_set_eq {A} name (x : A) l : assoc name (assoc_set name x l) = Some x.
Proof.
  induction l as [|[k v] l IH]; simpl.
  - by rewrite bool_decide_eq_true_2.
  - case_bool_decide as Hk; simpl.
    + by rewrite bool_decide_eq_true_2.
    + by rewrite bool_decide_eq_false_2.
Qed.

Lemma assoc_set_ne {A} name k (x : A) l :
  k ≠ name → assoc k (assoc_set name x l) = assoc k l.
Proof.
  intros Hne. induction l as [|[k' v] l IH]; simpl.
  - by rewrite bool_decide_eq_false_2.
  - case_bool_decide as Hk; simpl.
    + subst. by rewrite !bool_decide_eq_false_2 by done.
    + by rewrite IH.
Qed.

Lemma assoc_set_names {A} name (x y : A) l :
  assoc name l = Some y → map fst (assoc_set name x l) = map fst l.
Proof.
  induction l as [|[k v] l IH]; simpl; [done|].
  case_bool_decide; simpl; [done|]. intros ?. by rewrite IH.
Qed.

Lemma wf_assoc ch f n :
  wf_node (Dir ch) = true → assoc f ch = Some n → wf_node n = true.
Proof.
  rewrite wf_node_dir, forallb_forall. intros Hwf Hf.
  apply assoc_Some, list_elem_of_In, Hwf in Hf.
  by apply andb_true_iff in Hf as [_ ?].
Qed.

Lemma wf_names ch f :
  wf_node (Dir ch) = true → f ∈ map fst ch → valid_name f = true.
Proof.
  rewrite wf_node_dir, forallb_forall. intros Hwf Hf.
  apply list_elem_of_fmap in Hf as ([f' n] & -> & Hin).
  apply list_elem_of_In, Hwf in Hin.
  by apply andb_true_iff in Hin as [? _].
Qed.

Lemma wf_assoc_set ch f n :
  wf_node (Dir ch) = true → valid_name f = true → wf_node n = true →
  wf_node (Dir (assoc_set f n ch)) = true.
Proof.
  rewrite !wf_node_dir. intros Hwf Hf Hn.
  induction ch as [|[k v] ch IH]; simpl in *.
  - by rewrite Hf, Hn.
  - apply andb_true_iff in Hwf as [Hkv Hch].
    apply andb_true_iff in Hkv as [Hk Hv].
    case_bool_decide; simpl.
    + by rewrite Hk, Hn, Hch.
    + by rewrite Hk, Hv, IH.
Qed.

Lemma wf_lookup r q n :
  wf_node r = true → lookup_node r q = Some n → wf_node n = true.
Proof.
  revert r. induction q as [|f q IH]; intros r Hwf; simpl.
  - congruence.
  - destruct r as [c|ch]; [done|].
    destruct (assoc f ch) as [sub|] eqn:Hf; [|done].
    apply IH. by eapply wf_assoc.
Qed.

(** What [put_file] gives can be read back. *)
Lemma put_file_lookup p c r r' :
  put_file p c r = Some r' → lookup_node r' p = Some (File c).
Proof.
  revert r r'. induction p as [|f p IH]; intros r r'; [done|].
  destruct r as [c0|ch]; [by destruct p|].
  destruct p as [|g p].
  - simpl. destruct (assoc f ch) as [[c0|ch0]|]; intros; simplify_eq;
      by rewrite assoc_set_eq.
  - change (put_file (f :: g :: p) c (Dir ch)) with
      (match assoc f ch with
       | Some sub =>
           match put_file (g :: p) c sub with
           | Some sub' => Some (Dir (assoc_set f sub' ch))
           | None => None
           end
       | None => None
       end).
    destruct (assoc f ch) as [sub|]; [|done].
    destruct (put_file (g :: p) c sub) as [sub'|] eqn:Hput; [|done].
    intros ?; simplify_eq.
    change (lookup_node (Dir (assoc_set f sub' ch)) (f :: g :: p)) with
      (match assoc f (assoc_set f sub' ch) with
       | Some sub => lookup_node sub (g :: p)
       | None => None
       end).
    rewrite assoc_set_eq. by eapply IH.
Qed.

Lemma put_file_wf p c r r' :
  wf_node r = true → forallb valid_name p = true →
  put_file p c r = Some r' → wf_node r' = true.
Proof.
  revert r r'. induction p as [|f p IH]; intros r r' Hwf Hp; [done|].
  simpl in Hp. apply andb_true_iff in Hp as [Hf Hp].
  destruct r as [c0|ch]; [by destruct p|].
  destruct p as [|g p].
  - simpl. destruct (assoc f ch) as [[c0|ch0]|]; intros; simplify_eq;
      by apply wf_assoc_set.
  - change (put_file (f :: g :: p) c (Dir ch)) with
      (match assoc f ch with
       | Some sub =>
           match put_file (g :: p) c sub with
           | Some sub' => Some (Dir (assoc_set f sub' ch))
           | None => None
           end
       | None => None
       end).
    destruct (assoc f ch) as [sub|] eqn:Hsub; [|done].
    destruct (put_file (g :: p) c sub) as [sub'|] eqn:Hput; [|done].
    intros ?; simplify_eq. apply wf_assoc_set; [done..|].
    eapply IH; [|done..]. by eapply wf_assoc.
Qed.

(** Replacing a file that is there leaves every directory with the names it
    had. *)
Lemma put_file_dirs p c c0 r r' q ch :
  put_file p c r = Some r' →
  lookup_node r p = Some (File c0) →
  lookup_node r q = Some (Dir ch) →
  ∃ ch', lookup_node r' q = Some (Dir ch') ∧ map fst ch' = map fst ch.
Proof.
  revert r r' q ch. induction p as [|f p IH]; intros r r' q ch; [done|].
  destruct r as [c1|chr]; [by destruct p|].
  destruct p as [|g p].
  - simpl. destruct (assoc f chr) as [[c1|ch1]|] eqn:Hf; try done.
    intros ? _ Hq; simplify_eq.
    destruct q as [|k q]; simpl in *.
    + simplify_eq. eexists. split; [done|]. by eapply assoc_set_names.
    + destruct (decide (k = f)) as [->|Hne].
      * rewrite Hf in Hq. rewrite assoc_set_eq. by destruct q.
      * rewrite assoc_set_ne by done. eauto.
  - change (put_file (f :: g :: p) c (Dir chr)) with
      (match assoc f chr with
       | Some sub =>
           match put_file (g :: p) c sub with
           | Some sub' => Some (Dir (assoc_set f sub' chr))
           | None => None
           end
       | None => None
       end).
    change (lookup_node (Dir chr) (f :: g :: p)) with
      (match assoc f chr with
       | Some sub => lookup_node sub (g :: p)
       | None => None
       end).
    destruct (assoc f chr) as [sub|] eqn:Hf; [|done].
    destruct (put_file (g :: p) c sub) as [sub'|] eqn:Hput; [|done].
    intros ? Hfile Hq; simplify_eq.
    destruct q as [|k q]; simpl in *.
    + simplify_eq. eexists. split; [done|]. by eapply assoc_set_names.
    + destruct (decide (k = f)) as [->|Hne].
      * rewrite Hf in Hq. rewrite assoc_set_eq. by eapply IH.
      * rewrite assoc_set_ne by done. eauto.
Qed.

(** ** Members of an archive *)

Lemma add_node_dir self abs arcname ch :
  add_node self abs arcname (Dir ch) =
    if bool_decide (abs = self) then []
    else (lstrip_sep arcname, None) ::
         concat (map snd (sort_by_name
           (map (λ x, (x.1, add_node self (abs ++ [x.1]) (path_join arcname x.1) x.2))
                ch))).
Proof.
  simpl. case_bool_decide; [done|]. do 4 f_equal.
  induction ch as [|[f c] ch IH]; [done|]. simpl. by rewrite IH.
Qed.

Lemma insert_by_name_In {A} (x y : string * A) l :
  In y (insert_by_name x l) → y = x ∨ In y l.
Proof.
  induction l as [|z l IH]; simpl.
  - intros [->|[]]. by left.
  - destruct (String.leb x.1 z.1); simpl.
    + intros [->|[->|Hy]]; auto.
    + intros [->|Hy]; [auto|]. destruct (IH Hy); auto.
Qed.

Lemma sort_by_name_In {A} (y : string * A) l :
  In y (sort_by_name l) → In y l.
Proof.
  induction l as [|x l IH]; simpl; [done|].
  intros Hy. apply insert_by_name_In in Hy as [->|Hy]; auto.
Qed.

Lemma no_sep_starts f : no_sep f = true → starts_with_sep f = false.
Proof.
  destruct f as [|c f]; [done|]. simpl.
  rewrite andb_true_iff, negb_true_iff. by intros [-> _].
Qed.

Lemma no_sep_ends f : no_sep f = true → ends_with_sep f = false.
Proof.
  induction f as [|c f IH]; [done|]. simpl.
  rewrite andb_true_iff, negb_true_iff. intros [Hc Hf].
  destruct f; [done|]. by apply IH.
Qed.

Lemma ends_with_sep_app a b : b ≠ "" → ends_with_sep (a ++ b) = ends_with_sep b.
Proof.
  intros Hb. induction a as [|c a IH]; [done|].
  change (String c a ++ b) with (String c (a ++ b)).
  simpl. destruct (a ++ b) eqn:Hab; [|done].
  destruct a; simpl in Hab; [done|discriminate].
Qed.

Lemma lstrip_sep_id a : starts_with_sep a = false → lstrip_sep a = a.
Proof. destruct a as [|c a]; [done|]. simpl. by intros ->. Qed.

Lemma valid_name_plain f : valid_name f = true → plain_name f.
Proof.
  rewrite valid_name_spec. intros (? & _ & _ & Hf).
  split_and!; [done|by apply no_sep_starts|by apply no_sep_ends].
Qed.

Lemma path_join_plain a f :
  plain_name a → valid_name f = true →
  path_join a f = a ++ String "/" f ∧ plain_name (a ++ String "/" f).
Proof.
  intros (Ha & Hs & He) Hf. pose proof (valid_name_plain f Hf) as (Hf0 & Hfs & Hfe).
  split.
  - unfold path_join. rewrite Hfs, He, bool_decide_eq_false_2 by done. done.
  - split_and!.
    + by destruct a.
    + by destruct a.
    + rewrite ends_with_sep_app by done.
      destruct f as [|c f]; [done|]. exact Hfe.
Qed.

Lemma rooted_at_refl a : rooted_at a a.
Proof.
  exists "". split; [|by left]. induction a as [|c a IH]; [done|].
  change (String c a ++ "") with (String c (a ++ "")). by rewrite <- IH.
Qed.

Lemma rooted_at_join a f name :
  rooted_at (a ++ String "/" f) name → rooted_at a name.
Proof.
  intros (rest & -> & _). exists (String "/" f ++ rest). split; [|by right].
  induction a as [|c a IH]; [done|].
  change (String c a ++ String "/" f) with (String c (a ++ String "/" f)).
  change (String c a ++ (String "/" f ++ rest))
    with (String c (a ++ (String "/" f ++ rest))).
  change (String c (a ++ String "/" f) ++ rest)
    with (String c ((a ++ String "/" f) ++ rest)).
  by rewrite IH.
Qed.

(** Every member that [tar.add(name, arcname)] makes is named [arcname] or
    lies under it. *)
Lemma add_node_rooted self n :
  ∀ abs arcname (m : member),
    wf_node n = true → plain_name arcname →
    m ∈ add_node self abs arcname n → rooted_at arcname m.1.
Proof.
  induction n as [c|ch IH] using node_induction; intros abs arcname m Hwf Ha.
  - simpl. case_bool_decide; [by intros ?%elem_of_nil|].
    intros ->%list_elem_of_singleton. simpl.
    rewrite lstrip_sep_id by apply Ha. apply rooted_at_refl.
  - rewrite add_node_dir. case_bool_decide; [by intros ?%elem_of_nil|].
    intros [->|Hm]%elem_of_cons.
    + simpl. rewrite lstrip_sep_id by apply Ha. apply rooted_at_refl.
    + apply list_elem_of_In, in_concat in Hm as (ms & Hms & Hm).
      apply in_map_iff in Hms as ([f ms'] & <- & Hms).
      apply sort_by_name_In, in_map_iff in Hms as ([f' c] & Heq & Hin).
      simpl in Heq. injection Heq as <- <-. simpl in Hm.
      rewrite wf_node_dir, forallb_forall in Hwf.
      pose proof (Hwf _ Hin) as Hfc.
      simpl in Hfc. apply andb_true_iff in Hfc as [Hf Hc].
      destruct (path_join_plain arcname f' Ha Hf) as [Hjoin Hplain].
      rewrite Hjoin in Hm.
      rewrite Forall_forall in IH.
      specialize (IH _ (proj2 (list_elem_of_In _ _) Hin)). simpl in IH.
      apply (rooted_at_join arcname f'). eapply IH; [done..|].
      by apply list_elem_of_In.
Qed.

Lemma add_node_top self abs arcname n :
  abs ≠ self → ∃ d, (lstrip_sep arcname, d) ∈ add_node self abs arcname n.
Proof.
  intros Hne. destruct n as [c|ch].
  - simpl. rewrite bool_decide_eq_false_2 by done. eexists. by left.
  - rewrite add_node_dir, bool_decide_eq_false_2 by done. eexists. by left.
Qed.

(** ** The archive that [compress] writes *)

(** The loop of [compress]: every entry is added under its own name, and
    the members it gives are appended to those of the open archive. *)
Lemma add_loop items : ∀ σ t ot,
  fs_tars σ !! t = Some ot →
  let x := exec fs_handler
             (for_each items (λ item,
                bind (do (Print [VStr item])) (λ _, do (TarAdd t item item))))
             σ in
  outcome x = Ok tt →
  ∃ mss out,
    final x = Fs (fs_root σ) (fs_cwd σ)
                 (<[t := OpenTar (tar_path ot) (tar_compression ot)
                                 (tar_members ot ++ concat mss)]> (fs_tars σ))
                 (fs_next σ) out ∧
    Forall2 (λ item ms,
               ∃ n, lookup_node (fs_root σ) (resolve (fs_cwd σ) item) = Some n ∧
                    ms = add_node (tar_path ot) (resolve (fs_cwd σ) item) item n)
            items mss ∧
    tar_adds (trace x) = map (λ item, (t, item, item)) items ∧
    listings (trace x) = [].
Proof.
  induction items as [|item items IH]; intros σ t ot Ht; cbv zeta.
  - intros _. exists [], (fs_stdout σ). split_and!; try done.
    destruct σ, ot; cbn in *. by rewrite app_nil_r, insert_id.
  - cbn [for_each]. rewrite !exec_bind, !exec_do. cbn [fs_handler fst snd].
    destruct (fs_tar_add _ t item item) as [r σ2] eqn:Hadd.
    unfold fs_tar_add in Hadd. cbn [fs_tars fs_root fs_cwd fs_next fs_stdout] in Hadd.
    rewrite Ht in Hadd. case_bool_decide as Hitem; [by simplify_eq|].
    destruct (walk (fs_root σ) (fs_cwd σ) item) as [p|] eqn:Hw;
      [|by simplify_eq].
    apply walk_resolve in Hw. subst p.
    destruct (lookup_node (fs_root σ) (resolve (fs_cwd σ) item)) as [n|] eqn:Hn;
      [|by simplify_eq].
    cbv zeta in Hadd.
    destruct (forallb readable _) eqn:Hread; [|by simplify_eq].
    injection Hadd as <- <-. cbn [fst snd].
    match goal with |- context [exec fs_handler _ ?s] => set (σ2 := s) end.
    assert (Ht2 : fs_tars σ2 !! t
                  = Some (OpenTar (tar_path ot) (tar_compression ot)
                            (tar_members ot ++
                             add_node (tar_path ot) (resolve (fs_cwd σ) item) item n)))
      by apply lookup_insert_eq.
    specialize (IH σ2 t _ Ht2). cbv zeta in IH.
    destruct (exec fs_handler _ σ2) as [[res s3] t3].
    cbn [outcome final trace fst snd] in *. intros Hres.
    destruct (IH Hres) as (mss & out & -> & Hall & Hadds & Hlist).
    exists (add_node (tar_path ot) (resolve (fs_cwd σ) item) item n :: mss), out.
    split_and!.
    + subst σ2. cbn. by rewrite insert_insert_eq, <- app_assoc.
    + constructor; [by exists n|]. exact Hall.
    + unfold tar_adds in *. rewrite omap_app. cbn. by rewrite Hadds.
    + unfold listings in *. rewrite omap_app. cbn. by rewrite Hlist.
Qed.


Lemma resolve_name cwd f : valid_name f = true → resolve cwd f = (cwd ++ [f])%list.
Proof.
  intros Hf. pose proof Hf as (H1 & H2 & H3 & H4)%valid_name_spec.
  unfold resolve. rewrite no_sep_starts, split_on_name by done.
  cbn. unfold step_component. by rewrite !bool_decide_eq_false_2.
Qed.

Lemma resolve_dot cwd : resolve cwd "." = cwd.
Proof. done. Qed.

Lemma path_join_absolute cwd output_file :
  starts_with_sep (path_join (abs_string cwd) output_file) = true.
Proof.
  unfold path_join. destruct (starts_with_sep output_file) eqn:Ho; [done|].
  by destruct (_ || _).
Qed.

Lemma resolve_absolute c1 c2 path :
  starts_with_sep path = true → resolve c1 path = resolve c2 path.
Proof. intros Hp. unfold resolve. by rewrite Hp. Qed.

Lemma find_dir_Ok σ path p ch :
  find_dir σ path = Ok (p, ch) →
  p = resolve (fs_cwd σ) path ∧ lookup_node (fs_root σ) p = Some (Dir ch).
Proof.
  unfold find_dir. case_bool_decide; [done|].
  destruct (walk _ _ _) as [q|] eqn:Hw; [|done].
  apply walk_resolve in Hw. subst q.
  destruct (lookup_node _ _) as [[c|ch']|] eqn:Hl; intros ?; by simplify_eq.
Qed.

Lemma Forall2_elem_r {A B} (R : A → B → Prop) l k y :
  Forall2 R l k → y ∈ k → ∃ x, x ∈ l ∧ R x y.
Proof.
  induction 1 as [|x y' l k HR _ IH]; [by intros ?%elem_of_nil|].
  intros [->|Hy]%elem_of_cons.
  - exists x. split; [left|done].
  - destruct (IH Hy) as (x' & ? & ?). exists x'. split; [by right|done].
Qed.

Lemma Forall2_elem_l {A B} (R : A → B → Prop) l k x :
  Forall2 R l k → x ∈ l → ∃ y, y ∈ k ∧ R x y.
Proof.
  induction 1 as [|x' y l k HR _ IH]; [by intros ?%elem_of_nil|].
  intros [->|Hx]%elem_of_cons.
  - exists y. split; [left|done].
  - destruct (IH Hx) as (y' & ? & ?). exists y'. split; [by right|done].
Qed.

(** A run that returns is made of runs that return. *)
Lemma bind_Ok {S A B} (h : handler S) (p : prog A) (f : A → prog B) s b s2 t :
  exec h (bind p f) s = (Ok b, s2, t) →
  ∃ a s1 t1 t2,
    exec h p s = (Ok a, s1, t1) ∧ exec h (f a) s1 = (Ok b, s2, t2) ∧
    t = (t1 ++ t2)%list.
Proof.
  rewrite exec_bind. destruct (exec h p s) as [[[a|e] s1] t1]; [|done].
  destruct (exec h (f a) s1) as [[res s3] t2] eqn:Hf.
  intros ?; simplify_eq. by eexists _, _, _, _.
Qed.

Lemma do_Ok {S R} (h : handler S) (c : call R) s a s1 t :
  exec h (do c) s = (Ok a, s1, t) → h R c s = (Ok a, s1) ∧ t = [Ev c (Ok a)].
Proof.
  rewrite exec_do. destruct (h R c s) as [r s']. cbn. intros ?. by simplify_eq.
Qed.

Lemma with_exit_Ok {S A} (h : handler S) (body : prog A) on_return on_raise
    s a s2 t :
  exec h (with_exit body on_return on_raise) s = (Ok a, s2, t) →
  ∃ s1 t1 t2,
    exec h body s = (Ok a, s1, t1) ∧ exec h on_return s1 = (Ok tt, s2, t2) ∧
    t = (t1 ++ t2)%list.
Proof.
  rewrite exec_with_exit. destruct (exec h body s) as [[[a'|e] s1] t1].
  - destruct (exec h on_return s1) as [[[[]|e] s3] t2] eqn:Hr; [|done].
    intros ?; simplify_eq. exists s1, t1, t2. by rewrite Hr.
  - by destruct (exec h on_raise s1) as [[[[]|e'] s3] t2].
Qed.

(** C1. When [compress] returns, the file it wrote is a gzip-compressed tar
    archive.  Its members come from adding every entry of the target
    directory under the entry's own name: each call of [tar.add] has
    [arcname] equal to the name listed; every member is named after such an
    entry, or lies under it when the entry is a sub-directory, with no
    enclosing folder in front; and every entry (but the archive itself,
    should it lie in that directory) is a member under its own name. *)
Theorem compress_members_at_top_level σ tar_dir output_file :
  wf_fs σ = true →
  let x := exec fs_handler (compress (Some tar_dir) output_file) σ in
  let target := resolve (fs_cwd σ) tar_dir in
  let archive :=
    resolve (fs_cwd σ) (path_join (abs_string (fs_cwd σ)) output_file) in
  outcome x = Ok tt →
  ∃ members items tar ch,
    lookup_node (fs_root (final x)) archive
      = Some (File (TarArchive Gzip members)) ∧
    lookup_node (fs_root (final x)) target = Some (Dir ch) ∧
    items = map fst ch ∧
    listings (trace x) = [items] ∧
    tar_adds (trace x) = map (λ item, (tar, item, item)) items ∧
    (∀ m : member, m ∈ members → ∃ item, item ∈ items ∧ rooted_at item m.1) ∧
    (∀ item, item ∈ items → (target ++ [item])%list ≠ archive →
       ∃ d, (item, d) ∈ members).
Proof.
  intros Hwf. apply andb_true_iff in Hwf as [Hroot Hcwd]. cbv zeta.
  destruct (exec fs_handler _ σ) as [[res sf] tf] eqn:Hrun.
  cbn [outcome final trace fst snd]. intros ->.
  unfold compress, mbind, prog_bind in Hrun.
  (* os.getcwd() *)
  apply bind_Ok in Hrun as (parent & s0 & t0 & tf0 & Hcall & Hrun & ->).
  apply do_Ok in Hcall as [Hcall ->]. cbn in Hcall.
  injection Hcall as <- <-.
  (* os.chdir(tar_dir) *)
  apply bind_Ok in Hrun as ([] & s1 & t1 & tf1 & Hcall & Hrun & ->).
  apply do_Ok in Hcall as [Hcall ->]. cbn in Hcall.
  destruct (find_dir σ tar_dir) as [[p ch0]|e] eqn:Hdir; [|done].
  apply find_dir_Ok in Hdir as [Hp Hch0]. injection Hcall as <-.
  assert (Hpv : forallb valid_name p = true) by (subst p; by apply resolve_valid).
  (* tarfile.open(...) *)
  apply bind_Ok in Hrun as (tar & s2 & t2 & tf2 & Hcall & Hrun & ->).
  apply do_Ok in Hcall as [Hcall ->]. cbn in Hcall. unfold fs_open_tar in Hcall.
  change (compression_of_mode "w:gz") with (Some Gzip) in Hcall.
  cbn [fs_root fs_cwd fs_tars fs_next fs_stdout] in Hcall.
  destruct (walk (fs_root σ) p _) as [ap0|] eqn:Hwalk; [|done].
  apply walk_resolve in Hwalk. subst ap0.
  destruct (put_file _ (Bytes "") (fs_root σ)) as [root1|] eqn:Hput; [|done].
  match type of Hput with put_file ?a _ _ = _ => set (ap := a) in * end.
  injection Hcall as <- <-.
  assert (Hapv : forallb valid_name ap = true) by by apply resolve_valid.
  assert (Hroot1 : wf_node root1 = true) by by eapply put_file_wf.
  (* the body of the with statement *)
  apply bind_Ok in Hrun as ([] & s3 & t3 & tf3 & Hwith & Hrun & ->).
  apply with_exit_Ok in Hwith as (s4 & t4 & t5 & Hbody & Hclose & ->).
  apply bind_Ok in Hbody as (items & s5 & t6 & t7 & Hcall & Hloop & ->).
  apply do_Ok in Hcall as [Hcall ->]. cbn [fs_handler] in Hcall.
  destruct (find_dir _ ".") as [[p1 ch1]|e] eqn:Hfind; [|done].
  apply find_dir_Ok in Hfind as [Hp1 Hls].
  cbn [fs_root fs_cwd] in Hp1, Hls. rewrite resolve_dot in Hp1. subst p1.
  injection Hcall as <- <-.
  (* the loop *)
  match type of Hloop with exec _ _ ?s = _ => set (σ2 := s) in * end.
  assert (Htar : fs_tars σ2 !! fs_next σ = Some (OpenTar ap Gzip []))
    by apply lookup_insert_eq.
  pose proof (add_loop (map fst ch1) σ2 (fs_next σ) _ Htar) as HL.
  cbv zeta in HL. rewrite Hloop in HL.
  destruct (HL eq_refl) as (mss & out & Hs4 & Hall & Hadds & Hlists).
  clear HL. cbn [final trace tar_path tar_compression tar_members fst snd] in *.
  subst s4 σ2. cbn [fs_root fs_cwd fs_tars fs_next] in *.
  (* tar.close() *)
  apply do_Ok in Hclose as [Hclose ->]. cbn in Hclose.
  unfold fs_tar_close in Hclose. cbn [fs_root fs_cwd fs_tars fs_next] in Hclose.
  rewrite lookup_insert_eq in Hclose.
  cbn [tar_path tar_compression tar_members] in Hclose.
  destruct (put_file ap (TarArchive Gzip (concat mss)) root1) as [root2|] eqn:Hput2;
    [|done].
  injection Hclose as <-.
  (* os.chdir(parent_dir) *)
  apply do_Ok in Hrun as [Hrun ->]. cbn in Hrun.
  destruct (find_dir _ _) as [[p' ch']|e]; [|done]. injection Hrun as <-.
  cbn [fs_root].
  (* the archive and the directory *)
  pose proof (put_file_lookup _ _ _ _ Hput) as Hfile1.
  destruct (put_file_dirs _ _ _ _ _ _ _ Hput2 Hfile1 Hls) as (ch2 & Hch2 & Hnames).
  assert (Hdir1 : wf_node (Dir ch1) = true) by by eapply wf_lookup.
  exists (concat mss), (map fst ch2), (fs_next σ), ch2.
  rewrite <- Hp, (resolve_absolute (fs_cwd σ) p) by apply path_join_absolute.
  fold ap. rewrite Hnames. split_and!.
  - by eapply put_file_lookup.
  - done.
  - done.
  - unfold listings in *. rewrite !omap_app, Hlists. done.
  - unfold tar_adds in *. rewrite !omap_app, Hadds. cbn. by rewrite !app_nil_r.
  - intros m Hm. apply list_elem_of_In, in_concat in Hm as (ms & Hms & Hm).
    apply list_elem_of_In in Hms.
    destruct (Forall2_elem_r _ _ _ _ Hall Hms) as (item & Hitem & n & Hn & ->).
    exists item. split; [done|].
    apply (add_node_rooted ap n (resolve p item) item m).
    + exact (wf_lookup _ _ _ Hroot1 Hn).
    + apply valid_name_plain. by eapply wf_names.
    + by apply list_elem_of_In.
  - intros item Hitem Hne.
    destruct (Forall2_elem_l _ _ _ _ Hall Hitem) as (ms & Hms & n & Hn & ->).
    pose proof (wf_names _ _ Hdir1 Hitem) as Hv.
    rewrite resolve_name in * by done.
    destruct (add_node_top ap (p ++ [item]) item n Hne) as [d Hd].
    rewrite lstrip_sep_id in Hd by by apply valid_name_plain.
    exists d. apply list_elem_of_In, in_concat. eexists.
    split; by apply list_elem_of_In.
Qed.

Lemma compress_members_at_top_level_witness :
  let x := exec fs_handler
             (compress (Some "flan-t5-xxl-sharded-fp16") "model.tar.gz")
             sample_fs in
  let target := resolve (fs_cwd sample_fs) "flan-t5-xxl-sharded-fp16" in
  let archive :=
    resolve (fs_cwd sample_fs)
            (path_join (abs_string (fs_cwd sample_fs)) "model.tar.gz") in
  ∃ members items tar ch,
    lookup_node (fs_root (final x)) archive
      = Some (File (TarArchive Gzip members)) ∧
    lookup_node (fs_root (final x)) target = Some (Dir ch) ∧
    items = map fst ch ∧
    listings (trace x) = [items] ∧
    tar_adds (trace x) = map (λ item, (tar, item, item)) items ∧
    (∀ m : member, m ∈ members → ∃ item, item ∈ items ∧ rooted_at item m.1) ∧
    (∀ item, item ∈ items → (target ++ [item])%list ≠ archive →
       ∃ d, (item, d) ∈ members).
Proof.
  apply (compress_members_at_top_level sample_fs "flan-t5-xxl-sharded-fp16"
           "model.tar.gz"); reflexivity.
Defined.

(** ** The dependency manifest *)

(** C6. The manifest the notebook writes to [code/requirements.txt] is a
    fixed text of exactly three lines, each a pin [name==version]:
    accelerate 0.16.0, transformers 4.26.0 and bitsandbytes 0.37.0. *)
Theorem requirements_are_three_pins :
  manifest_lines requirements_txt =
    ["accelerate==0.16.0"; "transformers==4.26.0"; "bitsandbytes==0.37.0"] ∧
  map parse_pin (manifest_lines requirements_txt) =
    [Some ("accelerate", "0.16.0"); Some ("transformers", "4.26.0");
     Some ("bitsandbytes", "0.37.0")] ∧
  ∀ S (h : handler S) s,
    ∃ r, trace (exec h cell_requirements s) =
           [Ev (WriteFile "code/requirements.txt" requirements_txt) r].
Proof.
  split_and!; [reflexivity..|].
  intros S h s. unfold cell_requirements. rewrite exec_do. by eexists.
Qed.

(** ** Observing composed programs *)

Lemma trace_bind {S A B} (h : handler S) (p : prog A) (f : A → prog B) s :
  trace (exec h (bind p f) s) =
    match exec h p s with
    | (Ok a, s1, t1) => (t1 ++ trace (exec h (f a) s1))%list
    | (Raise e, s1, t1) => t1
    end.
Proof.
  rewrite exec_bind. destruct (exec h p s) as [[[a|e] s1] t1]; [|done].
  by destruct (exec h (f a) s1) as [[res s2] t2].
Qed.

Lemma outcome_bind {S A B} (h : handler S) (p : prog A) (f : A → prog B) s :
  outcome (exec h (bind p f) s) =
    match exec h p s with
    | (Ok a, s1, t1) => outcome (exec h (f a) s1)
    | (Raise e, s1, t1) => Raise e
    end.
Proof.
  rewrite exec_bind. destruct (exec h p s) as [[[a|e] s1] t1]; [|done].
  by destruct (exec h (f a) s1) as [[res s2] t2].
Qed.

Section Observe.
Context {S B : Type} (f : event → option B) (h : handler S).

Lemma observe_quiet {A} (p : prog A) s :
  all_calls (unobserved f) p → omap f (trace (exec h p s)) = [].
Proof.
  intros Hp. pose proof (all_calls_trace _ h p s Hp) as Ht.
  induction Ht as [|[R c r] tr Hc _ IH]; [done|].
  change (Ev c r :: tr) with ([Ev c r] ++ tr)%list.
  rewrite omap_app, IH. cbn. by rewrite (Hc r).
Qed.

Lemma observe_bind_l {A A'} (p : prog A) (g : A → prog A') s :
  all_calls (unobserved f) p →
  omap f (trace (exec h (bind p g) s)) =
    match exec h p s with
    | (Ok a, s1, _) => omap f (trace (exec h (g a) s1))
    | (Raise _, _, _) => []
    end.
Proof.
  intros Hp. rewrite trace_bind. pose proof (observe_quiet p s Hp) as Hq.
  destruct (exec h p s) as [[[a|e] s1] t1]; cbn in Hq; [|done].
  by rewrite omap_app, Hq.
Qed.

Lemma observe_bind_r {A A'} (p : prog A) (g : A → prog A') s :
  (∀ a, all_calls (unobserved f) (g a)) →
  omap f (trace (exec h (bind p g) s)) = omap f (trace (exec h p s)).
Proof.
  intros Hg. rewrite trace_bind.
  destruct (exec h p s) as [[[a|e] s1] t1]; cbn; [|done].
  by rewrite omap_app, (observe_quiet (g a) s1 (Hg a)), app_nil_r.
Qed.
End Observe.

Ltac split_quiet :=
  unfold mbind, prog_bind, mret, prog_ret;
  repeat match goal with
    | |- True => exact I
    | |- _ = _ => reflexivity
    | |- unobserved _ _ _ => unfold unobserved
    | |- all_calls _ (lift _) => apply all_calls_lift
    | |- all_calls _ (subscript _ _) => apply all_calls_subscript
    | |- all_calls _ (do _) => apply all_calls_do
    | |- all_calls _ (bind _ _) => apply all_calls_bind
    | |- all_calls _ (with_exit _ _ _) => apply all_calls_with_exit
    | |- all_calls _ (try_except _ _ _) => apply all_calls_try_except
    | |- all_calls _ (for_each _ _) => apply all_calls_for_each
    | |- all_calls _ (Ret _) => exact I
    | |- ∀ _ : _ * _, _ => intros [? ?]
    | |- ∀ _, _ => intro
    end.

(** A cell that ran makes no call that [obs] observes. *)
Ltac note_quiet obs E :=
  match type of E with
  | exec ?h ?p ?s = _ =>
      let Q := fresh "Q" in
      assert (Q : obs (trace (exec h p s)) = [])
        by (unfold obs; apply observe_quiet;
            unfold cell_install, cell_credentials, cell_mkdir_code,
              cell_requirements, cell_inference, cell_download,
              cell_copy_code, cell_compress, compress, cell_upload,
              cell_deploy, cell_predict_summarize, cell_predict_math,
              cell_delete;
            split_quiet);
      rewrite E in Q; cbn [trace snd] in Q
  end.

(** ** What a returning run has done *)
















(** ** The fallback, and the look-up it makes *)

Lemma all_calls_mono {A} (P Q : ∀ R, call R → Prop) (p : prog A) :
  (∀ R c, P R c → Q R c) → all_calls P p → all_calls Q p.
Proof.
  intros HPQ. induction p as [a|e|R c k IH]; [done..|].
  intros [Hc Hk]. split; [by apply HPQ|]. intros r. by apply IH.
Qed.

(** What is observed of the calls for the role is observed in the
    credentials cell. *)
Lemma notebook_credentials_only {S B} (f : event → option B)
    (h : handler S) s :
  (∀ R c, not_role_call R c → unobserved f R c) →
  omap f (trace (exec h notebook s)) =
    match exec h cell_install s with
    | (Ok _, s1, _) => omap f (trace (exec h cell_credentials s1))
    | (Raise _, _, _) => []
    end.
Proof.
  intros Hf. unfold notebook, mbind, prog_bind.
  rewrite observe_bind_l
    by (eapply all_calls_mono; [exact Hf|apply cell_install_quiet]).
  destruct (exec h cell_install s) as [[[?|?] s1] t1]; [|done].
  apply observe_bind_r. intros [sess role].
  eapply all_calls_mono; [exact Hf|apply after_credentials_calls].
Qed.

Lemma cell_credentials_lookups {S} (h : handler S) s :
  let t := trace (exec h cell_credentials s) in
  role_lookups t
  = map (λ iam, (iam, "sagemaker_execution_role")) (iam_clients t) ∧
  (List.length (iam_clients t) ≤ 1)%nat.
Proof.
  unfold cell_credentials, mbind, prog_bind, mret, prog_ret,
    role_lookups, iam_clients.
  cbn.
  repeat (first [ answer h
                | match goal with
                  | |- context [isinstance ?e ?c] =>
                      destruct (isinstance e c) eqn:?
                  | |- context [subscript ?v ?k] =>
                      let p := fresh "p" in
                      let Hp := fresh "Hp" in
                      pose proof (all_calls_subscript (λ _ _, False) v k) as Hp;
                      destruct (subscript v k) as [?|?|? ? ?]; [| |destruct Hp as [[] _]]
                  end ]; cbn);
    rewrite ?bool_decide_eq_true_2 by done; cbn; (split; [done|lia]).
Qed.

(** The role the credentials cell returns is the one
    [get_execution_role] gave or, when the fallback was taken, the [Arn]
    under [Role] of what [iam.get_role] answered. *)
Lemma cell_credentials_role {S} (h : handler S) s sess role s' t :
  exec h cell_credentials s = (Ok (sess, role), s', t) →
  (∃ r, role_answers t = [r] ∧ iam_answers t = [] ∧ role = VStr r) ∨
  (role_answers t = [] ∧
   ∃ resp, iam_answers t = [resp] ∧ role_arn resp = Ok role).
Proof.
  unfold cell_credentials, mbind, prog_bind, mret, prog_ret,
    role_answers, iam_answers. cbn.
  repeat (first
    [ answer h
    | match goal with
      | |- context [isinstance ?e ?c] => destruct (isinstance e c) eqn:?
      | |- context [subscript ?v _] => is_var v; destruct v
      | |- context [@lookup _ _ _ _ ?k ?d] => is_var d; destruct (d !! k) eqn:?
      end ]; cbn);
    intros ?; simplify_eq; try done.
  - left. by eexists.
  - right. split; [done|]. eexists. split; [done|]. cbn.
    by repeat match goal with H : _ !! _ = _ |- _ => rewrite H end.
Qed.

Lemma cell_deploy_role {S} (h : handler S) uri role s :
  model_roles (trace (exec h (cell_deploy uri role) s)) = [role].
Proof.
  unfold cell_deploy, mbind, prog_bind, model_roles. cbn.
  by repeat (answer h; cbn).
Qed.

(** The role a model is created with is the role that was found. *)
Lemma notebook_model_role {S} (h : handler S) s role :
  role ∈ model_roles (trace (exec h notebook s)) →
  (∃ r, role_answers (trace (exec h notebook s)) = [r] ∧
        iam_answers (trace (exec h notebook s)) = [] ∧ role = VStr r) ∨
  (role_answers (trace (exec h notebook s)) = [] ∧
   ∃ resp, iam_answers (trace (exec h notebook s)) = [resp] ∧
           role_arn resp = Ok role).
Proof.
  unfold role_answers, iam_answers.
  rewrite !notebook_credentials_only by (intros R c Hc r; by destruct c).
  unfold notebook, mbind, prog_bind, model_roles.
  rewrite observe_bind_l by (unfold cell_install; split_quiet).
  destruct (exec h cell_install s) as [[[?|?] s1] t1];
    [|by intros ?%elem_of_nil].
  rewrite observe_bind_l by (unfold cell_credentials; split_quiet).
  destruct (exec h cell_credentials s1) as [[[[sess found]|?] s2] t2] eqn:E2;
    [|by intros ?%elem_of_nil].
  apply cell_credentials_role in E2. unfold role_answers, iam_answers in E2.
  cbn [trace snd].
  do 7 (rewrite observe_bind_l
          by (unfold cell_mkdir_code, cell_requirements, cell_inference,
                cell_download, cell_copy_code, cell_compress, compress,
                cell_upload; split_quiet);
        match goal with
        | |- context [exec h ?p ?s] =>
            destruct (exec h p s) as [[[?|?] ?] ?]; [|by intros ?%elem_of_nil]
        end).
  rewrite observe_bind_r
    by (intros ?; unfold cell_predict_summarize, cell_predict_math,
          cell_delete; split_quiet).
  match goal with
  | |- context [exec h (cell_deploy ?u ?r) ?s'] =>
      pose proof (cell_deploy_role h u r s') as Hd
  end.
  unfold model_roles in Hd. rewrite Hd. by intros ->%list_elem_of_singleton.
Qed.

(** C5. In any run of the notebook, whatever the SDKs answer.  The fallback
    is taken, that is the IAM client is asked for, exactly when
    [sagemaker.get_execution_role()] raised an instance of [ValueError].
    The client is asked for at most once, and a role is looked up through
    IAM only in the fallback: once on each client that was given, by the
    name [sagemaker_execution_role], and never otherwise.  The role the
    model is created with is the one that was found: what
    [get_execution_role] returned or, in the fallback, the [Arn] under
    [Role] of what the look-up answered.  Any other exception raised by a
    call is not caught: the run ends with the exception that was raised
    last, and a run that returns has seen no such exception. *)
Theorem role_fallback_only_on_value_error {S} (h : handler S) s :
  let x := exec h notebook s in
  (fallback_taken (trace x) = true ↔
   ∃ e, execution_role_error (trace x) = Some e ∧
        isinstance e "ValueError" = true) ∧
  role_lookups (trace x)
  = map (λ iam, (iam, "sagemaker_execution_role")) (iam_clients (trace x)) ∧
  (List.length (iam_clients (trace x)) ≤ 1)%nat ∧
  (∀ role, role ∈ model_roles (trace x) →
     (∃ r, role_answers (trace x) = [r] ∧ iam_answers (trace x) = [] ∧
           role = VStr r) ∨
     (role_answers (trace x) = [] ∧
      ∃ resp, iam_answers (trace x) = [resp] ∧ role_arn resp = Ok role)) ∧
  (∀ e, last (uncaught (trace x)) = Some e → outcome x = Raise e) ∧
  (outcome x = Ok tt → uncaught (trace x) = []).
Proof.
  cbv zeta. split; [apply notebook_fallback_trigger|].
  assert (Hlook : role_lookups (trace (exec h notebook s))
                  = map (λ iam, (iam, "sagemaker_execution_role"))
                        (iam_clients (trace (exec h notebook s))) ∧
                  (List.length (iam_clients (trace (exec h notebook s))) ≤ 1)%nat).
  { unfold role_lookups, iam_clients.
    rewrite !notebook_credentials_only
      by (intros R c Hc r; by destruct c).
    destruct (exec h cell_install s) as [[[?|?] s1] t1]; [|split; [done|cbn; lia]].
    apply cell_credentials_lookups. }
  destruct Hlook as [Hlook Hone]. split; [exact Hlook|]. split; [exact Hone|].
  split; [intros role; apply notebook_model_role|].
  destruct (notebook_propagates h s) as [H1 H2]. split; [exact H2|].
  intros Hok. apply H1. by rewrite Hok.
Qed.

Lemma role_fallback_only_on_value_error_witness :
  (fallback_taken (trace (exec no_execution_role notebook tt)) = true ∧
   execution_role_error (trace (exec no_execution_role notebook tt))
     = Some ValueError ∧
   role_lookups (trace (exec no_execution_role notebook tt))
     = [(1%positive, "sagemaker_execution_role")]) ∧
  (last (uncaught (trace (exec upload_refused notebook tt))) = Some ClientError ∧
   outcome (exec upload_refused notebook tt) = Raise ClientError) ∧
  role_lookups (trace (exec upload_refused notebook tt)) = [].
Proof.
  split_and!.
  - apply (proj1 (role_fallback_only_on_value_error no_execution_role tt)).
    exists ValueError. split; reflexivity.
  - reflexivity.
  - rewrite (proj1 (proj2 (role_fallback_only_on_value_error
                             no_execution_role tt))).
    reflexivity.
  - reflexivity.
  - apply (proj1 (proj2 (proj2 (proj2 (proj2
             (role_fallback_only_on_value_error upload_refused tt)))))).
    reflexivity.
  - rewrite (proj1 (proj2 (role_fallback_only_on_value_error
                             upload_refused tt))).
    reflexivity.
Defined.

End NotebookFacts.

(** * More on the handler *)

Module InferenceExtras.
Import Inference InferenceFacts.

(** X1. A [parameters] entry that is neither [None] nor a mapping (a
    dictionary of the request, or a reference, which always names a
    dictionary) makes [predict_fn] raise [TypeError] at [**parameters]: the
    inputs are tokenized first, and the generation is never called. *)
Theorem predict_fn_rejects_non_mapping
    model tokenizer σ data (d : gmap string value) v ids :
  st_heap σ !! data = Some d →
  d !! "parameters" = Some v →
  v ≠ VNone → (∀ kw, v ≠ VDict kw) → (∀ l, v ≠ VRef l) →
  let inputs := default (VRef data) (d !! "inputs") in
  let h := <[data := popped d]> (st_heap σ) in
  tok_call tokenizer h inputs kw_tokenize = Ok ids →
  predict_fn data (model, tokenizer) σ =
    (Raise TypeError,
     PState h (st_calls σ ++ [CTokenizer inputs kw_tokenize h])).
Proof.
  intros Hd Hv Hnone Hdict Href inputs h Htok.
  rewrite (predict_fn_run _ _ _ _ d Hd). cbv zeta. fold inputs h.
  rewrite Htok. unfold generate_kwargs. rewrite Hv.
  destruct v; try done; [by destruct (Hdict d0)|by destruct (Href l)].
Qed.

Lemma predict_fn_rejects_non_mapping_witness :
  predict_fn 1%positive (toy_model, toy_tokenizer)
    (state_with request_bad_parameters) =
    (Raise TypeError,
     PState (<[1%positive := popped request_bad_parameters]>
               (st_heap (state_with request_bad_parameters)))
            ([] ++ [CTokenizer (VStr "hi") kw_tokenize
                      (<[1%positive := popped request_bad_parameters]>
                         (st_heap (state_with request_bad_parameters)))])).
Proof.
  apply (predict_fn_rejects_non_mapping toy_model toy_tokenizer
           (state_with request_bad_parameters) 1%positive
           request_bad_parameters (VInt 5) [[2%Z; 1%Z]]);
    try reflexivity;
    [discriminate | intros kw; discriminate | intros l; discriminate].
Defined.

(** X2. [predict_fn] handles no exception of the library.  What the
    tokenizer raises is raised by [predict_fn], with no generation; what the
    generation raises is raised by [predict_fn], with no decoding. *)
Theorem predict_fn_propagates_library_errors
    model tokenizer σ data (d : gmap string value) :
  st_heap σ !! data = Some d →
  let inputs := default (VRef data) (d !! "inputs") in
  let h := <[data := popped d]> (st_heap σ) in
  let r := predict_fn data (model, tokenizer) σ in
  (∀ e, tok_call tokenizer h inputs kw_tokenize = Raise e →
     r = (Raise e, PState h (st_calls σ ++ [CTokenizer inputs kw_tokenize h]))) ∧
  (∀ ids kw e,
     tok_call tokenizer h inputs kw_tokenize = Ok ids →
     passed_kwargs d = Some kw →
     mdl_generate model ids kw = Raise e →
     r = (Raise e, PState h (st_calls σ ++ [CTokenizer inputs kw_tokenize h;
                                            CGenerate ids kw]))).
Proof.
  intros Hd inputs h r. subst r.
  rewrite (predict_fn_run _ _ _ _ d Hd). cbv zeta. fold inputs h. split.
  - intros e ->. done.
  - intros ids kw e -> Hkw Hgen.
    rewrite (generate_kwargs_passed _ _ _ Hkw), Hgen. by rewrite <- app_assoc.
Qed.

Lemma predict_fn_propagates_library_errors_witness :
  predict_fn 1%positive (toy_model, raising_tokenizer) (state_with request_full)
  = (Raise ValueError,
     PState (<[1%positive := popped request_full]>
               (st_heap (state_with request_full)))
            ([] ++ [CTokenizer (VStr "Summarize the following text") kw_tokenize
                      (<[1%positive := popped request_full]>
                         (st_heap (state_with request_full)))])) ∧
  predict_fn 1%positive (raising_model, toy_tokenizer) (state_with request_full)
  = (Raise OutOfMemoryError,
     PState (<[1%positive := popped request_full]>
               (st_heap (state_with request_full)))
            ([] ++ [CTokenizer (VStr "Summarize the following text") kw_tokenize
                      (<[1%positive := popped request_full]>
                         (st_heap (state_with request_full)));
                    CGenerate [[28%Z; 1%Z]] (<["max_new_tokens" := VInt 50]> ∅)])).
Proof.
  split.
  - apply (proj1 (predict_fn_propagates_library_errors toy_model
                    raising_tokenizer (state_with request_full) 1%positive
                    request_full eq_refl)).
    reflexivity.
  - apply (proj2 (predict_fn_propagates_library_errors raising_model
                    toy_tokenizer (state_with request_full) 1%positive
                    request_full eq_refl)); reflexivity.
Defined.

(** X3. When the generation returns an empty batch, [outputs[0]] raises
    [IndexError] and nothing is decoded. *)
Theorem predict_fn_empty_batch
    model tokenizer σ data (d : gmap string value) ids kw :
  st_heap σ !! data = Some d →
  let inputs := default (VRef data) (d !! "inputs") in
  let h := <[data := popped d]> (st_heap σ) in
  tok_call tokenizer h inputs kw_tokenize = Ok ids →
  passed_kwargs d = Some kw →
  mdl_generate model ids kw = Ok [] →
  predict_fn data (model, tokenizer) σ =
    (Raise IndexError,
     PState h (st_calls σ ++ [CTokenizer inputs kw_tokenize h;
                              CGenerate ids kw])).
Proof.
  intros Hd inputs h Htok Hkw Hgen.
  rewrite (predict_fn_run _ _ _ _ d Hd). cbv zeta. fold inputs h.
  rewrite Htok, (generate_kwargs_passed _ _ _ Hkw), Hgen.
  by rewrite <- app_assoc.
Qed.

Lemma predict_fn_empty_batch_witness :
  predict_fn 1%positive (empty_model, toy_tokenizer) (state_with request_full)
  = (Raise IndexError,
     PState (<[1%positive := popped request_full]>
               (st_heap (state_with request_full)))
            ([] ++ [CTokenizer (VStr "Summarize the following text") kw_tokenize
                      (<[1%positive := popped request_full]>
                         (st_heap (state_with request_full)));
                    CGenerate [[28%Z; 1%Z]] (<["max_new_tokens" := VInt 50]> ∅)])).
Proof.
  apply (predict_fn_empty_batch empty_model toy_tokenizer
           (state_with request_full) 1%positive request_full
           [[28%Z; 1%Z]] (<["max_new_tokens" := VInt 50]> ∅)); reflexivity.
Defined.

(** X4. Whatever the request and the library do, [predict_fn] makes at
    most three calls into the library, in this order: the tokenizer on the
    inputs, the generation on the token ids the tokenizer returned, the
    decoding of the first sequence the generation returned.  A call is made
    only when the one before it has returned, and [predict_fn] returns only
    when all three have returned: its answer is then the decoded text. *)
Theorem predict_fn_calls_in_order
    model tokenizer σ data (d : gmap string value) :
  st_heap σ !! data = Some d →
  let inputs := default (VRef data) (d !! "inputs") in
  let h := <[data := popped d]> (st_heap σ) in
  let r := predict_fn data (model, tokenizer) σ in
  (∃ rest,
     st_calls r.2 = (st_calls σ ++ CTokenizer inputs kw_tokenize h :: rest)%list ∧
     (rest = [] ∨
      ∃ ids kw,
        tok_call tokenizer h inputs kw_tokenize = Ok ids ∧
        generate_kwargs h d = Some kw ∧
        (rest = [CGenerate ids kw] ∨
         ∃ seq more,
           mdl_generate model ids kw = Ok (seq :: more) ∧
           rest = [CGenerate ids kw; CDecode seq kw_decode]))) ∧
  (∀ v, r.1 = Ok v →
     ∃ ids kw seq more text,
       tok_call tokenizer h inputs kw_tokenize = Ok ids ∧
       generate_kwargs h d = Some kw ∧
       mdl_generate model ids kw = Ok (seq :: more) ∧
       tok_decode tokenizer seq kw_decode = Ok text ∧
       v = VList [VDict {["generated_text" := VStr text]}] ∧
       st_calls r.2
       = (st_calls σ ++ [CTokenizer inputs kw_tokenize h; CGenerate ids kw;
                         CDecode seq kw_decode])%list).
Proof.
  intros Hd inputs h r. subst r. rewrite (predict_fn_run _ _ _ _ d Hd).
  cbv zeta. fold inputs h.
  destruct (tok_call tokenizer h inputs kw_tokenize) as [ids|e];
    [|split; [exists []; split; [done|by left]|done]].
  destruct (generate_kwargs h d) as [kw|];
    [|split; [exists []; split; [done|by left]|done]].
  destruct (mdl_generate model ids kw) as [[|seq more]|e] eqn:Hgen;
    cbn [fst snd st_calls]; rewrite <- ?app_assoc; cbn [app].
  - split; [|done]. eexists. split; [done|]. right.
    exists ids, kw. split_and!; [done..|by left].
  - destruct (tok_decode tokenizer seq kw_decode) as [text|e] eqn:Hdec;
      cbn [fst snd st_calls]; rewrite <- ?app_assoc; cbn [app].
    + split.
      * eexists. split; [done|]. right. exists ids, kw.
        split_and!; [done..|]. right. by exists seq, more.
      * intros v [= <-]. by exists ids, kw, seq, more, text.
    + split; [|done].
      eexists. split; [done|]. right. exists ids, kw.
      split_and!; [done..|]. right. by exists seq, more.
  - split; [|done]. eexists. split; [done|]. right.
    exists ids, kw. split_and!; [done..|by left].
Qed.

Lemma predict_fn_calls_in_order_witness :
  let inputs := default (VRef 1%positive) (request_full !! "inputs") in
  let h : heap := <[1%positive := popped request_full]>
                    (st_heap (state_with request_full)) in
  let r := predict_fn 1%positive (toy_model, toy_tokenizer)
             (state_with request_full) in
  (∃ rest,
     st_calls r.2 = ([] ++ CTokenizer inputs kw_tokenize h :: rest)%list ∧
     (rest = [] ∨
      ∃ ids kw,
        tok_call toy_tokenizer h inputs kw_tokenize = Ok ids ∧
        generate_kwargs h request_full = Some kw ∧
        (rest = [CGenerate ids kw] ∨
         ∃ seq more,
           mdl_generate toy_model ids kw = Ok (seq :: more) ∧
           rest = [CGenerate ids kw; CDecode seq kw_decode]))) ∧
  (∀ v, r.1 = Ok v →
     ∃ ids kw seq more text,
       tok_call toy_tokenizer h inputs kw_tokenize = Ok ids ∧
       generate_kwargs h request_full = Some kw ∧
       mdl_generate toy_model ids kw = Ok (seq :: more) ∧
       tok_decode toy_tokenizer seq kw_decode = Ok text ∧
       v = VList [VDict {["generated_text" := VStr text]}] ∧
       st_calls r.2
       = ([] ++ [CTokenizer inputs kw_tokenize h; CGenerate ids kw;
                 CDecode seq kw_decode])%list).
Proof.
  apply (predict_fn_calls_in_order toy_model toy_tokenizer
           (state_with request_full) 1%positive request_full).
  reflexivity.
Defined.

Lemma popped_popped (d : gmap string value) : popped (popped d) = popped d.
Proof.
  destruct (popped_lookup d) as (Hi & Hp & _). unfold popped at 1.
  by rewrite (delete_id _ "inputs"), delete_id.
Qed.

(** X5. A request object cannot be used twice.  After a first call, a
    second call of [predict_fn] on the same object finds neither key: the
    tokenizer is applied to the object itself, which holds what the first
    call left of the request, and the generation, when it is reached, is
    applied with no keyword arguments, whatever the request held.  The
    answer of the second call is the answer of that pipeline. *)
Theorem predict_fn_second_call
    model tokenizer model' tokenizer' σ data (d : gmap string value) :
  st_heap σ !! data = Some d →
  let σ1 := (predict_fn data (model, tokenizer) σ).2 in
  let r := predict_fn data (model', tokenizer') σ1 in
  st_heap r.2 = st_heap σ1 ∧
  deref (st_heap σ1) (VRef data) = Some (VDict (popped d)) ∧
  r.1 = pipeline tokenizer' model' (st_heap σ1) (VRef data) ∅ ∧
  ∃ rest,
    st_calls r.2
    = (st_calls σ1 ++ CTokenizer (VRef data) kw_tokenize (st_heap σ1) :: rest)%list ∧
    ∀ ids kw, CGenerate ids kw ∈ rest → kw = ∅.
Proof.
  intros Hd σ1 r.
  assert (Hheap : st_heap σ1 = <[data := popped d]> (st_heap σ))
    by apply (predict_fn_heap _ _ _ _ d Hd).
  assert (Hd1 : st_heap σ1 !! data = Some (popped d))
    by (rewrite Hheap; apply lookup_insert_eq).
  destruct (popped_lookup d) as (Hi & Hp & _).
  assert (Hsame : <[data := popped (popped d)]> (st_heap σ1) = st_heap σ1)
    by (rewrite popped_popped; by apply insert_id).
  assert (Hkw : generate_kwargs (st_heap σ1) (popped d) = Some ∅)
    by (unfold generate_kwargs; by rewrite Hp).
  split_and!.
  - subst r. rewrite (predict_fn_heap _ _ _ _ (popped d) Hd1). exact Hsame.
  - cbn. by rewrite Hd1.
  - subst r.
    pose proof (predict_fn_outcome model' tokenizer' σ1 data (popped d) ∅ Hd1)
      as Hout.
    cbv zeta in Hout. rewrite Hi, Hsame in Hout. by apply Hout.
  - subst r. rewrite (predict_fn_run _ _ _ _ (popped d) Hd1). cbv zeta.
    rewrite Hi, Hsame, Hkw. simpl default.
    destruct (tok_call tokenizer' _ _ _) as [ids|e]; cbn [fst snd st_heap st_calls].
    2: { exists []. split; [done|]. by intros ?? ?%elem_of_nil. }
    destruct (mdl_generate model' ids ∅) as [[|seq more]|e];
      cbn [fst snd st_heap st_calls]; rewrite <- ?app_assoc; cbn [app].
    + eexists. split; [done|].
      intros ?? ?%list_elem_of_singleton. by simplify_eq.
    + destruct (tok_decode tokenizer' seq kw_decode);
        cbn [fst snd st_heap st_calls]; rewrite <- ?app_assoc; cbn [app];
        (eexists; split; [done|]);
        intros ?? [?|[?|?%elem_of_nil]%elem_of_cons]%elem_of_cons;
        by simplify_eq.
    + eexists. split; [done|].
      intros ?? ?%list_elem_of_singleton. by simplify_eq.
Qed.

Lemma predict_fn_second_call_witness :
  let σ1 := (predict_fn 1%positive (toy_model, toy_tokenizer)
               (state_with request_full)).2 in
  let r := predict_fn 1%positive (toy_model, toy_tokenizer) σ1 in
  st_heap r.2 = st_heap σ1 ∧
  deref (st_heap σ1) (VRef 1%positive) = Some (VDict (popped request_full)) ∧
  r.1 = pipeline toy_tokenizer toy_model (st_heap σ1) (VRef 1%positive) ∅ ∧
  ∃ rest,
    st_calls r.2
    = (st_calls σ1 ++ CTokenizer (VRef 1%positive) kw_tokenize (st_heap σ1) :: rest)%list ∧
    ∀ ids kw, CGenerate ids kw ∈ rest → kw = ∅.
Proof.
  apply (predict_fn_second_call toy_model toy_tokenizer toy_model toy_tokenizer
           (state_with request_full) 1%positive request_full).
  reflexivity.
Defined.

(** X6. [model_fn] loads the model first.  When that raises, [model_fn]
    raises the same exception and the tokenizer is never loaded; when the
    tokenizer cannot be loaded, its exception is raised.  The heap is left
    as it was. *)
Theorem model_fn_propagates_load_errors transformers model_dir σ :
  let r := model_fn transformers model_dir σ in
  (∀ e, AutoModelForSeq2SeqLM_from_pretrained transformers model_dir kw_load
        = Raise e →
     r = (Raise e, PState (st_heap σ) (st_calls σ ++ [CLoadModel model_dir kw_load]))) ∧
  (∀ model e,
     AutoModelForSeq2SeqLM_from_pretrained transformers model_dir kw_load
       = Ok model →
     AutoTokenizer_from_pretrained transformers model_dir ∅ = Raise e →
     r = (Raise e, PState (st_heap σ)
                     (st_calls σ ++ [CLoadModel model_dir kw_load;
                                     CLoadTokenizer model_dir ∅]))) ∧
  st_heap r.2 = st_heap σ.
Proof.
  cbv zeta. unfold model_fn, mbind, M_bind, mret, M_ret, load_model,
    load_tokenizer.
  fold kw_load. cbn. split_and!.
  - intros e ->. done.
  - intros model e -> ->. cbn. by rewrite <- app_assoc.
  - destruct (AutoModelForSeq2SeqLM_from_pretrained _ _ _); cbn; [|done].
    by destruct (AutoTokenizer_from_pretrained _ _ _).
Qed.

Lemma model_fn_propagates_load_errors_witness :
  model_fn no_weights "/opt/ml/model" (PState ∅ []) =
    (Raise OutOfMemoryError,
     PState ∅ ([] ++ [CLoadModel "/opt/ml/model" kw_load])).
Proof.
  apply (proj1 (model_fn_propagates_load_errors no_weights "/opt/ml/model"
                  (PState ∅ []))).
  reflexivity.
Defined.

End InferenceExtras.

(** * More on the notebook *)

Module NotebookExtras.
Import Notebook NotebookFacts.

(** ** The temporary directory *)

Lemma cell_download_temp {S} (h : handler S) s :
  let x := exec h cell_download s in
  temp_cleaned (trace x) = temp_created (trace x) ∧
  (cleanup_errors (trace x) = [] →
   temp_removed (trace x) = temp_created (trace x)) ∧
  (∀ e, e ∈ cleanup_errors (trace x) → outcome x = Raise e).
Proof.
  unfold cell_download, mbind, prog_bind, mret, prog_ret.
  rewrite model_tar_dir_name. cbn.
  repeat (answer h; cbn);
    (split_and!; [done|done|]);
    first [ by intros ? ?%elem_of_nil
          | by intros ? ->%list_elem_of_singleton ].
Qed.

(** X7. In every run of the notebook, whatever the calls answer, the
    clean-up of the temporary directory is called for exactly the
    directories that were created, once each, also when the download or the
    copy raises.  Every directory that was created is removed unless its
    clean-up itself raises; when it does, the run ends with that
    exception. *)
Theorem temporary_directory_cleaned {S} (h : handler S) s :
  let x := exec h notebook s in
  temp_cleaned (trace x) = temp_created (trace x) ∧
  (cleanup_errors (trace x) = [] →
   temp_removed (trace x) = temp_created (trace x)) ∧
  (∀ e, e ∈ cleanup_errors (trace x) → outcome x = Raise e).
Proof.
  cbv zeta.
  unfold notebook, mbind, prog_bind, temp_cleaned, temp_created,
    temp_removed, cleanup_errors.
  do 5 (rewrite outcome_bind;
        rewrite !observe_bind_l
          by (unfold cell_install, cell_credentials, cell_mkdir_code,
                cell_requirements, cell_inference; split_quiet);
        match goal with
        | |- context [exec h ?p ?s] =>
            destruct (exec h p s) as [[[?|?] ?] ?];
            [|split_and!; [done|done|by intros ? ?%elem_of_nil]]
        end;
        try match goal with x : (handle * value)%type |- _ => destruct x end).
  rewrite !observe_bind_r
    by (intros ?; unfold cell_copy_code, cell_compress, compress, cell_upload,
          cell_deploy, cell_predict_summarize, cell_predict_math, cell_delete;
        split_quiet).
  rewrite outcome_bind.
  match goal with
  | |- context [exec h cell_download ?s] =>
      pose proof (cell_download_temp h s) as (Hc & Hr & He)
  end.
  cbv zeta in Hc, Hr, He.
  unfold temp_cleaned, temp_created, temp_removed, cleanup_errors in Hc, Hr, He.
  split_and!; [exact Hc|exact Hr|].
  intros e Hin. specialize (He e Hin).
  match goal with
  | |- context [exec h cell_download ?s] =>
      destruct (exec h cell_download s) as [[[?|?] ?] ?]
  end; cbn [outcome fst] in He; [done|by simplify_eq].
Qed.

Lemma temporary_directory_cleaned_witness :
  temp_removed (trace (exec all_return notebook tt))
  = temp_created (trace (exec all_return notebook tt)) ∧
  temp_removed (trace (exec cleanup_refused notebook tt)) = [] ∧
  outcome (exec cleanup_refused notebook tt) = Raise PermissionError.
Proof.
  split_and!.
  - apply (proj1 (proj2 (temporary_directory_cleaned all_return tt))).
    reflexivity.
  - reflexivity.
  - apply (proj2 (proj2 (temporary_directory_cleaned cleanup_refused tt))).
    by vm_compute; left.
Defined.

(** ** [compress] under any operating system *)


(** The statements under [with tarfile.open(...) as tar]. *)
Lemma compress_body_calls {B} (f : event → option B) (tar : handle) :
  (∀ path, unobserved f _ (OsListdir path)) →
  (∀ args, unobserved f _ (Print args)) →
  (∀ name arcname, unobserved f _ (TarAdd tar name arcname)) →
  all_calls (unobserved f)
    (bind (do (OsListdir "."))
       (λ items, for_each items (λ item,
          bind (do (Print [VStr item])) (λ _, do (TarAdd tar item item))))).
Proof.
  intros H1 H2 H3.
  apply all_calls_bind; [by apply all_calls_do|]. intros items.
  apply all_calls_for_each. intros item.
  apply all_calls_bind; [by apply all_calls_do|]. intros _.
  by apply all_calls_do.
Qed.


(** X9. [compress] changes back to the directory it was called in only
    when the archive was written: whatever the operating system answers,
    once the body of the [with] statement has raised there is no second
    [os.chdir]; and when [compress] returns, it has changed to the target
    directory and then to the directory [os.getcwd] gave. *)
Theorem compress_changes_back_only_on_success
    {S} (h : handler S) s tar_dir output_file :
  let x := exec h (compress tar_dir output_file) s in
  (tar_aborted (trace x) ≠ [] → chdirs (trace x) = [tar_dir]) ∧
  (outcome x = Ok tt →
   ∃ parent_dir,
     cwds (trace x) = [parent_dir] ∧
     chdirs (trace x) = [tar_dir; Some parent_dir]).
Proof.
  cbv zeta. unfold compress, mbind, prog_bind.
  rewrite exec_bind, exec_do.
  destruct (h _ OsGetcwd s) as [[parent_dir|e] s1]; cbn [fst snd]; [|done].
  rewrite exec_bind, exec_do.
  destruct (h _ (OsChdir tar_dir) s1) as [[[]|e] s2]; cbn [fst snd]; [|done].
  rewrite exec_bind, exec_do.
  destruct (h _ (TarfileOpen _ _) s2) as [[tar|e] s3]; cbn [fst snd]; [|done].
  rewrite exec_bind, exec_with_exit.
  pose proof (observe_quiet _ h _ s3
    (compress_body_calls
       (λ ev, match ev with Ev (TarAbort tar) _ => Some tar | _ => None end)
       tar (λ _ _, eq_refl) (λ _ _, eq_refl) (λ _ _ _, eq_refl))) as Ha.
  pose proof (observe_quiet _ h _ s3
    (compress_body_calls
       (λ ev, match ev with Ev (OsChdir path) _ => Some path | _ => None end)
       tar (λ _ _, eq_refl) (λ _ _, eq_refl) (λ _ _ _, eq_refl))) as Hc.
  pose proof (observe_quiet _ h _ s3
    (compress_body_calls
       (λ ev, match ev with Ev OsGetcwd (Ok path) => Some path | _ => None end)
       tar (λ _ _, eq_refl) (λ _ _, eq_refl) (λ _ _ _, eq_refl))) as Hg.
  destruct (exec h _ s3) as [[[[]|e] s4] t4]; cbn [trace snd] in Ha, Hc, Hg;
    rewrite exec_do.
  - destruct (h _ (TarClose tar) s4) as [[[]|e] s5]; cbn [fst snd].
    + rewrite exec_do.
      destruct (h _ (OsChdir (Some parent_dir)) s5) as [[[]|e] s6];
        cbn [fst snd outcome trace]; unfold tar_aborted, chdirs, cwds;
        rewrite !omap_app, ?Ha, ?Hc, ?Hg; cbn; (split; [done|]); [|done].
      intros _. by exists parent_dir.
    + cbn [fst snd outcome trace]. unfold tar_aborted, chdirs, cwds.
      rewrite !omap_app, ?Ha, ?Hc, ?Hg. cbn. done.
  - destruct (h _ (TarAbort tar) s4) as [[[]|e'] s5];
      cbn [fst snd outcome trace]; unfold tar_aborted, chdirs, cwds;
      rewrite !omap_app, ?Ha, ?Hc, ?Hg; cbn; done.
Qed.

Lemma compress_changes_back_only_on_success_witness :
  chdirs (trace (exec add_refused
                   (compress (Some "flan-t5-xxl-sharded-fp16") "model.tar.gz")
                   tt))
    = [Some "flan-t5-xxl-sharded-fp16"] ∧
  ∃ parent_dir,
    cwds (trace (exec all_return
                   (compress (Some "flan-t5-xxl-sharded-fp16") "model.tar.gz")
                   tt)) = [parent_dir] ∧
    chdirs (trace (exec all_return
                     (compress (Some "flan-t5-xxl-sharded-fp16") "model.tar.gz")
                     tt))
      = [Some "flan-t5-xxl-sharded-fp16"; Some parent_dir].
Proof.
  split.
  - apply (proj1 (compress_changes_back_only_on_success add_refused tt
                    (Some "flan-t5-xxl-sharded-fp16") "model.tar.gz")).
    discriminate.
  - apply (proj2 (compress_changes_back_only_on_success all_return tt
                    (Some "flan-t5-xxl-sharded-fp16") "model.tar.gz")).
    reflexivity.
Defined.

(** The loop adds the names it is given, in order, each under itself, until
    a call raises. *)
Lemma loop_adds {S} (h : handler S) (tar : handle) items : ∀ s,
  let x := exec h (for_each items (λ item,
               bind (do (Print [VStr item])) (λ _, do (TarAdd tar item item)))) s in
  ∃ added,
    added `prefix_of` items ∧
    tar_adds (trace x) = map (λ item, (tar, item, item)) added ∧
    listings (trace x) = [] ∧
    (is_ok (outcome x) = true → added = items).
Proof.
  induction items as [|item items IH]; intros s; cbv zeta.
  - exists []. by split_and!.
  - cbn [for_each]. rewrite exec_bind. rewrite exec_bind, exec_do.
    destruct (h _ (Print _) s) as [[[]|e] s1]; cbn [fst snd].
    2: { exists []. split_and!; try done. apply prefix_nil. }
    rewrite exec_do.
    destruct (h _ (TarAdd _ _ _) s1) as [[[]|e] s2]; cbn [fst snd].
    2: { exists [item]. split_and!; try done. apply prefix_cons, prefix_nil. }
    destruct (IH s2) as (added & Hpre & Hadds & Hlist & Hok).
    destruct (exec h _ s2) as [[res s3] t3]. cbn [outcome trace fst snd] in *.
    exists (item :: added). unfold tar_adds, listings in *. split_and!.
    + by apply prefix_cons.
    + rewrite omap_app, Hadds. done.
    + rewrite omap_app, Hlist. done.
    + intros Hres. by rewrite Hok.
Qed.

(** X10. Whatever the operating system answers, [compress] adds to the
    archive the names [os.listdir] gave, in that order, each with [arcname]
    equal to the name, and nothing else: all of them when it returns, the
    first of them when it raises. *)
Theorem compress_adds_listed_names
    {S} (h : handler S) s tar_dir output_file tar :
  let x := exec h (compress tar_dir output_file) s in
  tar_opened (trace x) = [tar] →
  ∃ added,
    added `prefix_of` concat (listings (trace x)) ∧
    tar_adds (trace x) = map (λ item, (tar, item, item)) added ∧
    (outcome x = Ok tt → added = concat (listings (trace x))).
Proof.
  cbv zeta. unfold compress, mbind, prog_bind.
  rewrite exec_bind, exec_do.
  destruct (h _ OsGetcwd s) as [[parent_dir|e] s1]; cbn [fst snd]; [|done].
  rewrite exec_bind, exec_do.
  destruct (h _ (OsChdir tar_dir) s1) as [[[]|e] s2]; cbn [fst snd]; [|done].
  rewrite exec_bind, exec_do.
  destruct (h _ (TarfileOpen _ _) s2) as [[tar'|e] s3]; cbn [fst snd]; [|done].
  rewrite exec_bind, exec_with_exit, exec_bind, exec_do.
  pose proof (observe_quiet
    (λ ev, match ev with
           | Ev (TarfileOpen _ _) (Ok tar) => Some tar
           | _ => None
           end) h _ s3
    (compress_body_calls _ tar' (λ _ _, eq_refl) (λ _ _, eq_refl)
       (λ _ _ _, eq_refl))) as Ho.
  rewrite trace_bind, exec_do in Ho.
  destruct (h _ (OsListdir ".") s3) as [[items|e] s4]; cbn [fst snd] in *.
  - destruct (loop_adds h tar' items s4) as (added & Hpre & Hadds & Hlist & Hok).
    destruct (exec h (for_each _ _) s4) as [[[[]|e] s5] t5];
      cbn [outcome trace fst snd] in *; rewrite exec_do;
      [destruct (h _ (TarClose tar') s5) as [[[]|e] s6]; cbn [fst snd];
       [rewrite exec_do;
        destruct (h _ (OsChdir (Some parent_dir)) s6) as [[[]|e] s7]|]
      |destruct (h _ (TarAbort tar') s5) as [[[]|e'] s6]];
      cbn [fst snd outcome trace]; unfold tar_opened, tar_adds, listings in *;
      rewrite !omap_app, ?Ho, ?Hadds, ?Hlist; cbn;
      rewrite ?app_nil_r; intros ?; simplify_eq; exists added;
      (split_and!; [done..|]); try done.
    intros _. by apply Hok.
  - rewrite exec_do.
    destruct (h _ (TarAbort tar') s4) as [[[]|e'] s5];
      cbn [fst snd outcome trace]; unfold tar_opened, tar_adds, listings;
      cbn; intros ?; simplify_eq; exists []; by split_and!.
Qed.

Lemma compress_adds_listed_names_witness :
  ∃ added,
    added `prefix_of`
      concat (listings (trace (exec add_refused
                (compress (Some "flan-t5-xxl-sharded-fp16") "model.tar.gz") tt))) ∧
    tar_adds (trace (exec add_refused
                (compress (Some "flan-t5-xxl-sharded-fp16") "model.tar.gz") tt))
    = map (λ item, (1%positive, item, item)) added ∧
    (outcome (exec add_refused
                (compress (Some "flan-t5-xxl-sharded-fp16") "model.tar.gz") tt)
     = Ok tt →
     added = concat (listings (trace (exec add_refused
                (compress (Some "flan-t5-xxl-sharded-fp16") "model.tar.gz") tt)))).
Proof.
  apply (compress_adds_listed_names add_refused tt
           (Some "flan-t5-xxl-sharded-fp16") "model.tar.gz" 1%positive).
  reflexivity.
Defined.

(** ** Runs that stop early *)

Lemma steps_within L tr :
  Forall (λ ev, match ev with Ev c _ => in_step L _ c end) tr →
  ∃ n, omap step_of_event tr = replicate n L.
Proof.
  induction 1 as [|[R c r] tr Hc _ [n IH]]; [by exists 0|].
  rewrite steps_cons. destruct Hc as [Hc|Hc]; rewrite Hc, IH;
    [by exists (Datatypes.S n) | by exists n].
Qed.

Lemma run_within {S A} L (p : prog A) (h : handler S) s res s' t :
  exec h p s = (res, s', t) →
  all_calls (in_step L) p →
  ∃ n, omap step_of_event t = replicate n L.
Proof.
  intros Hrun Hp. apply steps_within.
  pose proof (all_calls_trace _ h p s Hp) as Ht. by rewrite Hrun in Ht.
Qed.

Lemma squash_cons_replicate_nil x n : squash (x :: replicate n x) = [x].
Proof.
  rewrite <- (app_nil_r (replicate n x)). by rewrite squash_cons_replicate.
Qed.

(** The steps so far are the first of the nine. *)
Ltac close_run :=
  cbn [trace snd]; unfold steps_of; rewrite ?omap_app;
  repeat match goal with
         | T : omap step_of_event _ = _ |- _ => rewrite T; clear T
         end;
  cbn [app replicate]; rewrite ?app_nil_r;
  repeat first [ rewrite squash_cons_replicate
               | rewrite squash_cons_replicate_nil
               | rewrite squash_cons_eq
               | rewrite squash_cons_ne by done ];
  cbn [squash]; by eexists.

(** The next cell runs: in its step when it raises, through its step when
    it returns. *)
Ltac run_cell h lbl calls :=
  rewrite exec_bind;
  match goal with
  | |- context [exec h ?p ?s] =>
      let E := fresh "E" in
      destruct (exec h p s) as [[[?|?] ?] ?] eqn:E;
      [ apply (run_block lbl) in E as [? ?]; [|apply calls|done]
      | apply (run_within lbl) in E as [[|?] ?]; [| |apply calls..];
        close_run ]
  end.

Ltac run_cell_no_step h calls :=
  rewrite exec_bind;
  match goal with
  | |- context [exec h ?p ?s] =>
      let E := fresh "E" in
      destruct (exec h p s) as [[[?|?] ?] ?] eqn:E;
      apply run_no_step in E; [|apply calls| |apply calls];
      [|close_run]
  end.

(** X11. In every run of the notebook, also one that a raising call cuts
    short, the steps carried out are the first steps of the list, in order:
    no step is skipped and none comes before its turn. *)
Theorem notebook_steps_prefix {S} (h : handler S) s :
  steps_of (trace (exec h notebook s)) `prefix_of` all_steps.
Proof.
  unfold notebook, mbind, prog_bind, all_steps.
  run_cell_no_step h cell_install_calls.
  run_cell h AcquireCredentials cell_credentials_calls.
  match goal with x : (handle * value)%type |- _ => destruct x as [sess role] end.
  run_cell_no_step h cell_mkdir_code_calls.
  run_cell h WriteTextFiles cell_requirements_calls.
  run_cell h WriteTextFiles cell_inference_calls.
  rewrite exec_bind.
  destruct (exec h cell_download _) as [[[m|?] ?] ?] eqn:E6.
  2: { apply run_within with (L := DownloadWeights) in E6 as [[|?] ?];
         [| |apply cell_download_calls..]; close_run. }
  pose proof (cell_download_returns' _ _ _ _ _ E6) as ->.
  apply run_block with (L := DownloadWeights) in E6 as [? ?];
    [|apply cell_download_calls|done].
  run_cell h CopyHandlerFiles cell_copy_code_calls.
  run_cell h CompressArchive compress_calls.
  rewrite exec_bind.
  destruct (exec h (cell_upload sess) _) as [[[uri|?] ?] ?] eqn:E9.
  2: { apply run_within with (L := UploadArchive) in E9 as [[|?] ?];
         [| |apply cell_upload_calls..]; close_run. }
  apply run_upload in E9 as [? ?].
  run_cell h DeployModel cell_deploy_calls.
  run_cell h SendRequests cell_predict_summarize_calls.
  run_cell h SendRequests cell_predict_math_calls.
  match goal with
  | |- context [exec h ?p ?s] =>
      destruct (exec h p s) as [[? ?] ?] eqn:E13;
      apply run_within with (L := DeleteResources) in E13 as [[|?] ?];
      [| |apply cell_delete_calls..]; close_run
  end.
Qed.

(** ** The endpoint *)

(** The next cell runs; [note] records what is known of its trace, and
    [stop] settles the run that ends there. *)
Ltac step_cell h E note stop :=
  rewrite exec_bind;
  match goal with
  | |- context [exec h ?p ?s] =>
      destruct (exec h p s) as [[[?|?] ?] ?] eqn:E; note E; cbv beta iota;
      [|stop]
  end.

Ltac use_notes :=
  cbn [trace snd]; rewrite ?omap_app;
  repeat match goal with
         | Q : omap _ _ = _ |- _ => rewrite Q; clear Q
         end;
  cbn [app].

Lemma cell_deploy_deployed {S} (h : handler S) uri role s r s' t :
  exec h (cell_deploy uri role) s = (r, s', t) →
  match r with
  | Ok p => deployed t = [p]
  | Raise _ => deployed t = []
  end.
Proof.
  unfold cell_deploy, mbind, prog_bind. cbn.
  repeat (answer h; cbn); intros ?; by simplify_eq.
Qed.

Lemma cell_predict_summarize_failed {S} (h : handler S) p s v s' t :
  exec h (cell_predict_summarize p) s = (Ok v, s', t) → failed_requests t = [].
Proof.
  unfold cell_predict_summarize. rewrite exec_do.
  destruct (h _ _ s) as [[?|?] ?]; cbn; intros ?; by simplify_eq.
Qed.

Lemma cell_predict_math_failed {S} (h : handler S) p s v s' t :
  exec h (cell_predict_math p) s = (Ok v, s', t) → failed_requests t = [].
Proof.
  unfold cell_predict_math. rewrite exec_do.
  destruct (h _ _ s) as [[?|?] ?]; cbn; intros ?; by simplify_eq.
Qed.

Ltac notes E :=
  note_quiet failed_requests E; note_quiet delete_calls E;
  note_quiet deployed E.

Ltac settle :=
  unfold failed_requests, delete_calls, deployed in *; use_notes;
  first [ by intros [] | intros _; split; [by eexists|done] ].

(** X12. The notebook deletes the endpoint only at its end: in every run in
    which a prediction request raises, the endpoint has been deployed and
    neither [delete_model] nor [delete_endpoint] is called. *)
Theorem failed_request_keeps_endpoint {S} (h : handler S) s :
  failed_requests (trace (exec h notebook s)) ≠ [] →
  (∃ p, deployed (trace (exec h notebook s)) = [p]) ∧
  delete_calls (trace (exec h notebook s)) = [].
Proof.
  unfold notebook, mbind, prog_bind.
  step_cell h E1 notes settle.
  step_cell h E2 notes settle.
  match goal with x : (handle * value)%type |- _ => destruct x as [sess role] end.
  step_cell h E3 notes settle. step_cell h E4 notes settle.
  step_cell h E5 notes settle. step_cell h E6 notes settle.
  step_cell h E7 notes settle. step_cell h E8 notes settle.
  step_cell h E9 notes settle.
  step_cell h E10
    ltac:(fun E => note_quiet failed_requests E; note_quiet delete_calls E;
                   apply cell_deploy_deployed in E)
    settle.
  step_cell h E11
    ltac:(fun E => note_quiet delete_calls E; note_quiet deployed E;
                   try apply cell_predict_summarize_failed in E)
    settle.
  step_cell h E12
    ltac:(fun E => note_quiet delete_calls E; note_quiet deployed E;
                   try apply cell_predict_math_failed in E)
    settle.
  match goal with
  | |- context [exec h ?p ?s] =>
      destruct (exec h p s) as [[? ?] ?] eqn:E13;
      note_quiet failed_requests E13
  end.
  settle.
Qed.

Lemma failed_request_keeps_endpoint_witness :
  (∃ p, deployed (trace (exec request_refused notebook tt)) = [p]) ∧
  delete_calls (trace (exec request_refused notebook tt)) = [].
Proof.
  apply (failed_request_keeps_endpoint request_refused tt). discriminate.
Defined.

(** ** What is deployed *)

Lemma cell_upload_flow {S} (h : handler S) sess s uri s' t :
  exec h (cell_upload sess) s = (Ok uri, s', t) → flows t = [Uploaded uri].
Proof.
  unfold cell_upload, mbind, prog_bind, mret, prog_ret. cbn.
  repeat (answer h; cbn); intros ?; by simplify_eq.
Qed.

Lemma cell_deploy_flow {S} (h : handler S) uri role s p s' t :
  exec h (cell_deploy uri role) s = (Ok p, s', t) →
  ∃ m, flows t = [ModelMade uri role m; Deployed m p].
Proof.
  unfold cell_deploy, mbind, prog_bind. cbn.
  repeat (answer h; cbn); intros ?; simplify_eq. by eexists.
Qed.

Lemma cell_predict_summarize_flow {S} (h : handler S) p s v s' t :
  exec h (cell_predict_summarize p) s = (Ok v, s', t) → flows t = [Requested p].
Proof.
  unfold cell_predict_summarize. cbn.
  repeat (answer h; cbn); intros ?; by simplify_eq.
Qed.

Lemma cell_predict_math_flow {S} (h : handler S) p s v s' t :
  exec h (cell_predict_math p) s = (Ok v, s', t) → flows t = [Requested p].
Proof.
  unfold cell_predict_math. cbn.
  repeat (answer h; cbn); intros ?; by simplify_eq.
Qed.

Lemma cell_delete_flow {S} (h : handler S) p s a s' t :
  exec h (cell_delete p) s = (Ok a, s', t) →
  flows t = [ModelDeleted p; EndpointDeleted p].
Proof.
  unfold cell_delete, mbind, prog_bind. cbn.
  repeat (answer h; cbn); intros ?; by simplify_eq.
Qed.

Ltac note_flow E :=
  try note_quiet flows E; try note_quiet role_answers E;
  try note_quiet iam_answers E.

(** X13. In a run of the notebook that returns, the archive that was
    uploaded is the one that is deployed and the endpoint that was deployed
    is the one that is used and deleted: the model is made from the URI the
    upload returned and with the role the credentials cell found (what
    [get_execution_role] gave or, in the fallback, the [Arn] of the IAM
    answer), the endpoint is deployed from that model, both requests go to
    that endpoint, and [delete_model] and [delete_endpoint] are called on
    it. *)
Theorem notebook_resources_flow {S} (h : handler S) s :
  outcome (exec h notebook s) = Ok tt →
  ∃ uri role m p,
    flows (trace (exec h notebook s)) =
      [Uploaded uri; ModelMade uri role m; Deployed m p;
       Requested p; Requested p; ModelDeleted p; EndpointDeleted p] ∧
    ((∃ r, role_answers (trace (exec h notebook s)) = [r] ∧
           iam_answers (trace (exec h notebook s)) = [] ∧ role = VStr r) ∨
     (role_answers (trace (exec h notebook s)) = [] ∧
      ∃ resp, iam_answers (trace (exec h notebook s)) = [resp] ∧
              role_arn resp = Ok role)).
Proof.
  unfold notebook, mbind, prog_bind.
  next_cell h E1. next_cell h E2.
  match goal with x : (handle * value)%type |- _ => destruct x as [sess role] end.
  next_cell h E3. next_cell h E4. next_cell h E5. next_cell h E6.
  next_cell h E7. next_cell h E8. next_cell h E9. next_cell h E10.
  next_cell h E11. next_cell h E12.
  match goal with |- context [exec h ?p ?s] =>
    destruct (exec h p s) as [[[?|?] ?] ?] eqn:E13; [|done] end.
  intros _. cbn [trace snd].
  note_flow E1. note_flow E3. note_flow E4. note_flow E5. note_flow E6.
  note_flow E7. note_flow E8. note_flow E9. note_flow E10. note_flow E11.
  note_flow E12. note_flow E13. note_quiet flows E2.
  apply cell_credentials_role in E2.
  apply cell_upload_flow in E9. apply cell_deploy_flow in E10 as [m E10].
  apply cell_predict_summarize_flow in E11.
  apply cell_predict_math_flow in E12. apply cell_delete_flow in E13.
  eexists _, role, m, _.
  unfold flows, role_answers, iam_answers in *. rewrite !omap_app.
  repeat match goal with
         | Q : omap _ _ = _ |- _ => rewrite Q; clear Q
         end.
  cbn [app]. split; [done|].
  destruct E2 as [(r & -> & -> & ->)|(-> & resp & -> & Harn)]; cbn [app].
  - left. by eexists.
  - right. split; [done|]. by eexists.
Qed.

Lemma notebook_resources_flow_witness :
  ∃ uri role m p,
    flows (trace (exec no_execution_role notebook tt)) =
      [Uploaded uri; ModelMade uri role m; Deployed m p;
       Requested p; Requested p; ModelDeleted p; EndpointDeleted p] ∧
    ((∃ r, role_answers (trace (exec no_execution_role notebook tt)) = [r] ∧
           iam_answers (trace (exec no_execution_role notebook tt)) = [] ∧
           role = VStr r) ∨
     (role_answers (trace (exec no_execution_role notebook tt)) = [] ∧
      ∃ resp, iam_answers (trace (exec no_execution_role notebook tt)) = [resp] ∧
              role_arn resp = Ok role)).
Proof.
  apply (notebook_resources_flow no_execution_role tt). reflexivity.
Defined.

(** ** An IAM answer without a role *)

Lemma cell_credentials_malformed {S} (h : handler S) s resp e :
  iam_answers (trace (exec h cell_credentials s)) = [resp] →
  role_arn resp = Raise e →
  outcome (exec h cell_credentials s) = Raise e ∧
  sessions (trace (exec h cell_credentials s)) = [None] ∧
  printed (trace (exec h cell_credentials s)) = [].
Proof.
  unfold cell_credentials, mbind, prog_bind, mret, prog_ret,
    iam_answers, sessions, printed. cbn.
  repeat (first
    [ answer h
    | match goal with
      | |- context [isinstance ?e ?c] => destruct (isinstance e c) eqn:?
      | |- context [subscript ?v _] => is_var v; destruct v
      | |- context [@lookup _ _ _ _ ?k ?d] => is_var d; destruct (d !! k) eqn:?
      end ]; cbn);
    intros ?; simplify_eq; cbn;
    repeat match goal with H : _ !! _ = _ |- _ => rewrite H end;
    intros ?; by simplify_eq.
Qed.

(** X14. When the look-up of the role falls back to IAM and what
    [iam.get_role] answers holds no [Arn] under [Role], the notebook ends
    there with the exception of the subscript ([KeyError] for a missing
    key, [TypeError] for an answer or a [Role] that is no mapping): the
    session with the bucket is never created and nothing is printed. *)
Theorem credentials_fallback_malformed_answer {S} (h : handler S) s resp e :
  iam_answers (trace (exec h notebook s)) = [resp] →
  role_arn resp = Raise e →
  outcome (exec h notebook s) = Raise e ∧
  sessions (trace (exec h notebook s)) = [None] ∧
  printed (trace (exec h notebook s)) = [].
Proof.
  unfold notebook, mbind, prog_bind.
  rewrite outcome_bind, trace_bind.
  destruct (exec h cell_install s) as [[[?|?] s1] t1] eqn:E1;
    note_quiet iam_answers E1; note_quiet sessions E1; note_quiet printed E1;
    [|by rewrite Q].
  unfold iam_answers, sessions, printed in *. rewrite !omap_app, Q, Q0, Q1.
  cbn [app]. rewrite outcome_bind.
  rewrite !observe_bind_r
    by (intros [? ?]; unfold cell_mkdir_code,
          cell_requirements, cell_inference, cell_download,
          cell_copy_code, cell_compress, compress, cell_upload,
          cell_deploy, cell_predict_summarize, cell_predict_math,
          cell_delete; split_quiet).
  intros Hresp Harn.
  destruct (cell_credentials_malformed h s1 resp e Hresp Harn) as (Ho & Hs & Hp).
  rewrite trace_bind.
  destruct (exec h cell_credentials s1) as [[[?|?] ?] ?]; [done|].
  cbn in *. by simplify_eq.
Qed.

Lemma credentials_fallback_malformed_answer_witness :
  outcome (exec iam_without_role notebook tt) = Raise KeyError ∧
  sessions (trace (exec iam_without_role notebook tt)) = [None] ∧
  printed (trace (exec iam_without_role notebook tt)) = [].
Proof.
  apply (credentials_fallback_malformed_answer iam_without_role tt (VDict ∅));
    reflexivity.
Defined.

(** ** [compress] on the file system *)

Lemma put_file_frame p c r r' :
  put_file p c r = Some r' → same_files_but p r r'.
Proof.
  unfold same_files_but.
  revert r r'. induction p as [|f p IH]; intros r r'; [done|].
  destruct r as [c1|chr]; [by destruct p|].
  destruct p as [|g p].
  - simpl. destruct (assoc f chr) as [[c1|ch1]|] eqn:Hf; try done;
      intros ? q c0 Hq; simplify_eq;
      (destruct q as [|k q]; simpl; [done|]);
      (destruct (decide (k = f)) as [->|Hne];
        [rewrite assoc_set_eq, Hf; by destruct q
        |by rewrite assoc_set_ne]).
  - change (put_file (f :: g :: p) c (Dir chr)) with
      (match assoc f chr with
       | Some sub =>
           match put_file (g :: p) c sub with
           | Some sub' => Some (Dir (assoc_set f sub' chr))
           | None => None
           end
       | None => None
       end).
    destruct (assoc f chr) as [sub|] eqn:Hf; [|done].
    destruct (put_file (g :: p) c sub) as [sub'|] eqn:Hput; [|done].
    intros ? q c0 Hq; simplify_eq.
    destruct q as [|k q]; simpl; [done|].
    destruct (decide (k = f)) as [->|Hne].
    + rewrite assoc_set_eq, Hf. eapply IH; [done|]. congruence.
    + by rewrite assoc_set_ne.
Qed.

Lemma same_files_but_refl p r : same_files_but p r r.
Proof. by intros q c _. Qed.

Lemma same_files_but_trans p r1 r2 r3 :
  same_files_but p r1 r2 → same_files_but p r2 r3 → same_files_but p r1 r3.
Proof. intros H1 H2 q c Hq. etrans; [by apply H2|by apply H1]. Qed.

(** The loop of [compress], whether it returns or raises: the tree and the
    working directory stay, and the archive stays open at its path. *)
Lemma add_loop_frame items : ∀ σ t ot,
  fs_tars σ !! t = Some ot →
  let x := exec fs_handler
             (for_each items (λ item,
                bind (do (Print [VStr item])) (λ _, do (TarAdd t item item))))
             σ in
  fs_root (final x) = fs_root σ ∧ fs_cwd (final x) = fs_cwd σ ∧
  tar_opened (trace x) = [] ∧
  ∃ ms, fs_tars (final x) !! t
        = Some (OpenTar (tar_path ot) (tar_compression ot) ms).
Proof.
  induction items as [|item items IH]; intros σ t ot Ht; cbv zeta.
  - cbn. split_and!; [done..|]. exists (tar_members ot). by destruct ot.
  - cbn [for_each]. rewrite !exec_bind, !exec_do. cbn [fs_handler fst snd].
    destruct (fs_tar_add _ t item item) as [r σ2] eqn:Hadd.
    unfold fs_tar_add in Hadd.
    cbn [fs_tars fs_root fs_cwd fs_next fs_stdout] in Hadd.
    rewrite Ht in Hadd.
    case_bool_decide as Hitem.
    { simplify_eq. cbn. split_and!; [done..|].
      exists (tar_members ot). by destruct ot. }
    destruct (walk (fs_root σ) (fs_cwd σ) item) as [p|] eqn:Hw.
    2: { simplify_eq. cbn. split_and!; [done..|].
         exists (tar_members ot). by destruct ot. }
    destruct (lookup_node (fs_root σ) p) as [n|] eqn:Hn.
    2: { simplify_eq. cbn. split_and!; [done..|].
         exists (tar_members ot). by destruct ot. }
    cbv zeta in Hadd. destruct (forallb readable _) eqn:Hread.
    2: { simplify_eq. cbn. split_and!; [done..|].
         eexists. apply lookup_insert_eq. }
    injection Hadd as <- <-. cbn [fst snd].
    match goal with |- context [exec fs_handler _ ?s] => set (σ2 := s) end.
    assert (Ht2 : fs_tars σ2 !! t
                  = Some (OpenTar (tar_path ot) (tar_compression ot)
                            (tar_members ot ++
                             add_node (tar_path ot) p item n)))
      by apply lookup_insert_eq.
    specialize (IH σ2 t _ Ht2). cbv zeta in IH.
    destruct (exec fs_handler _ σ2) as [[res s3] t3].
    cbn [outcome final trace fst snd] in *. exact IH.
Qed.

(** The ways a call of [compress] can go: the target is no directory; the
    archive cannot be created; it is created and then the body or the
    closing raises; it is created and written. *)
Lemma compress_fs_run σ tar_dir output_file :
  let x := exec fs_handler (compress tar_dir output_file) σ in
  let ap := archive_path σ output_file in
  (target_ok σ tar_dir = false ∧ final x = σ ∧ is_ok (outcome x) = false ∧
   tar_opened (trace x) = []) ∨
  (target_ok σ tar_dir = true ∧
   (((walk (fs_root σ) (fs_cwd σ)
        (path_join (abs_string (fs_cwd σ)) output_file) = None ∨
      put_file ap (Bytes "") (fs_root σ) = None) ∧
     fs_root (final x) = fs_root σ ∧ is_ok (outcome x) = false ∧
     tar_opened (trace x) = []) ∨
    (∃ root1, put_file ap (Bytes "") (fs_root σ) = Some root1 ∧
       tar_opened (trace x) = [fs_next σ] ∧
       ((fs_root (final x) = root1 ∧ is_ok (outcome x) = false) ∨
        (∃ ms root2,
           put_file ap (TarArchive Gzip ms) root1 = Some root2 ∧
           fs_root (final x) = root2))))).
Proof.
  cbv zeta. unfold compress, mbind, prog_bind, archive_path, target_ok.
  rewrite exec_bind, exec_do. cbn [fs_handler fst snd].
  rewrite exec_bind, exec_do.
  destruct tar_dir as [d|]; cbn [fs_handler]; [|by left].
  destruct (find_dir σ d) as [[p ch]|e] eqn:Hdir; cbn [fst snd is_ok];
    [|by left].
  right. split; [done|].
  rewrite exec_bind, exec_do. cbn [fs_handler]. unfold fs_open_tar.
  change (compression_of_mode "w:gz") with (Some Gzip).
  cbn [fs_root fs_cwd fs_tars fs_next fs_stdout].
  rewrite (walk_absolute _ p (fs_cwd σ)) by apply path_join_absolute.
  destruct (walk (fs_root σ) (fs_cwd σ) _) as [ap0|] eqn:Hwalk;
    cbn [fst snd]; [|left; split; [by left|done]].
  pose proof (walk_resolve _ _ _ _ Hwalk) as ->.
  destruct (put_file _ (Bytes "") (fs_root σ)) as [root1|] eqn:Hput;
    cbn [fst snd]; [|left; split; [by right|done]].
  match type of Hput with put_file ?a _ _ = _ => set (ap := a) in * end.
  right. exists root1. split; [done|].
  rewrite exec_bind, exec_with_exit, exec_bind, exec_do. cbn [fs_handler].
  match goal with |- context [find_dir ?s "."] => set (σ2 := s) end.
  assert (Htar : fs_tars σ2 !! fs_next σ = Some (OpenTar ap Gzip []))
    by apply lookup_insert_eq.
  destruct (find_dir σ2 ".") as [[p1 ch1]|e]; cbn [fst snd].
  - pose proof (add_loop_frame (map fst ch1) σ2 (fs_next σ) _ Htar) as HL.
    cbv zeta in HL.
    destruct (exec fs_handler (for_each _ _) σ2) as [[[[]|e] s3] t3];
      cbn [outcome final trace fst snd tar_path tar_compression] in HL;
      destruct HL as (Hr & Hc & Ho & ms & Hms); subst σ2;
      cbn [fs_root fs_cwd] in Hr, Hc; rewrite exec_do;
      cbn [fs_handler fst snd].
    + unfold fs_tar_close. rewrite Hms, Hr.
      cbn [tar_path tar_compression tar_members fs_root].
      destruct (put_file ap (TarArchive Gzip ms) root1) as [root2|] eqn:Hput2;
        cbn [fst snd].
      * cbv beta iota. rewrite exec_do. cbn [fs_handler].
        match goal with
        | |- context [find_dir ?s (abs_string ?c)] =>
            destruct (find_dir s (abs_string c)) as [[p2 ch2]|e]
        end; cbn [fst snd final outcome trace].
        all: split; [unfold tar_opened in *; rewrite !omap_app, Ho; reflexivity|].
        all: right; exists ms, root2; split; [exact Hput2|reflexivity].
      * cbn [final outcome trace fst snd].
        split; [unfold tar_opened in *; rewrite !omap_app, Ho; reflexivity|].
        left. by rewrite Hr.
    + cbn [final outcome trace fst snd fs_root].
      split; [unfold tar_opened in *; rewrite !omap_app, Ho; reflexivity|].
      left. by rewrite Hr.
  - rewrite exec_do. cbn. split; [done|]. by left.
Qed.

(** X15. Called on a target that is no directory (a missing path, a
    regular file, or none at all, as with the default [tar_dir=None]),
    [compress] raises before it opens the archive and leaves the file system
    and the working directory as they were. *)
Theorem compress_bad_target_changes_nothing σ tar_dir output_file :
  target_ok σ tar_dir = false →
  let x := exec fs_handler (compress tar_dir output_file) σ in
  is_ok (outcome x) = false ∧ final x = σ ∧ tar_opened (trace x) = [].
Proof.
  intros Hbad. cbv zeta.
  destruct (compress_fs_run σ tar_dir output_file) as [(_ & ? & ? & ?)|[Hok _]];
    [done|congruence].
Qed.

Lemma compress_bad_target_changes_nothing_witness :
  let x := exec fs_handler (compress None "model.tar.gz") sample_fs in
  is_ok (outcome x) = false ∧ final x = sample_fs ∧ tar_opened (trace x) = [].
Proof.
  apply (compress_bad_target_changes_nothing sample_fs None "model.tar.gz").
  reflexivity.
Defined.

(** X16. Whatever the outcome, [compress] creates, changes and removes no
    regular file but the archive: at every other path the tree holds the
    same file, or none, before and after. *)
Theorem compress_touches_only_archive σ tar_dir output_file :
  same_files_but (archive_path σ output_file)
    (fs_root σ)
    (fs_root (final (exec fs_handler (compress tar_dir output_file) σ))).
Proof.
  destruct (compress_fs_run σ tar_dir output_file)
    as [(_ & -> & _)|(_ & [(_ & -> & _)|(root1 & Hput & _ & Hend)])];
    [apply same_files_but_refl..|].
  apply put_file_frame in Hput.
  destruct Hend as [[-> _]|(ms & root2 & Hput2 & ->)]; [done|].
  apply put_file_frame in Hput2. by eapply same_files_but_trans.
Qed.

(** X17. Once [tarfile.open] has returned, a regular file is at the path
    of the archive when [compress] ends, also when the listing, an addition,
    the closing or the change back raises: the file is not removed. *)
Theorem compress_leaves_archive_file σ tar_dir output_file :
  let x := exec fs_handler (compress tar_dir output_file) σ in
  tar_opened (trace x) ≠ [] →
  ∃ c, lookup_node (fs_root (final x)) (archive_path σ output_file)
       = Some (File c).
Proof.
  cbv zeta.
  destruct (compress_fs_run σ tar_dir output_file)
    as [(_ & _ & _ & ->)|(_ & [(_ & _ & _ & ->)|(root1 & Hput & _ & Hend)])];
    [done..|].
  intros _. destruct Hend as [[-> _]|(ms & root2 & Hput2 & ->)].
  - eexists. by eapply put_file_lookup.
  - eexists. by eapply put_file_lookup.
Qed.

Lemma compress_leaves_archive_file_witness :
  let x := exec fs_handler
             (compress (Some "flan-t5-xxl-sharded-fp16") "model.tar.gz")
             sample_fs in
  ∃ c, lookup_node (fs_root (final x)) (archive_path sample_fs "model.tar.gz")
       = Some (File c).
Proof.
  apply (compress_leaves_archive_file sample_fs
           (Some "flan-t5-xxl-sharded-fp16") "model.tar.gz").
  by vm_compute.
Defined.

(** The archive of a plain file name lies in the calling directory. *)
Lemma string_append_assoc (a b c : string) : (a ++ b) ++ c = a ++ b ++ c.
Proof.
  induction a as [|x a IH]; [done|].
  change (String x ((a ++ b) ++ c) = String x (a ++ b ++ c)). by rewrite IH.
Qed.

Lemma concat_snoc (p : list string) f :
  p ≠ [] → String.concat "/" (p ++ [f]) = String.concat "/" p ++ "/" ++ f.
Proof.
  induction p as [|g p IH]; [done|]. intros _.
  destruct p as [|g' p].
  - simpl. done.
  - change ((g :: g' :: p) ++ [f])%list with (g :: ((g' :: p) ++ [f]))%list.
    change (String.concat "/" (g :: (g' :: p) ++ [f])%list)
      with (g ++ "/" ++ String.concat "/" ((g' :: p) ++ [f])%list).
    rewrite IH by done.
    change (String.concat "/" (g :: g' :: p))
      with (g ++ "/" ++ String.concat "/" (g' :: p)).
    by rewrite ?string_append_assoc.
Qed.

Lemma concat_ends p :
  p ≠ [] → forallb valid_name p = true →
  String.concat "/" p ≠ "" ∧ ends_with_sep (String.concat "/" p) = false.
Proof.
  induction p as [|f p IH]; [done|]. intros _. simpl forallb.
  rewrite andb_true_iff, valid_name_spec. intros [(Hf & _ & _ & Hsep) Hp].
  destruct p as [|g p].
  - simpl. split; [done|]. by apply no_sep_ends.
  - destruct (IH ltac:(done) Hp) as [Hne Hends].
    change (String.concat "/" (f :: g :: p))
      with (f ++ String "/" (String.concat "/" (g :: p))).
    split; [by destruct f|].
    rewrite ends_with_sep_app by done.
    destruct (String.concat "/" (g :: p)) as [|a X]; [done|exact Hends].
Qed.

Lemma archive_path_plain σ f :
  forallb valid_name (fs_cwd σ) = true → valid_name f = true →
  archive_path σ f = (fs_cwd σ ++ [f])%list.
Proof.
  intros Hcwd Hf. pose proof Hf as (_ & _ & _ & Hsep)%valid_name_spec.
  unfold archive_path, path_join. rewrite no_sep_starts by done.
  assert (Hv : forallb valid_name (fs_cwd σ ++ [f]) = true)
    by (rewrite forallb_app, Hcwd; simpl; by rewrite Hf).
  destruct (fs_cwd σ) as [|g p] eqn:Hp.
  - simpl. change (abs_string [] ++ f) with (abs_string [f]).
    by apply resolve_abs_string.
  - destruct (concat_ends (g :: p) ltac:(done) Hcwd) as [Hne Hends].
    assert (Habs : ends_with_sep (abs_string (g :: p)) = false).
    { unfold abs_string. change ("/" ++ ?s) with (String "/" s).
      destruct (String.concat "/" (g :: p)) as [|a X]; [done|exact Hends]. }
    rewrite Habs, bool_decide_eq_false_2 by done. simpl orb. cbv iota.
    replace (abs_string (g :: p) ++ "/" ++ f)
      with (abs_string ((g :: p) ++ [f])).
    + by apply resolve_abs_string.
    + unfold abs_string. rewrite concat_snoc by done.
      by rewrite ?string_append_assoc.
Qed.

(** X18. When [compress] is called with a plain file name and returns, the
    archive lies in the directory it was called from, not in the target
    directory it changed into: the path is taken from [os.getcwd()] before
    the change. *)
Theorem compress_writes_in_calling_directory σ tar_dir output_file :
  wf_fs σ = true → valid_name output_file = true →
  let x := exec fs_handler (compress tar_dir output_file) σ in
  outcome x = Ok tt →
  ∃ members,
    lookup_node (fs_root (final x)) (fs_cwd σ ++ [output_file])
    = Some (File (TarArchive Gzip members)).
Proof.
  intros Hwf Hname. apply andb_true_iff in Hwf as [_ Hcwd]. cbv zeta.
  rewrite <- (archive_path_plain σ output_file) by done.
  destruct (compress_fs_run σ tar_dir output_file)
    as [(_ & _ & Hno & _)|(_ & [(_ & _ & Hno & _)|(root1 & Hput & _ & Hend)])];
    [intros Hok; by rewrite Hok in Hno..|].
  destruct Hend as [[_ Hno]|(ms & root2 & Hput2 & ->)];
    [intros Hok; by rewrite Hok in Hno|].
  intros _. exists ms. by eapply put_file_lookup.
Qed.

Lemma compress_writes_in_calling_directory_witness :
  let x := exec fs_handler
             (compress (Some "flan-t5-xxl-sharded-fp16") "model.tar.gz")
             sample_fs in
  ∃ members,
    lookup_node (fs_root (final x)) (fs_cwd sample_fs ++ ["model.tar.gz"])
    = Some (File (TarArchive Gzip members)).
Proof.
  apply (compress_writes_in_calling_directory sample_fs
           (Some "flan-t5-xxl-sharded-fp16") "model.tar.gz"); reflexivity.
Defined.

(** ** When [compress] returns *)

Lemma put_file_keeps_dirs p c r r' q ch :
  put_file p c r = Some r' → lookup_node r q = Some (Dir ch) →
  ∃ ch', lookup_node r' q = Some (Dir ch').
Proof.
  revert r r' q ch. induction p as [|f p IH]; intros r r' q ch; [done|].
  destruct r as [c1|chr]; [by destruct p|].
  destruct p as [|g p].
  - simpl. destruct (assoc f chr) as [[c1|ch1]|] eqn:Hf; try done;
      intros ? Hq; simplify_eq;
      (destruct q as [|k q]; simpl in *; [by eexists|]);
      (destruct (decide (k = f)) as [->|Hne];
        [rewrite Hf in Hq; by destruct q
        |rewrite assoc_set_ne by done; eauto]).
  - change (put_file (f :: g :: p) c (Dir chr)) with
      (match assoc f chr with
       | Some sub =>
           match put_file (g :: p) c sub with
           | Some sub' => Some (Dir (assoc_set f sub' chr))
           | None => None
           end
       | None => None
       end).
    destruct (assoc f chr) as [sub|] eqn:Hf; [|done].
    destruct (put_file (g :: p) c sub) as [sub'|] eqn:Hput; [|done].
    intros ? Hq; simplify_eq.
    destruct q as [|k q]; simpl in *; [by eexists|].
    destruct (decide (k = f)) as [->|Hne].
    + rewrite Hf in Hq. rewrite assoc_set_eq. by eapply IH.
    + rewrite assoc_set_ne by done. eauto.
Qed.

(** A file that was put can be put again. *)
Lemma put_file_again p c c' r r' :
  put_file p c r = Some r' → is_Some (put_file p c' r').
Proof.
  revert r r'. induction p as [|f p IH]; intros r r'; [done|].
  destruct r as [c1|chr]; [by destruct p|].
  destruct p as [|g p].
  - simpl. destruct (assoc f chr) as [[c1|ch1]|] eqn:Hf; try done;
      intros ?; simplify_eq; simpl; by rewrite assoc_set_eq.
  - change (put_file (f :: g :: p) c (Dir chr)) with
      (match assoc f chr with
       | Some sub =>
           match put_file (g :: p) c sub with
           | Some sub' => Some (Dir (assoc_set f sub' chr))
           | None => None
           end
       | None => None
       end).
    destruct (assoc f chr) as [sub|] eqn:Hf; [|done].
    destruct (put_file (g :: p) c sub) as [sub'|] eqn:Hput; [|done].
    intros ?; simplify_eq.
    change (put_file (f :: g :: p) c' (Dir (assoc_set f sub' chr))) with
      (match assoc f (assoc_set f sub' chr) with
       | Some sub0 =>
           match put_file (g :: p) c' sub0 with
           | Some sub1 => Some (Dir (assoc_set f sub1 (assoc_set f sub' chr)))
           | None => None
           end
       | None => None
       end).
    rewrite assoc_set_eq.
    destruct (IH _ _ Hput) as [sub'' ->]. by eexists.
Qed.

Lemma lookup_node_snoc r p ch f :
  lookup_node r p = Some (Dir ch) → lookup_node r (p ++ [f]) = assoc f ch.
Proof.
  revert r. induction p as [|g p IH]; intros r; simpl.
  - intros ?; simplify_eq. by destruct (assoc f ch).
  - destruct r as [c|chr]; [done|].
    destruct (assoc g chr) as [sub|]; [apply IH|done].
Qed.

Lemma assoc_listed {A} f (ch : list (string * A)) :
  f ∈ map fst ch → is_Some (assoc f ch).
Proof.
  induction ch as [|[k v] ch IH]; simpl; [by intros ?%elem_of_nil|].
  intros [->|Hf]%elem_of_cons.
  - by rewrite bool_decide_eq_true_2.
  - case_bool_decide; [done|by apply IH].
Qed.

(** What is under a regular file, and what is above a node. *)
Lemma lookup_node_app r q1 q2 n :
  lookup_node r (q1 ++ q2) = Some n →
  ∃ m, lookup_node r q1 = Some m ∧ lookup_node m q2 = Some n.
Proof.
  revert r. induction q1 as [|f q1 IH]; intros r; simpl; [by eauto|].
  destruct r as [c|ch]; [done|].
  destruct (assoc f ch) as [sub|]; [apply IH|done].
Qed.

Lemma lookup_above r q f q' n :
  lookup_node r (q ++ f :: q') = Some n →
  ∃ ch, lookup_node r q = Some (Dir ch).
Proof.
  intros (m & Hm & Hn)%lookup_node_app. destruct m as [c|ch]; [done|by eauto].
Qed.

(** ** Walks that succeed *)

Lemma step_component_name acc f :
  valid_name f = true → step_component acc f = (acc ++ [f])%list.
Proof.
  intros (? & ? & ? & _)%valid_name_spec. unfold step_component.
  by rewrite !bool_decide_eq_false_2.
Qed.

Lemma walk_names root q : ∀ acc n,
  forallb valid_name q = true →
  lookup_node root (acc ++ q) = Some n →
  foldl (walk_step root) (Some acc) q = Some (acc ++ q)%list.
Proof.
  induction q as [|f q IH]; intros acc n Hq Hn; simpl.
  - by rewrite app_nil_r.
  - simpl in Hq. apply andb_true_iff in Hq as [Hf Hq].
    destruct (lookup_above _ _ _ _ _ Hn) as [ch ->].
    rewrite step_component_name by done.
    rewrite (IH (acc ++ [f])%list n), <- app_assoc; [done..|].
    by rewrite <- app_assoc.
Qed.

Lemma walk_name root cwd f ch :
  valid_name f = true → lookup_node root cwd = Some (Dir ch) →
  walk root cwd f = Some (cwd ++ [f])%list.
Proof.
  intros Hf Hcwd. pose proof Hf as (_ & _ & _ & Hsep)%valid_name_spec.
  unfold walk. rewrite no_sep_starts, split_on_name by done.
  simpl. by rewrite Hcwd, step_component_name.
Qed.

Lemma walk_dot root cwd ch :
  lookup_node root cwd = Some (Dir ch) → walk root cwd "." = Some cwd.
Proof. intros Hcwd. unfold walk. simpl. by rewrite Hcwd. Qed.

Lemma walk_abs_string root cwd p ch :
  forallb valid_name p = true → lookup_node root p = Some (Dir ch) →
  walk root cwd (abs_string p) = Some p.
Proof.
  intros Hp Hdir. unfold walk, abs_string.
  change ("/" ++ String.concat "/" p) with (String "/" (String.concat "/" p)).
  rewrite split_on_cons. cbn [starts_with_sep].
  rewrite !bool_decide_eq_true_2 by done.
  assert (Hroot : ∃ ch0, root = Dir ch0).
  { destruct p as [|f p]; simpl in Hdir; [by simplify_eq; eauto|].
    destruct root as [c|chr]; [done|by eauto]. }
  destruct Hroot as [ch0 ->].
  change (foldl (walk_step (Dir ch0)) (Some []) ("" :: ?l))
    with (foldl (walk_step (Dir ch0)) (Some []) l).
  destruct p as [|f p]; [done|].
  rewrite split_on_concat by done.
  by apply (walk_names (Dir ch0) (f :: p) [] (Dir ch)).
Qed.

(** ** Files that can be read *)

Lemma readable_tree_dir self abs ch :
  readable_tree self abs (Dir ch) =
    if bool_decide (abs = self) then true
    else forallb (λ x, readable_tree self (abs ++ [x.1]) x.2) ch.
Proof.
  simpl. case_bool_decide; [done|].
  induction ch as [|[f c] ch IH]; [done|]. simpl. by rewrite IH.
Qed.

(** Adding a tree whose files can be read gives members that could be
    read. *)
Lemma add_node_readable self n : ∀ abs arcname,
  readable_tree self abs n = true →
  forallb readable (add_node self abs arcname n) = true.
Proof.
  induction n as [c|ch IH] using node_induction; intros abs arcname.
  - simpl. case_bool_decide; [done|]. by destruct c.
  - rewrite add_node_dir, readable_tree_dir. case_bool_decide; [done|].
    intros Hch. rewrite forallb_forall in Hch. simpl.
    apply forallb_forall. intros m Hm.
    apply in_concat in Hm as (ms & Hms & Hm).
    apply in_map_iff in Hms as ([f ms'] & <- & Hms).
    apply sort_by_name_In, in_map_iff in Hms as ([f' c] & Heq & Hin).
    simpl in Heq. injection Heq as <- <-. simpl in Hm.
    rewrite Forall_forall in IH.
    specialize (IH _ (proj2 (list_elem_of_In _ _) Hin)). simpl in IH.
    specialize (Hch _ Hin). simpl in Hch.
    pose proof (IH _ (path_join arcname f') Hch) as Hall.
    rewrite forallb_forall in Hall. by apply Hall.
Qed.

(** What is found in a tree whose files can be read is such a tree. *)
Lemma readable_lookup self q : ∀ r abs n,
  readable_tree self abs r = true →
  lookup_node r q = Some n →
  (∀ q1 q2, q = (q1 ++ q2)%list → q2 ≠ [] → (abs ++ q1)%list ≠ self) →
  readable_tree self (abs ++ q) n = true.
Proof.
  induction q as [|f q IH]; intros r abs n Hr Hn Hself.
  - simpl in Hn. injection Hn as <-. by rewrite app_nil_r.
  - simpl in Hn. destruct r as [c|ch]; [done|].
    destruct (assoc f ch) as [sub|] eqn:Hf; [|done].
    rewrite readable_tree_dir in Hr.
    rewrite bool_decide_eq_false_2 in Hr.
    2: { specialize (Hself [] (f :: q) eq_refl ltac:(done)).
         by rewrite app_nil_r in Hself. }
    rewrite forallb_forall in Hr.
    apply assoc_Some, list_elem_of_In, Hr in Hf. simpl in Hf.
    replace (abs ++ f :: q)%list with ((abs ++ [f]) ++ q)%list
      by by rewrite <- app_assoc.
    apply (IH sub); [done..|].
    intros q1 q2 -> Hq2. rewrite <- app_assoc.
    by apply (Hself (f :: q1) q2).
Qed.

Lemma assoc_set_In {A} name (x : A) l y :
  In y (assoc_set name x l) → y = (name, x) ∨ In y l.
Proof.
  induction l as [|[k v] l IH]; simpl.
  - intros [<-|[]]. by left.
  - case_bool_decide as Hk; simpl.
    + intros [<-|Hy]; [left; by subst|right; by right].
    + intros [<-|Hy]; [right; by left|]. destruct (IH Hy); auto.
Qed.

(** Putting a file leaves a tree whose files can be read, the file put, at
    [self], being left out. *)
Lemma readable_put p c : ∀ r r' abs,
  put_file p c r = Some r' →
  readable_tree (abs ++ p) abs r = true →
  readable_tree (abs ++ p) abs r' = true.
Proof.
  induction p as [|f p IH]; intros r r' abs; [done|].
  destruct r as [c1|chr]; [by destruct p|].
  destruct p as [|g p].
  - simpl put_file.
    destruct (assoc f chr) as [[c1|ch1]|] eqn:Hf; try done;
      intros ?; simplify_eq; rewrite !readable_tree_dir;
      (case_bool_decide; [done|]); rewrite !forallb_forall;
      intros Hr y [->|Hy]%assoc_set_In; try (by apply Hr);
      simpl; by rewrite bool_decide_eq_true_2.
  - change (put_file (f :: g :: p) c (Dir chr)) with
      (match assoc f chr with
       | Some sub =>
           match put_file (g :: p) c sub with
           | Some sub' => Some (Dir (assoc_set f sub' chr))
           | None => None
           end
       | None => None
       end).
    destruct (assoc f chr) as [sub|] eqn:Hf; [|done].
    destruct (put_file (g :: p) c sub) as [sub'|] eqn:Hput; [|done].
    intros ?; simplify_eq. rewrite !readable_tree_dir.
    case_bool_decide; [done|]. rewrite !forallb_forall.
    intros Hr y [->|Hy]%assoc_set_In; [|by apply Hr]. simpl.
    apply assoc_Some, list_elem_of_In, Hr in Hf. simpl in Hf.
    replace (abs ++ f :: g :: p)%list with ((abs ++ [f]) ++ g :: p)%list in *
      by by rewrite <- app_assoc.
    by eapply IH.
Qed.

(** The loop returns when every name is that of something in the tree that
    can be walked to and read. *)
Lemma add_loop_returns items : ∀ σ t ot,
  fs_tars σ !! t = Some ot →
  Forall (λ item, item ≠ "" ∧
            ∃ p n, walk (fs_root σ) (fs_cwd σ) item = Some p ∧
                   lookup_node (fs_root σ) p = Some n ∧
                   forallb readable (add_node (tar_path ot) p item n) = true)
         items →
  outcome (exec fs_handler
             (for_each items (λ item,
                bind (do (Print [VStr item])) (λ _, do (TarAdd t item item))))
             σ) = Ok tt.
Proof.
  induction items as [|item items IH]; intros σ t ot Ht Hall; [done|].
  apply Forall_cons in Hall as [(Hne & p & n & Hw & Hn & Hread) Hall].
  cbn [for_each]. rewrite !exec_bind, !exec_do. cbn [fs_handler fst snd].
  unfold fs_tar_add. cbn [fs_tars fs_root fs_cwd fs_next fs_stdout].
  rewrite Ht, bool_decide_eq_false_2, Hw, Hn by done. cbv zeta.
  rewrite Hread. cbn [fst snd].
  match goal with |- context [exec fs_handler _ ?s] => set (σ2 := s) end.
  assert (Ht2 : fs_tars σ2 !! t
                = Some (OpenTar (tar_path ot) (tar_compression ot)
                          (tar_members ot ++
                           add_node (tar_path ot) p item n)))
    by apply lookup_insert_eq.
  specialize (IH σ2 t _ Ht2 Hall).
  destruct (exec fs_handler _ σ2) as [[res s3] t3]. exact IH.
Qed.

(** X19. On the model of the file system, which has no links, quotas or
    failing devices: [compress] returns whenever the tree is well formed,
    the directory it is called from is there, the target can be walked to
    and is a directory, the archive can be created, and every file of the
    tree but the archive can be read.  Then every name the listing gives can
    be added (the archive itself, when it lies in the target, is skipped),
    the archive can be written, and the way back is open. *)
Theorem compress_returns σ tar_dir output_file :
  wf_fs σ = true →
  (∃ ch, lookup_node (fs_root σ) (fs_cwd σ) = Some (Dir ch)) →
  target_ok σ tar_dir = true →
  creatable σ output_file = true →
  readable_tree (archive_path σ output_file) [] (fs_root σ) = true →
  outcome (exec fs_handler (compress tar_dir output_file) σ) = Ok tt.
Proof.
  intros Hwf [ch0 Hcwd0] Htarget Hcreate Hread.
  apply andb_true_iff in Hwf as [Hroot Hcwd].
  unfold target_ok in Htarget. destruct tar_dir as [d|]; [|done].
  destruct (find_dir σ d) as [[p ch]|e] eqn:Hdir; [|done]. clear Htarget.
  pose proof Hdir as [Hp Hch]%find_dir_Ok.
  assert (Hpv : forallb valid_name p = true) by (subst p; by apply resolve_valid).
  unfold creatable in Hcreate.
  destruct (walk (fs_root σ) (fs_cwd σ) _) as [ap|] eqn:Hwalk; [|done].
  destruct (put_file ap (Bytes "") (fs_root σ)) as [root1|] eqn:Hput; [|done].
  clear Hcreate.
  pose proof (walk_resolve _ _ _ _ Hwalk) as Hap. fold (archive_path σ output_file) in Hap.
  rewrite <- Hap in Hread.
  assert (Hapv : forallb valid_name ap = true)
    by (rewrite Hap; by apply resolve_valid).
  assert (Hroot1 : wf_node root1 = true) by by eapply put_file_wf.
  destruct (put_file_keeps_dirs _ _ _ _ _ _ Hput Hch) as [ch1 Hch1].
  pose proof (put_file_lookup _ _ _ _ Hput) as Hfile1.
  assert (Hread1 : readable_tree ap [] root1 = true)
    by exact (readable_put ap (Bytes "") _ _ [] Hput Hread).
  unfold compress, mbind, prog_bind.
  rewrite exec_bind, exec_do. cbn [fs_handler fst snd].
  rewrite exec_bind, exec_do. cbn [fs_handler]. rewrite Hdir. cbn [fst snd].
  rewrite exec_bind, exec_do. cbn [fs_handler]. unfold fs_open_tar.
  change (compression_of_mode "w:gz") with (Some Gzip).
  cbn [fs_root fs_cwd fs_tars fs_next fs_stdout].
  rewrite (walk_absolute _ p (fs_cwd σ)) by apply path_join_absolute.
  rewrite Hwalk, Hput. cbn [fst snd].
  rewrite exec_bind, exec_with_exit, exec_bind, exec_do. cbn [fs_handler].
  match goal with |- context [find_dir ?s "."] => set (σ2 := s) end.
  assert (Hls : find_dir σ2 "." = Ok (p, ch1)).
  { unfold find_dir. subst σ2. cbn [fs_root fs_cwd].
    by rewrite bool_decide_eq_false_2, (walk_dot _ _ _ Hch1), Hch1 by done. }
  rewrite Hls. cbn [fst snd].
  assert (Htar : fs_tars σ2 !! fs_next σ = Some (OpenTar ap Gzip []))
    by apply lookup_insert_eq.
  assert (Hdir1 : wf_node (Dir ch1) = true) by by eapply wf_lookup.
  pose proof (add_loop_frame (map fst ch1) σ2 (fs_next σ) _ Htar) as HF.
  pose proof (add_loop_returns (map fst ch1) σ2 (fs_next σ) _ Htar) as HR.
  cbv zeta in HF.
  destruct (exec fs_handler (for_each _ _) σ2) as [[res s3] t3].
  cbn [outcome final trace fst snd tar_path tar_compression] in HF, HR.
  rewrite HR.
  2: { apply Forall_forall. intros item Hitem.
       pose proof (wf_names _ _ Hdir1 Hitem) as Hv.
       pose proof Hv as (? & _)%valid_name_spec. split; [done|].
       subst σ2. cbn [fs_root fs_cwd].
       destruct (assoc_listed _ _ Hitem) as [n Hn].
       exists (p ++ [item])%list, n. split_and!.
       - by eapply walk_name.
       - by rewrite (lookup_node_snoc _ _ _ _ Hch1).
       - apply add_node_readable.
         apply (readable_lookup ap (p ++ [item]) root1 [] n Hread1).
         + by rewrite (lookup_node_snoc _ _ _ _ Hch1).
         + intros q1 q2 Hq Hq2 Hself. simpl in Hself. subst q1.
           pose proof (lookup_node_snoc _ _ _ item Hch1) as Hlook.
           rewrite Hn, Hq in Hlook.
           apply lookup_node_app in Hlook as (m & Hm & Hrest).
           rewrite Hfile1 in Hm. injection Hm as <-.
           by destruct q2. }
  destruct HF as (Hr & Hc & _ & ms & Hms). subst σ2.
  cbn [fs_root fs_cwd] in Hr, Hc.
  rewrite exec_do. cbn [fs_handler fst snd]. unfold fs_tar_close.
  rewrite Hms, Hr. cbn [tar_path tar_compression tar_members].
  destruct (put_file_again ap (Bytes "") (TarArchive Gzip ms) _ _ Hput)
    as [root2 Hput2].
  rewrite Hput2. cbn [fst snd]. cbv beta iota.
  rewrite exec_do. cbn [fs_handler]. unfold find_dir.
  cbn [fs_root fs_cwd].
  destruct (put_file_keeps_dirs _ _ _ _ _ _ Hput Hcwd0) as [ch2 Hch2].
  destruct (put_file_keeps_dirs _ _ _ _ _ _ Hput2 Hch2) as [ch3 Hch3].
  rewrite bool_decide_eq_false_2 by done.
  by rewrite (walk_abs_string _ _ _ _ Hcwd Hch3), Hch3.
Qed.

Lemma compress_returns_witness :
  outcome (exec fs_handler
             (compress (Some "flan-t5-xxl-sharded-fp16") "model.tar.gz")
             sample_fs) = Ok tt.
Proof.
  apply (compress_returns sample_fs (Some "flan-t5-xxl-sharded-fp16")
           "model.tar.gz").
  - reflexivity.
  - eexists. reflexivity.
  - reflexivity.
  - reflexivity.
  - reflexivity.
Defined.

(** ** The name of the model directory *)

Lemma split_on_last s :
  ∃ ws w prefix,
    split_on "/" s = (ws ++ [w])%list ∧ no_sep w = true ∧ s = prefix ++ w ∧
    (ws = [] → prefix = "") ∧ (ws ≠ [] → ends_with_sep prefix = true).
Proof.
  induction s as [|c s (ws & w & prefix & Hs & Hw & -> & Hnil & Hcons)].
  { by exists [], "", "". }
  rewrite split_on_cons, Hs. case_bool_decide as Hc.
  - subst c. exists ("" :: ws), w, (String "/" prefix).
    split_and!; [done..|]. intros _.
    destruct ws as [|w0 ws]; [by rewrite Hnil|].
    simpl. rewrite Hcons by done. by destruct prefix.
  - destruct ws as [|w0 ws].
    + exists [], (String c w), "". rewrite Hnil by done.
      split_and!; try done. simpl. by rewrite bool_decide_eq_false_2, Hw.
    + exists (String c w0 :: ws), w, (String c prefix).
      split_and!; [done..|]. intros _.
      pose proof (Hcons ltac:(done)) as Hends.
      destruct prefix; [done|exact Hends].
Qed.

(** X20. Whatever the model id, [id.split("/")[-1]] returns (a split has a
    last element, so the subscript does not raise), and what it returns is
    the id from after its last slash on: it holds no slash, and in front of
    it the id has nothing or something that ends in a slash.  So the model
    directory is always a plain name in the working directory. *)
Theorem model_dir_name_is_last_component (id : string) :
  ∃ name prefix,
    last_item (split_on "/" id) = Ok name ∧
    no_sep name = true ∧
    id = prefix ++ name ∧
    (prefix = "" ∨ ends_with_sep prefix = true).
Proof.
  destruct (split_on_last id) as (ws & w & prefix & Hs & Hw & Hid & Hnil & Hcons).
  exists w, prefix. unfold last_item. rewrite Hs, last_snoc.
  split_and!; [done..|].
  destruct ws; [left; by apply Hnil|right; by apply Hcons].
Qed.

End NotebookExtras.
